(** * MCPX APU emulation core: a shallow embedding of [hw/xbox/mcpx_apu.c]

    The device state [MCPXAPUState] is a record, the C functions that mutate
    it are state-passing functions, and a failed [assert] is the outcome
    [Abort] tagged with the assertion that fired.  32-bit registers are
    integers of [Z] whose wrap-around is written out with [wrap32]. *)

From Stdlib Require Import ZArith List Bool Lia.
From coqutil Require Import Z.bitblast.
Import ListNotations.
Local Open Scope Z_scope.

(** ** Machine integers and bit fields *)

Definition wrap32 (x : Z) : Z := x mod 2 ^ 32.

(** Modelled from the spec: [ctz32] comes from QEMU's host-utils header, which
    is not part of the sources at hand; the voice accessors shift "by
    ctz(bitmask)".  It counts the trailing zero bits of a 32-bit value and is
    32 when no bit is set. *)
Fixpoint ctz_from (n : nat) (i : Z) (v : Z) : Z :=
  match n with
  | O => i
  | S k => if Z.testbit v i then i else ctz_from k (i + 1) v
  end.

Definition ctz32 (v : Z) : Z := ctz_from 32 0 v.

(** [GET_MASK(v, mask)] and [SET_MASK(v, mask, val)]; the latter returns the
    new value of the 32-bit lvalue [v].  The masks are [int] constants: the
    complement is taken on [int], the shift on [uint32_t]. *)
Definition GET_MASK (v mask : Z) : Z := Z.shiftr (Z.land v mask) (ctz32 mask).

Definition SET_MASK (v mask val : Z) : Z :=
  Z.lor (Z.land v (Z.lnot mask))
        (Z.land (wrap32 (Z.shiftl val (ctz32 mask))) mask).

(** ** Register offsets and constants *)

Definition NV_PAPU_ISTS : Z := 0x1000.
Definition NV_PAPU_ISTS_GINTSTS : Z := Z.shiftl 1 0.
Definition NV_PAPU_ISTS_FETINTSTS : Z := Z.shiftl 1 4.
Definition NV_PAPU_IEN : Z := 0x1004.
Definition NV_PAPU_FECTL : Z := 0x1100.
Definition NV_PAPU_FECTL_FEMETHMODE : Z := 0xE0.
Definition NV_PAPU_FECTL_FEMETHMODE_TRAPPED : Z := 0xE0.
Definition NV_PAPU_FECTL_FETRAPREASON : Z := 0xF00.
Definition NV_PAPU_FECTL_FETRAPREASON_REQUESTED : Z := 0xF00.
Definition NV_PAPU_FECV : Z := 0x1110.
Definition NV_PAPU_FEAV : Z := 0x1118.
Definition NV_PAPU_FEAV_VALUE : Z := 0xFFFF.
Definition NV_PAPU_FEAV_LST : Z := 0x30000.
Definition NV_PAPU_FEDECMETH : Z := 0x1300.
Definition NV_PAPU_FEDECPARAM : Z := 0x1304.
Definition NV_PAPU_FEMEMADDR : Z := 0x1324.
Definition NV_PAPU_FEMEMDATA : Z := 0x1334.
Definition NV_PAPU_FETFORCE1 : Z := 0x1504.
Definition NV_PAPU_FETFORCE1_SE2FE_IDLE_VOICE : Z := Z.shiftl 1 15.
Definition NV_PAPU_SECTL : Z := 0x2000.
Definition NV_PAPU_SECTL_XCNTMODE : Z := 0x18.
Definition NV_PAPU_SECTL_XCNTMODE_OFF : Z := 0.
Definition NV_PAPU_VPVADDR : Z := 0x202C.
Definition NV_PAPU_GPFADDR : Z := 0x2044.
Definition NV_PAPU_EPFADDR : Z := 0x204C.
Definition NV_PAPU_TVL2D : Z := 0x2054.
Definition NV_PAPU_CVL2D : Z := 0x2058.
Definition NV_PAPU_NVL2D : Z := 0x205C.
Definition NV_PAPU_TVL3D : Z := 0x2060.
Definition NV_PAPU_CVL3D : Z := 0x2064.
Definition NV_PAPU_NVL3D : Z := 0x2068.
Definition NV_PAPU_TVLMP : Z := 0x206C.
Definition NV_PAPU_CVLMP : Z := 0x2070.
Definition NV_PAPU_NVLMP : Z := 0x2074.
Definition NV_PAPU_GPFMAXSGE : Z := 0x20D8.
Definition NV_PAPU_EPFMAXSGE : Z := 0x20E0.

Definition NV_PAPU_GPOFBASE0 : Z := 0x3024.
Definition NV_PAPU_GPOFBASE0_VALUE : Z := 0x00FFFF00.
Definition NV_PAPU_GPOFEND0 : Z := 0x3028.
Definition NV_PAPU_GPOFEND0_VALUE : Z := 0x00FFFF00.
Definition NV_PAPU_GPOFCUR0 : Z := 0x302C.
Definition NV_PAPU_GPOFCUR0_VALUE : Z := 0x00FFFFFC.
Definition NV_PAPU_GPIFBASE0 : Z := 0x3064.
Definition NV_PAPU_GPIFEND0 : Z := 0x3068.
Definition NV_PAPU_GPIFCUR0 : Z := 0x306C.

Definition NV_PAPU_GPXMEM : Z := 0x0000.
Definition NV_PAPU_GPMIXBUF : Z := 0x5000.
Definition NV_PAPU_GPYMEM : Z := 0x6000.
Definition NV_PAPU_GPPMEM : Z := 0xA000.
Definition NV_PAPU_GPRST : Z := 0xFFFC.
Definition NV_PAPU_GPRST_GPRST : Z := Z.shiftl 1 0.
Definition NV_PAPU_GPRST_GPDSPRST : Z := Z.shiftl 1 1.
Definition NV_PAPU_EPXMEM : Z := 0x0000.
Definition NV_PAPU_EPYMEM : Z := 0x6000.
Definition NV_PAPU_EPPMEM : Z := 0xA000.
Definition NV_PAPU_EPRST : Z := 0xFFFC.

Definition NV1BA0_PIO_FREE : Z := 0x10.
Definition NV1BA0_PIO_SET_ANTECEDENT_VOICE : Z := 0x120.
Definition NV1BA0_PIO_SET_ANTECEDENT_VOICE_LIST_INHERIT : Z := 0.
Definition NV1BA0_PIO_VOICE_ON : Z := 0x124.
Definition NV1BA0_PIO_VOICE_ON_HANDLE : Z := 0xFFFF.
Definition NV1BA0_PIO_VOICE_OFF : Z := 0x128.
Definition NV1BA0_PIO_VOICE_OFF_HANDLE : Z := 0xFFFF.
Definition NV1BA0_PIO_VOICE_PAUSE : Z := 0x140.
Definition NV1BA0_PIO_VOICE_PAUSE_HANDLE : Z := 0xFFFF.
Definition NV1BA0_PIO_VOICE_PAUSE_ACTION : Z := Z.shiftl 1 18.
Definition NV1BA0_PIO_SET_CURRENT_VOICE : Z := 0x2F8.
Definition SE2FE_IDLE_VOICE : Z := 0x8000.

Definition NV_PAVS_SIZE : Z := 0x80.
Definition NV_PAVS_VOICE_PAR_STATE : Z := 0x54.
Definition NV_PAVS_VOICE_PAR_STATE_PAUSED : Z := Z.shiftl 1 18.
Definition NV_PAVS_VOICE_PAR_STATE_ACTIVE_VOICE : Z := Z.shiftl 1 21.
Definition NV_PAVS_VOICE_TAR_PITCH_LINK : Z := 0x7C.
Definition NV_PAVS_VOICE_TAR_PITCH_LINK_NEXT_VOICE_HANDLE : Z := 0xFFFF.

Definition GP_DSP_MIXBUF_BASE : Z := 0x1400.
Definition NUM_SAMPLES_PER_FRAME : nat := 32.
Definition NUM_MIXBINS : nat := 32.
Definition GP_OUTPUT_FIFO_COUNT : Z := 4.
Definition GP_INPUT_FIFO_COUNT : Z := 2.

(** The table [voice_list_regs]: top, current and next register of the 2D, 3D
    and MP voice lists. *)
Record voice_list_reg := { vl_top : Z; vl_current : Z; vl_next : Z }.

Definition voice_list_regs : list voice_list_reg :=
  [ {| vl_top := NV_PAPU_TVL2D; vl_current := NV_PAPU_CVL2D; vl_next := NV_PAPU_NVL2D |};
    {| vl_top := NV_PAPU_TVL3D; vl_current := NV_PAPU_CVL3D; vl_next := NV_PAPU_NVL3D |};
    {| vl_top := NV_PAPU_TVLMP; vl_current := NV_PAPU_CVLMP; vl_next := NV_PAPU_NVLMP |} ].

(** ** Outcomes: completion, a failed assertion, or a loop that never ends *)

Inductive assertion : Type :=
| A_voice_handle        (* assert(voice_handle < 0xFFFF) *)
| A_antecedent          (* assert(antecedent_voice != 0xFFFF) *)
| A_idle_voice_disabled (* assert(false) under SE2FE_IDLE_VOICE *)
| A_unknown_method      (* assert(false) under default: of fe_method *)
| A_max_sge             (* assert(page_entry <= max_sge) *)
| A_ram_bound           (* assert(paddr + bytes_to_copy < ram size) *)
| A_window              (* assert(cur >= base && cur + bytes_to_copy <= end) *)
| A_wrap                (* assert(cur == end) *)
| A_fifo_index          (* assert(index < ..._FIFO_COUNT) *)
| A_fifo_cur            (* assert(cur < end) *)
| A_size                (* assert(size == 4) *)
| A_align.              (* assert(addr % 4 == 0) *)

Inductive outcome (A : Type) : Type :=
| Done (a : A)
| Abort (w : assertion)
| Diverge.

Arguments Done {A} a.
Arguments Abort {A} w.
Arguments Diverge {A}.

Definition bind {A B : Type} (m : outcome A) (k : A -> outcome B) : outcome B :=
  match m with
  | Done a => k a
  | Abort w => Abort w
  | Diverge => Diverge
  end.

Notation "x <- m ;; k" := (bind m (fun x => k))
  (at level 61, m at next level, right associativity).

Definition assert (b : bool) (w : assertion) : outcome unit :=
  if b then Done tt else Abort w.

(** ** Device state *)

(** The two signal processors are opaque objects; each is represented by the
    sequence of calls the device has made on it, oldest first.  What a
    processor does when it is called lies outside the sources at hand: it
    holds the scratch and FIFO callbacks it was given at realisation and may
    run them, so a call may move the FIFO cursors, write guest RAM, or stop
    on an assertion of a callback.  A call is recorded here and nothing
    more; statements that follow the device across a call speak of the call
    logs and of the GP and EP register files, which no callback writes. *)
Inductive dsp_call : Type :=
| dsp_reset
| dsp_bootstrap
| dsp_start_frame
| dsp_run (cycles : Z)
| dsp_write_memory (bank : Z) (addr : Z) (value : Z).

(** [mem] is [address_space_memory], one byte per guest-physical address.  The
    machine maps its RAM region at guest-physical address 0, so [ram_ptr[p]]
    is the cell [mem p] for [p] below [ram_size].  [dirty] records the ranges
    passed to [memory_region_set_dirty], [irq] the level of the PCI interrupt
    line and [frame_timer] the deadline of the frame timer, if armed. *)
Record MCPXAPUState : Type := mkAPU {
  regs : Z -> Z;
  gp_regs : Z -> Z;
  ep_regs : Z -> Z;
  gp_dsp : list dsp_call;
  ep_dsp : list dsp_call;
  mem : Z -> Z;
  ram_size : Z;
  dirty : list (Z * Z);
  irq : bool;
  frame_timer : option Z
}.

Definition upd (f : Z -> Z) (a v : Z) : Z -> Z :=
  fun x => if x =? a then v else f x.

Definition set_reg (d : MCPXAPUState) (a v : Z) : MCPXAPUState :=
  mkAPU (upd (regs d) a v) (gp_regs d) (ep_regs d) (gp_dsp d) (ep_dsp d)
        (mem d) (ram_size d) (dirty d) (irq d) (frame_timer d).

Definition set_gp_reg (d : MCPXAPUState) (a v : Z) : MCPXAPUState :=
  mkAPU (regs d) (upd (gp_regs d) a v) (ep_regs d) (gp_dsp d) (ep_dsp d)
        (mem d) (ram_size d) (dirty d) (irq d) (frame_timer d).

Definition set_ep_reg (d : MCPXAPUState) (a v : Z) : MCPXAPUState :=
  mkAPU (regs d) (gp_regs d) (upd (ep_regs d) a v) (gp_dsp d) (ep_dsp d)
        (mem d) (ram_size d) (dirty d) (irq d) (frame_timer d).

Definition gp_call (d : MCPXAPUState) (c : list dsp_call) : MCPXAPUState :=
  mkAPU (regs d) (gp_regs d) (ep_regs d) (gp_dsp d ++ c) (ep_dsp d)
        (mem d) (ram_size d) (dirty d) (irq d) (frame_timer d).

Definition ep_call (d : MCPXAPUState) (c : list dsp_call) : MCPXAPUState :=
  mkAPU (regs d) (gp_regs d) (ep_regs d) (gp_dsp d) (ep_dsp d ++ c)
        (mem d) (ram_size d) (dirty d) (irq d) (frame_timer d).

Definition set_mem (d : MCPXAPUState) (m : Z -> Z) : MCPXAPUState :=
  mkAPU (regs d) (gp_regs d) (ep_regs d) (gp_dsp d) (ep_dsp d)
        m (ram_size d) (dirty d) (irq d) (frame_timer d).

Definition set_dirty (d : MCPXAPUState) (a n : Z) : MCPXAPUState :=
  mkAPU (regs d) (gp_regs d) (ep_regs d) (gp_dsp d) (ep_dsp d)
        (mem d) (ram_size d) (dirty d ++ [(a, n)]) (irq d) (frame_timer d).

Definition set_irq (d : MCPXAPUState) (l : bool) : MCPXAPUState :=
  mkAPU (regs d) (gp_regs d) (ep_regs d) (gp_dsp d) (ep_dsp d)
        (mem d) (ram_size d) (dirty d) l (frame_timer d).

Definition set_timer (d : MCPXAPUState) (t : option Z) : MCPXAPUState :=
  mkAPU (regs d) (gp_regs d) (ep_regs d) (gp_dsp d) (ep_dsp d)
        (mem d) (ram_size d) (dirty d) (irq d) t.

(** ** Guest memory: 32-bit little-endian accesses *)

Definition ldl_le_phys (m : Z -> Z) (a : Z) : Z :=
  m a mod 256
  + 256 * (m (a + 1) mod 256)
  + 65536 * (m (a + 2) mod 256)
  + 16777216 * (m (a + 3) mod 256).

Definition stl_le_phys (m : Z -> Z) (a v : Z) : Z -> Z :=
  upd (upd (upd (upd m a (v mod 256))
                (a + 1) (v / 256 mod 256))
           (a + 2) (v / 65536 mod 256))
      (a + 3) (v / 16777216 mod 256).

(** ** Voice records *)

(** The record of a voice starts at [VPVADDR + handle * NV_PAVS_SIZE]; both
    operands are 32-bit unsigned, so the sum wraps before it is widened to
    [hwaddr]. *)
Definition voice_addr (d : MCPXAPUState) (voice_handle : Z) : Z :=
  wrap32 (regs d NV_PAPU_VPVADDR + wrap32 (voice_handle * NV_PAVS_SIZE)).

Definition voice_get_mask (d : MCPXAPUState) (voice_handle offset mask : Z)
  : outcome Z :=
  _ <- assert (voice_handle <? 0xFFFF) A_voice_handle ;;
  let voice := voice_addr d voice_handle in
  Done (Z.shiftr (Z.land (ldl_le_phys (mem d) (voice + offset)) mask)
                 (ctz32 mask)).

Definition voice_set_mask (d : MCPXAPUState) (voice_handle offset mask val : Z)
  : outcome MCPXAPUState :=
  _ <- assert (voice_handle <? 0xFFFF) A_voice_handle ;;
  let voice := voice_addr d voice_handle in
  let v := Z.land (ldl_le_phys (mem d) (voice + offset)) (wrap32 (Z.lnot mask)) in
  Done (set_mem d (stl_le_phys (mem d) (voice + offset)
                     (Z.lor v (Z.land (wrap32 (Z.shiftl val (ctz32 mask))) mask)))).

(** ** Interrupt arbiter *)

(** [NV_PAPU_ISTS_GINTSTS] is an [int] constant, so [~NV_PAPU_ISTS_GINTSTS] is
    the [int] with every bit but bit 0 set; its conjunction with a 32-bit
    register is again a 32-bit value. *)
Definition update_irq (d : MCPXAPUState) : MCPXAPUState :=
  if negb (Z.land (regs d NV_PAPU_IEN) NV_PAPU_ISTS_GINTSTS =? 0)
     && negb (Z.land (Z.land (regs d NV_PAPU_ISTS)
                             (Z.lnot NV_PAPU_ISTS_GINTSTS))
                     (regs d NV_PAPU_IEN) =? 0)
  then
    set_irq (set_reg d NV_PAPU_ISTS
               (Z.lor (regs d NV_PAPU_ISTS) NV_PAPU_ISTS_GINTSTS)) true
  else
    set_irq (set_reg d NV_PAPU_ISTS
               (Z.land (regs d NV_PAPU_ISTS)
                       (Z.lnot NV_PAPU_ISTS_GINTSTS))) false.

(** ** Top-level register window *)

(** [now_ms] is the reading of the virtual clock, in milliseconds, at the time
    of the access. *)
Definition mcpx_apu_write (now_ms : Z) (d : MCPXAPUState) (addr val : Z)
  : MCPXAPUState :=
  if addr =? NV_PAPU_ISTS then
    update_irq (set_reg d NV_PAPU_ISTS
                  (wrap32 (Z.land (regs d NV_PAPU_ISTS) (Z.lnot val))))
  else if addr =? NV_PAPU_SECTL then
    let d1 :=
      if Z.shiftr (Z.land val NV_PAPU_SECTL_XCNTMODE) 3 =? NV_PAPU_SECTL_XCNTMODE_OFF
      then set_timer d None
      else set_timer d (Some (now_ms + 10)) in
    set_reg d1 addr (wrap32 val)
  else if addr =? NV_PAPU_FEMEMDATA then
    let d1 := set_mem d (stl_le_phys (mem d) (regs d NV_PAPU_FEMEMADDR) (wrap32 val)) in
    set_reg d1 addr (wrap32 val)
  else if addr <? 0x20000 then set_reg d addr (wrap32 val)
  else d.

Definition mcpx_apu_read (now_ns : Z) (d : MCPXAPUState) (addr : Z) : Z :=
  if addr =? 0x200C then now_ns / 100
  else if addr <? 0x20000 then regs d addr
  else 0.

(** ** Front-end method engine *)

Definition default_voice_list_reg : voice_list_reg :=
  {| vl_top := 0; vl_current := 0; vl_next := 0 |}.

Definition voice_list_reg_at (i : Z) : voice_list_reg :=
  nth (Z.to_nat i) voice_list_regs default_voice_list_reg.

(** The body of [case NV1BA0_PIO_VOICE_ON]. *)
Definition fe_voice_on (d : MCPXAPUState) (argument : Z) : outcome MCPXAPUState :=
  let selected_handle := Z.land argument NV1BA0_PIO_VOICE_ON_HANDLE in
  let list := GET_MASK (regs d NV_PAPU_FEAV) NV_PAPU_FEAV_LST in
  d1 <- (if negb (list =? NV1BA0_PIO_SET_ANTECEDENT_VOICE_LIST_INHERIT) then
           (* voice is added to the top of the selected list *)
           let top_reg := vl_top (voice_list_reg_at (list - 1)) in
           d' <- voice_set_mask d selected_handle
                   NV_PAVS_VOICE_TAR_PITCH_LINK
                   NV_PAVS_VOICE_TAR_PITCH_LINK_NEXT_VOICE_HANDLE
                   (regs d top_reg) ;;
           Done (set_reg d' top_reg selected_handle)
         else
           let antecedent_voice := GET_MASK (regs d NV_PAPU_FEAV) NV_PAPU_FEAV_VALUE in
           (* voice is added after the antecedent voice *)
           _ <- assert (negb (antecedent_voice =? 0xFFFF)) A_antecedent ;;
           next_handle <- voice_get_mask d antecedent_voice
                            NV_PAVS_VOICE_TAR_PITCH_LINK
                            NV_PAVS_VOICE_TAR_PITCH_LINK_NEXT_VOICE_HANDLE ;;
           d' <- voice_set_mask d selected_handle
                   NV_PAVS_VOICE_TAR_PITCH_LINK
                   NV_PAVS_VOICE_TAR_PITCH_LINK_NEXT_VOICE_HANDLE
                   next_handle ;;
           voice_set_mask d' antecedent_voice
             NV_PAVS_VOICE_TAR_PITCH_LINK
             NV_PAVS_VOICE_TAR_PITCH_LINK_NEXT_VOICE_HANDLE
             selected_handle) ;;
  voice_set_mask d1 selected_handle
    NV_PAVS_VOICE_PAR_STATE NV_PAVS_VOICE_PAR_STATE_ACTIVE_VOICE 1.

(** The body of [case SE2FE_IDLE_VOICE]. *)
Definition fe_idle_voice (d : MCPXAPUState) : outcome MCPXAPUState :=
  if negb (Z.land (regs d NV_PAPU_FETFORCE1) NV_PAPU_FETFORCE1_SE2FE_IDLE_VOICE =? 0)
  then
    let d1 := set_reg d NV_PAPU_FECTL
                (Z.land (regs d NV_PAPU_FECTL) (Z.lnot NV_PAPU_FECTL_FEMETHMODE)) in
    let d2 := set_reg d1 NV_PAPU_FECTL
                (Z.lor (regs d1 NV_PAPU_FECTL) NV_PAPU_FECTL_FEMETHMODE_TRAPPED) in
    let d3 := set_reg d2 NV_PAPU_FECTL
                (Z.land (regs d2 NV_PAPU_FECTL) (Z.lnot NV_PAPU_FECTL_FETRAPREASON)) in
    let d4 := set_reg d3 NV_PAPU_FECTL
                (Z.lor (regs d3 NV_PAPU_FECTL) NV_PAPU_FECTL_FETRAPREASON_REQUESTED) in
    let d5 := set_reg d4 NV_PAPU_ISTS
                (Z.lor (regs d4 NV_PAPU_ISTS) NV_PAPU_ISTS_FETINTSTS) in
    Done (update_irq d5)
  else Abort A_idle_voice_disabled.

Definition fe_method (d : MCPXAPUState) (method argument : Z)
  : outcome MCPXAPUState :=
  let d := set_reg d NV_PAPU_FEDECMETH method in
  let d := set_reg d NV_PAPU_FEDECPARAM argument in
  if method =? NV1BA0_PIO_SET_ANTECEDENT_VOICE then
    Done (set_reg d NV_PAPU_FEAV argument)
  else if method =? NV1BA0_PIO_VOICE_ON then
    fe_voice_on d argument
  else if method =? NV1BA0_PIO_VOICE_OFF then
    voice_set_mask d (Z.land argument NV1BA0_PIO_VOICE_OFF_HANDLE)
      NV_PAVS_VOICE_PAR_STATE NV_PAVS_VOICE_PAR_STATE_ACTIVE_VOICE 0
  else if method =? NV1BA0_PIO_VOICE_PAUSE then
    voice_set_mask d (Z.land argument NV1BA0_PIO_VOICE_PAUSE_HANDLE)
      NV_PAVS_VOICE_PAR_STATE NV_PAVS_VOICE_PAR_STATE_PAUSED
      (if negb (Z.land argument NV1BA0_PIO_VOICE_PAUSE_ACTION =? 0) then 1 else 0)
  else if method =? NV1BA0_PIO_SET_CURRENT_VOICE then
    Done (set_reg d NV_PAPU_FECV argument)
  else if method =? SE2FE_IDLE_VOICE then
    fe_idle_voice d
  else Abort A_unknown_method.

(** ** Voice Processor command window *)

Definition vp_read (addr : Z) : Z :=
  if addr =? NV1BA0_PIO_FREE then 0x80 else 0.

(** The method that [vp_write] hands to [fe_method] for a write at [addr], if
    any: the labels of its [switch]. *)
Definition vp_dispatch (addr : Z) : option Z :=
  if (addr =? NV1BA0_PIO_SET_ANTECEDENT_VOICE)
     || (addr =? NV1BA0_PIO_VOICE_ON)
     || (addr =? NV1BA0_PIO_VOICE_OFF)
     || (addr =? NV1BA0_PIO_VOICE_PAUSE)
     || (addr =? NV1BA0_PIO_SET_CURRENT_VOICE)
  then Some (wrap32 addr)
  else None.

Definition vp_write (d : MCPXAPUState) (addr val : Z) : outcome MCPXAPUState :=
  match vp_dispatch addr with
  | Some method => fe_method d method (wrap32 val)
  | None => Done d
  end.

(** ** Processor reset handshake *)

(** The calls [proc_rst_write] makes on the processor it is given. *)
Definition proc_rst_write (oldval val : Z) : list dsp_call :=
  if (Z.land val NV_PAPU_GPRST_GPRST =? 0)
     || (Z.land val NV_PAPU_GPRST_GPDSPRST =? 0)
  then [dsp_reset]
  else if ((Z.land oldval NV_PAPU_GPRST_GPRST =? 0)
           || (Z.land oldval NV_PAPU_GPRST_GPDSPRST =? 0))
          && (negb (Z.land val NV_PAPU_GPRST_GPRST =? 0)
              && negb (Z.land val NV_PAPU_GPRST_GPDSPRST =? 0))
  then [dsp_bootstrap]
  else [].

Definition bank_X : Z := 88.  (* 'X' *)
Definition bank_Y : Z := 89.  (* 'Y' *)
Definition bank_P : Z := 80.  (* 'P' *)

Definition in_range (addr lo words : Z) : bool :=
  (lo <=? addr) && (addr <=? lo + words * 4 - 1).

Definition gp_write (d : MCPXAPUState) (addr val size : Z)
  : outcome MCPXAPUState :=
  _ <- assert (size =? 4) A_size ;;
  _ <- assert (addr mod 4 =? 0) A_align ;;
  if in_range addr NV_PAPU_GPXMEM 0x1000 then
    Done (gp_call d [dsp_write_memory bank_X (wrap32 ((addr - NV_PAPU_GPXMEM) / 4)) (wrap32 val)])
  else if in_range addr NV_PAPU_GPMIXBUF 0x400 then
    Done (gp_call d [dsp_write_memory bank_X
                       (wrap32 (GP_DSP_MIXBUF_BASE + wrap32 ((addr - NV_PAPU_GPMIXBUF) / 4)))
                       (wrap32 val)])
  else if in_range addr NV_PAPU_GPYMEM 0x800 then
    Done (gp_call d [dsp_write_memory bank_Y (wrap32 ((addr - NV_PAPU_GPYMEM) / 4)) (wrap32 val)])
  else if in_range addr NV_PAPU_GPPMEM 0x1000 then
    Done (gp_call d [dsp_write_memory bank_P (wrap32 ((addr - NV_PAPU_GPPMEM) / 4)) (wrap32 val)])
  else if addr =? NV_PAPU_GPRST then
    let d1 := gp_call d (proc_rst_write (gp_regs d NV_PAPU_GPRST) (wrap32 val)) in
    Done (set_gp_reg d1 NV_PAPU_GPRST (wrap32 val))
  else Done (set_gp_reg d addr (wrap32 val)).

Definition ep_write (d : MCPXAPUState) (addr val size : Z)
  : outcome MCPXAPUState :=
  _ <- assert (size =? 4) A_size ;;
  _ <- assert (addr mod 4 =? 0) A_align ;;
  if in_range addr NV_PAPU_EPXMEM 0xC00 then
    Done (ep_call d [dsp_write_memory bank_X (wrap32 ((addr - NV_PAPU_EPXMEM) / 4)) (wrap32 val)])
  else if in_range addr NV_PAPU_EPYMEM 0x100 then
    Done (ep_call d [dsp_write_memory bank_Y (wrap32 ((addr - NV_PAPU_EPYMEM) / 4)) (wrap32 val)])
  else if in_range addr NV_PAPU_EPPMEM 0x1000 then
    Done (ep_call d [dsp_write_memory bank_P (wrap32 ((addr - NV_PAPU_EPPMEM) / 4)) (wrap32 val)])
  else if addr =? NV_PAPU_EPRST then
    let d1 := ep_call d (proc_rst_write (ep_regs d NV_PAPU_EPRST) (wrap32 val)) in
    Done (set_ep_reg d1 NV_PAPU_EPRST (wrap32 val))
  else Done (set_ep_reg d addr (wrap32 val)).

(** ** Frame scheduler *)

Definition mixbins_t : Type := list (list Z).

Definition zero_mixbins : mixbins_t :=
  repeat (repeat 0 NUM_SAMPLES_PER_FRAME) NUM_MIXBINS.

(** [process_voice] is an empty stub in the source. *)
Definition process_voice (d : MCPXAPUState) (mixbins : mixbins_t) (voice : Z)
  : mixbins_t := mixbins.

(** The inner [while] loop of [se_frame] for the list whose iterator registers
    are [current] and [next]; [fuel] bounds the number of iterations. *)
Fixpoint voice_list_loop (fuel : nat) (d : MCPXAPUState) (mixbins : mixbins_t)
    (current next : Z) : outcome (MCPXAPUState * mixbins_t) :=
  match fuel with
  | O => Diverge
  | S fuel' =>
    if negb (regs d current =? 0xFFFF) then
      n <- voice_get_mask d (regs d current)
             NV_PAVS_VOICE_TAR_PITCH_LINK
             NV_PAVS_VOICE_TAR_PITCH_LINK_NEXT_VOICE_HANDLE ;;
      let d1 := set_reg d next n in
      a <- voice_get_mask d1 (regs d1 current)
             NV_PAVS_VOICE_PAR_STATE NV_PAVS_VOICE_PAR_STATE_ACTIVE_VOICE ;;
      r <- (if a =? 0
            then d' <- fe_method d1 SE2FE_IDLE_VOICE (regs d1 current) ;;
                 Done (d', mixbins)
            else Done (d1, process_voice d1 mixbins (regs d1 current))) ;;
      let d2 := fst r in
      voice_list_loop fuel' (set_reg d2 current (regs d2 next)) (snd r) current next
    else Done (d, mixbins)
  end.

(** The [for (list = 0; list < 3; list++)] loop over [voice_list_regs]. *)
Fixpoint voice_lists (fuel : nat) (ls : list voice_list_reg) (d : MCPXAPUState)
    (mixbins : mixbins_t) : outcome (MCPXAPUState * mixbins_t) :=
  match ls with
  | [] => Done (d, mixbins)
  | l :: ls' =>
    let d1 := set_reg d (vl_current l) (regs d (vl_top l)) in
    r <- voice_list_loop fuel d1 mixbins (vl_current l) (vl_next l) ;;
    voice_lists fuel ls' (fst r) (snd r)
  end.

(** The writes that publish the mix into GP X-memory, in source order. *)
Definition mixbuf_writes (mixbins : mixbins_t) : list dsp_call :=
  flat_map (fun mixbin =>
    map (fun sample =>
           dsp_write_memory bank_X
             (GP_DSP_MIXBUF_BASE + Z.of_nat mixbin * 0x20 + Z.of_nat sample)
             (Z.land (nth sample (nth mixbin mixbins []) 0) 0xFFFFFF))
        (seq 0 NUM_SAMPLES_PER_FRAME))
    (seq 0 NUM_MIXBINS).

(** The "Kickoff DSP processing" tail of [se_frame]. *)
Definition se_kickoff (d : MCPXAPUState) : MCPXAPUState :=
  let d1 :=
    if negb (Z.land (gp_regs d NV_PAPU_GPRST) NV_PAPU_GPRST_GPRST =? 0)
       && negb (Z.land (gp_regs d NV_PAPU_GPRST) NV_PAPU_GPRST_GPDSPRST =? 0)
    then gp_call (gp_call d [dsp_start_frame]) [dsp_run 1000]
    else d in
  if negb (Z.land (ep_regs d1 NV_PAPU_EPRST) NV_PAPU_GPRST_GPRST =? 0)
     && negb (Z.land (ep_regs d1 NV_PAPU_EPRST) NV_PAPU_GPRST_GPDSPRST =? 0)
  then ep_call d1 [dsp_start_frame]
  else d1.

Definition se_frame (fuel : nat) (now_ms : Z) (d : MCPXAPUState)
  : outcome MCPXAPUState :=
  let d0 := set_timer d (Some (now_ms + 10)) in
  r <- voice_lists fuel voice_list_regs d0 zero_mixbins ;;
  let d1 := gp_call (fst r) (mixbuf_writes (snd r)) in
  Done (se_kickoff d1).

(** ** Scatter/gather DMA *)

(** [memcpy] between a caller buffer and guest RAM.  A buffer is the list of
    the bytes found from the caller's pointer onwards. *)
Definition ram_store (m : Z -> Z) (paddr : Z) (bs : list Z) : Z -> Z :=
  fun x =>
    if (paddr <=? x) && (x <? paddr + Z.of_nat (length bs))
    then nth (Z.to_nat (x - paddr)) bs 0
    else m x.

Definition ram_load (m : Z -> Z) (paddr : Z) (n : nat) : list Z :=
  map (fun i => m (paddr + Z.of_nat i)) (seq 0 n).

Section DMA.

(** The page size of the emulated target, [TARGET_PAGE_SIZE], is fixed per
    build by a header outside the sources at hand; it is a parameter here. *)
Variable TARGET_PAGE_SIZE : Z.

(** The [while] loop of [scatter_gather_rw].  [buf] is the caller's buffer
    from [ptr] onwards; the result carries the buffer as the transfer leaves
    it.  With [dir = true] the buffer is written to the guest, with
    [dir = false] it is filled from the guest. *)
Fixpoint sg_loop (fuel : nat) (d : MCPXAPUState) (sge_base max_sge : Z)
    (buf : list Z) (page_entry offset_in_page bytes_to_copy len : Z)
    (dir : bool) : outcome (MCPXAPUState * list Z) :=
  match fuel with
  | O => Diverge
  | S fuel' =>
    if len >? 0 then
      _ <- assert (page_entry <=? max_sge) A_max_sge ;;
      let prd_address :=
        ldl_le_phys (mem d) (sge_base + wrap32 (page_entry * 8) + 0) in
      let paddr := wrap32 (prd_address + offset_in_page) in
      let bytes_to_copy := if bytes_to_copy >? len then len else bytes_to_copy in
      _ <- assert (paddr + bytes_to_copy <? ram_size d) A_ram_bound ;;
      let n := Z.to_nat bytes_to_copy in
      let d1 :=
        if dir
        then set_dirty (set_mem d (ram_store (mem d) paddr (firstn n buf)))
                       paddr bytes_to_copy
        else d in
      let chunk := if dir then firstn n buf else ram_load (mem d) paddr n in
      r <- sg_loop fuel' d1 sge_base max_sge (skipn n buf)
             (wrap32 (page_entry + 1)) 0 TARGET_PAGE_SIZE
             (len - bytes_to_copy) dir ;;
      Done (fst r, chunk ++ snd r)
    else Done (d, buf)
  end.

(** Every iteration moves at least one byte, so [len] iterations and the final
    test exhaust the loop. *)
Definition scatter_gather_rw (d : MCPXAPUState) (sge_base max_sge : Z)
    (buf : list Z) (addr len : Z) (dir : bool)
  : outcome (MCPXAPUState * list Z) :=
  let page_entry := addr / TARGET_PAGE_SIZE in
  let offset_in_page := addr mod TARGET_PAGE_SIZE in
  let bytes_to_copy := TARGET_PAGE_SIZE - offset_in_page in
  sg_loop (S (Z.to_nat len)) d sge_base max_sge buf
          page_entry offset_in_page bytes_to_copy len dir.

(** The [while] loop of [circular_scatter_gather_rw]; the result is the
    device, the buffer as the transfer leaves it, and the returned [cur]. *)
Fixpoint csg_loop (fuel : nat) (d : MCPXAPUState) (sge_base max_sge : Z)
    (buf : list Z) (base end_ cur len : Z) (dir : bool)
  : outcome (MCPXAPUState * list Z * Z) :=
  match fuel with
  | O => Diverge
  | S fuel' =>
    if len >? 0 then
      let bytes_to_copy := wrap32 (end_ - cur) in
      let bytes_to_copy := if bytes_to_copy >? len then len else bytes_to_copy in
      _ <- assert ((cur >=? base) && (wrap32 (cur + bytes_to_copy) <=? end_))
                  A_window ;;
      r <- scatter_gather_rw d sge_base max_sge buf cur bytes_to_copy dir ;;
      let n := Z.to_nat bytes_to_copy in
      let len' := len - bytes_to_copy in
      (* After the first iteration we might have to wrap *)
      let cur' := wrap32 (cur + bytes_to_copy) in
      cur'' <- (if cur' >=? end_
                then _ <- assert (cur' =? end_) A_wrap ;; Done base
                else Done cur') ;;
      r' <- csg_loop fuel' (fst r) sge_base max_sge (skipn n (snd r))
              base end_ cur'' len' dir ;;
      Done (fst (fst r'), firstn n (snd r) ++ snd (fst r'), snd r')
    else Done (d, buf, cur)
  end.

(** At most one iteration moves no byte without the loop being stuck for
    ever (the one that finds [cur = end] and wraps), so a run that exhausts
    [len + 2] iterations never ends. *)
Definition circular_scatter_gather_rw (d : MCPXAPUState) (sge_base max_sge : Z)
    (buf : list Z) (base end_ cur len : Z) (dir : bool)
  : outcome (MCPXAPUState * list Z * Z) :=
  csg_loop (S (S (Z.to_nat len))) d sge_base max_sge buf base end_ cur len dir.

Definition gp_fifo_rw (d : MCPXAPUState) (buf : list Z) (index len : Z)
    (dir : bool) : outcome (MCPXAPUState * list Z) :=
  sel <- (if dir then
            _ <- assert (index <? GP_OUTPUT_FIFO_COUNT) A_fifo_index ;;
            Done (GET_MASK (regs d (NV_PAPU_GPOFBASE0 + 0x10 * index))
                           NV_PAPU_GPOFBASE0_VALUE,
                  GET_MASK (regs d (NV_PAPU_GPOFEND0 + 0x10 * index))
                           NV_PAPU_GPOFEND0_VALUE,
                  NV_PAPU_GPOFCUR0 + 0x10 * index)
          else
            _ <- assert (index <? GP_INPUT_FIFO_COUNT) A_fifo_index ;;
            Done (GET_MASK (regs d (NV_PAPU_GPIFBASE0 + 0x10 * index))
                           NV_PAPU_GPOFBASE0_VALUE,
                  GET_MASK (regs d (NV_PAPU_GPIFEND0 + 0x10 * index))
                           NV_PAPU_GPOFEND0_VALUE,
                  NV_PAPU_GPIFCUR0 + 0x10 * index)) ;;
  let base := fst (fst sel) in
  let end_ := snd (fst sel) in
  let cur_reg := snd sel in
  let cur := GET_MASK (regs d cur_reg) NV_PAPU_GPOFCUR0_VALUE in
  (* DSP hangs if current >= end; but forces current >= base *)
  _ <- assert (cur <? end_) A_fifo_cur ;;
  let cur := if cur <? base then base else cur in
  r <- circular_scatter_gather_rw d (regs d NV_PAPU_GPFADDR)
         (regs d NV_PAPU_GPFMAXSGE) buf base end_ cur len dir ;;
  let d1 := fst (fst r) in
  Done (set_reg d1 cur_reg
          (SET_MASK (regs d1 cur_reg) NV_PAPU_GPOFCUR0_VALUE (snd r)),
        snd (fst r)).

End DMA.


(** ** Remaining registers and callbacks *)

Definition NV_PAPU_XGSCNT : Z := 0x200C.
Definition NV_PAPU_GPSADDR : Z := 0x2040.
Definition NV_PAPU_EPSADDR : Z := 0x2048.
Definition NV_PAPU_GPSMAXSGE : Z := 0x20D4.
Definition NV_PAPU_EPSMAXSGE : Z := 0x20DC.
Definition NV_PAPU_EPOFBASE0 : Z := 0x4024.
Definition NV_PAPU_EPOFEND0 : Z := 0x4028.
Definition NV_PAPU_EPOFCUR0 : Z := 0x402C.
Definition NV_PAPU_EPIFBASE0 : Z := 0x4064.
Definition NV_PAPU_EPIFEND0 : Z := 0x4068.
Definition NV_PAPU_EPIFCUR0 : Z := 0x406C.
Definition EP_OUTPUT_FIFO_COUNT : Z := 4.
Definition EP_INPUT_FIFO_COUNT : Z := 2.

(** [gp_read] and [ep_read].  What [dsp_read_memory] answers for a bank and a
    word address is up to the processor object; it is the parameter
    [dsp_read_memory] here. *)
Definition gp_read (dsp_read_memory : Z -> Z -> Z) (d : MCPXAPUState)
    (addr size : Z) : outcome Z :=
  _ <- assert (size =? 4) A_size ;;
  _ <- assert (addr mod 4 =? 0) A_align ;;
  if in_range addr NV_PAPU_GPXMEM 0x1000 then
    Done (dsp_read_memory bank_X (wrap32 ((addr - NV_PAPU_GPXMEM) / 4)))
  else if in_range addr NV_PAPU_GPMIXBUF 0x400 then
    Done (dsp_read_memory bank_X
            (wrap32 (GP_DSP_MIXBUF_BASE + wrap32 ((addr - NV_PAPU_GPMIXBUF) / 4))))
  else if in_range addr NV_PAPU_GPYMEM 0x800 then
    Done (dsp_read_memory bank_Y (wrap32 ((addr - NV_PAPU_GPYMEM) / 4)))
  else if in_range addr NV_PAPU_GPPMEM 0x1000 then
    Done (dsp_read_memory bank_P (wrap32 ((addr - NV_PAPU_GPPMEM) / 4)))
  else Done (gp_regs d addr).

Definition ep_read (dsp_read_memory : Z -> Z -> Z) (d : MCPXAPUState)
    (addr size : Z) : outcome Z :=
  _ <- assert (size =? 4) A_size ;;
  _ <- assert (addr mod 4 =? 0) A_align ;;
  if in_range addr NV_PAPU_EPXMEM 0xC00 then
    Done (dsp_read_memory bank_X (wrap32 ((addr - NV_PAPU_EPXMEM) / 4)))
  else if in_range addr NV_PAPU_EPYMEM 0x100 then
    Done (dsp_read_memory bank_Y (wrap32 ((addr - NV_PAPU_EPYMEM) / 4)))
  else if in_range addr NV_PAPU_EPPMEM 0x1000 then
    Done (dsp_read_memory bank_P (wrap32 ((addr - NV_PAPU_EPPMEM) / 4)))
  else Done (ep_regs d addr).

Section DMA_callbacks.

Variable TARGET_PAGE_SIZE : Z.

Definition gp_scratch_rw (d : MCPXAPUState) (buf : list Z) (addr len : Z)
    (dir : bool) : outcome (MCPXAPUState * list Z) :=
  scatter_gather_rw TARGET_PAGE_SIZE d
    (regs d NV_PAPU_GPSADDR) (regs d NV_PAPU_GPSMAXSGE) buf addr len dir.

Definition ep_scratch_rw (d : MCPXAPUState) (buf : list Z) (addr len : Z)
    (dir : bool) : outcome (MCPXAPUState * list Z) :=
  scatter_gather_rw TARGET_PAGE_SIZE d
    (regs d NV_PAPU_EPSADDR) (regs d NV_PAPU_EPSMAXSGE) buf addr len dir.

Definition ep_fifo_rw (d : MCPXAPUState) (buf : list Z) (index len : Z)
    (dir : bool) : outcome (MCPXAPUState * list Z) :=
  sel <- (if dir then
            _ <- assert (index <? EP_OUTPUT_FIFO_COUNT) A_fifo_index ;;
            Done (GET_MASK (regs d (NV_PAPU_EPOFBASE0 + 0x10 * index))
                           NV_PAPU_GPOFBASE0_VALUE,
                  GET_MASK (regs d (NV_PAPU_EPOFEND0 + 0x10 * index))
                           NV_PAPU_GPOFEND0_VALUE,
                  NV_PAPU_EPOFCUR0 + 0x10 * index)
          else
            _ <- assert (index <? EP_INPUT_FIFO_COUNT) A_fifo_index ;;
            Done (GET_MASK (regs d (NV_PAPU_EPIFBASE0 + 0x10 * index))
                           NV_PAPU_GPOFBASE0_VALUE,
                  GET_MASK (regs d (NV_PAPU_EPIFEND0 + 0x10 * index))
                           NV_PAPU_GPOFEND0_VALUE,
                  NV_PAPU_EPIFCUR0 + 0x10 * index)) ;;
  let base := fst (fst sel) in
  let end_ := snd (fst sel) in
  let cur_reg := snd sel in
  let cur := GET_MASK (regs d cur_reg) NV_PAPU_GPOFCUR0_VALUE in
  (* DSP hangs if current >= end; but forces current >= base *)
  _ <- assert (cur <? end_) A_fifo_cur ;;
  let cur := if cur <? base then base else cur in
  r <- circular_scatter_gather_rw TARGET_PAGE_SIZE d (regs d NV_PAPU_EPFADDR)
         (regs d NV_PAPU_EPFMAXSGE) buf base end_ cur len dir ;;
  let d1 := fst (fst r) in
  Done (set_reg d1 cur_reg
          (SET_MASK (regs d1 cur_reg) NV_PAPU_GPOFCUR0_VALUE (snd r)),
        snd (fst r)).

End DMA_callbacks.
(** ** Vocabulary of the specification *)

(** The arbiter rule of the specification: the line and [ISTS.GINTSTS] are
    raised exactly when [IEN.GINTSTS] is set and some other status bit is
    enabled. *)
Definition arbiter_condition (d : MCPXAPUState) : bool :=
  negb (Z.land (regs d NV_PAPU_IEN) NV_PAPU_ISTS_GINTSTS =? 0)
  && negb (Z.land (Z.land (regs d NV_PAPU_ISTS) (Z.lnot NV_PAPU_ISTS_GINTSTS))
                  (regs d NV_PAPU_IEN) =? 0).

Definition arbiter_ok (d : MCPXAPUState) : bool :=
  if arbiter_condition d
  then Z.testbit (regs d NV_PAPU_ISTS) 0 && irq d
  else negb (Z.testbit (regs d NV_PAPU_ISTS) 0) && negb (irq d).

Definition arbiter_rule (d : MCPXAPUState) : Prop := arbiter_ok d = true.

(** Both [GPRST] and [GPDSPRST] are set in a reset register value. *)
Definition both_reset_bits (v : Z) : bool := Z.testbit v 0 && Z.testbit v 1.

Definition is_bootstrap (c : dsp_call) : bool :=
  match c with dsp_bootstrap => true | _ => false end.

Definition count_calls (p : dsp_call -> bool) (l : list dsp_call) : nat :=
  length (filter p l).

(** The next-link field and the Active bit of a voice record, and the head
    register of list [l] (1 = 2D, 2 = 3D, 3 = MP). *)
Definition next_link (d : MCPXAPUState) (h : Z) : outcome Z :=
  voice_get_mask d h NV_PAVS_VOICE_TAR_PITCH_LINK
                 NV_PAVS_VOICE_TAR_PITCH_LINK_NEXT_VOICE_HANDLE.

Definition voice_active (d : MCPXAPUState) (h : Z) : outcome Z :=
  voice_get_mask d h NV_PAVS_VOICE_PAR_STATE
                 NV_PAVS_VOICE_PAR_STATE_ACTIVE_VOICE.

Definition TOP (d : MCPXAPUState) (l : Z) : Z :=
  regs d (vl_top (voice_list_reg_at (l - 1))).

(** The position [len] bytes after [cur] in the circular window
    [[base, end_)]. *)
Definition ring_advance (base end_ cur len : Z) : Z :=
  base + (cur - base + len) mod (end_ - base).

(** A device whose registers, memory and logs are all empty. *)
Definition blank_device : MCPXAPUState :=
  mkAPU (fun _ => 0) (fun _ => 0) (fun _ => 0) [] []
        (fun _ => 0) 0x4000000 [] false None.

(** The registers and the interrupt line a state carries, apart from its
    guest memory. *)
Definition same_regs_but (d d' : MCPXAPUState) (touched : list Z) : Prop :=
  (forall a, ~ In a touched -> regs d' a = regs d a)
  /\ gp_regs d' = gp_regs d /\ ep_regs d' = ep_regs d
  /\ gp_dsp d' = gp_dsp d /\ ep_dsp d' = ep_dsp d
  /\ irq d' = irq d /\ frame_timer d' = frame_timer d
  /\ ram_size d' = ram_size d /\ dirty d' = dirty d.

(** The processor-side components of the device: reset registers and call
    logs. *)
Definition same_processors (d d' : MCPXAPUState) : Prop :=
  gp_regs d' = gp_regs d /\ ep_regs d' = ep_regs d
  /\ gp_dsp d' = gp_dsp d /\ ep_dsp d' = ep_dsp d.

(** The linear primitive stops only on one of its own two assertions. *)
Definition sg_outcome_ok {A : Type} (r : outcome A) : Prop :=
  match r with
  | Done _ => True
  | Abort w => w = A_max_sge \/ w = A_ram_bound
  | Diverge => False
  end.

(** Entry [p] of the scatter/gather table at [sge_base], as [scatter_gather_rw]
    reads it, and the table pages that serve the window [[base, end_)]. *)
Definition sge_entry (m : Z -> Z) (sge_base p : Z) : Z :=
  ldl_le_phys m (sge_base + wrap32 (p * 8) + 0).

Definition window_page (P base end_ p : Z) : Prop :=
  base / P <= p <= (end_ - 1) / P.

(** A table [E] that serves the window soundly: RAM fits a 32-bit physical
    address, every page of the window is within [max_sge] and lies in RAM,
    distinct pages of the window are mapped to disjoint physical pages, and
    no physical page of the window holds a table entry of the window. *)
Definition sg_table_wf (P rs sge_base max_sge base end_ : Z) (E : Z -> Z) : Prop :=
  rs <= 2 ^ 32
  /\ (forall p, window_page P base end_ p ->
        p <= max_sge /\ 0 <= E p /\ E p + P < rs)
  /\ (forall p q, window_page P base end_ p -> window_page P base end_ q ->
        p <> q -> E p + P <= E q \/ E q + P <= E p)
  /\ (forall p q, window_page P base end_ p -> window_page P base end_ q ->
        sge_base + wrap32 (p * 8) + 4 <= E q
        \/ E q + P <= sge_base + wrap32 (p * 8)).

Definition sg_window_wf (P : Z) (d : MCPXAPUState)
    (sge_base max_sge base end_ : Z) : Prop :=
  sg_table_wf P (ram_size d) sge_base max_sge base end_
              (sge_entry (mem d) sge_base).

(** The device's table agrees with [E] on the pages of the window. *)
Definition sg_table_is (P : Z) (d : MCPXAPUState) (rs sge_base base end_ : Z)
    (E : Z -> Z) : Prop :=
  ram_size d = rs
  /\ forall p, window_page P base end_ p -> sge_entry (mem d) sge_base p = E p.

(** The physical address of logical address [a] under table [E], and the
    [k] bytes found from logical address [a] onwards. *)
Definition sg_phys (P : Z) (E : Z -> Z) (a : Z) : Z := E (a / P) + a mod P.

Definition sg_load (P : Z) (E : Z -> Z) (m : Z -> Z) (a : Z) (k : nat) : list Z :=
  map (fun i => m (sg_phys P E (a + Z.of_nat i))) (seq 0 k).

(** What it takes of a table [E] to serve the window [[base, end_)], byte by
    byte: every address of the window lies in a page within [max_sge]; its
    physical address fits 32 bits, as the code adds entry and offset in 32
    bits; it is followed by at least one more byte of RAM, as the bound the
    code asserts on the end of a chunk is strict; distinct addresses of the
    window have distinct physical addresses; and no physical address of the
    window is one of the four bytes of the table entry of a page of the
    window. *)
Definition sg_pages_within (P max_sge base end_ : Z) : Prop :=
  forall a, base <= a < end_ -> a / P <= max_sge.

Definition sg_fits32 (P base end_ : Z) (E : Z -> Z) : Prop :=
  forall a, base <= a < end_ -> sg_phys P E a < 2 ^ 32.

Definition sg_below_ram (P rs base end_ : Z) (E : Z -> Z) : Prop :=
  forall a, base <= a < end_ -> sg_phys P E a + 1 < rs.

Definition sg_injective (P base end_ : Z) (E : Z -> Z) : Prop :=
  forall a b, base <= a < end_ -> base <= b < end_ -> a <> b ->
    sg_phys P E a <> sg_phys P E b.

Definition sg_table_apart (P sge_base base end_ : Z) (E : Z -> Z) : Prop :=
  forall a p j, base <= a < end_ -> window_page P base end_ p -> 0 <= j < 4 ->
    sg_phys P E a <> sge_base + wrap32 (p * 8) + j.

(** A table that serves the window: the five conditions together. *)
Definition sg_table_ok (P rs sge_base max_sge base end_ : Z) (E : Z -> Z) : Prop :=
  sg_pages_within P max_sge base end_
  /\ sg_fits32 P base end_ E
  /\ sg_below_ram P rs base end_ E
  /\ sg_injective P base end_ E
  /\ sg_table_apart P sge_base base end_ E.

Definition sg_window_ok (P : Z) (d : MCPXAPUState)
    (sge_base max_sge base end_ : Z) : Prop :=
  sg_table_ok P (ram_size d) sge_base max_sge base end_
              (sge_entry (mem d) sge_base).

(** A voice list the scheduler can walk: [n] links lead from handle [h] to
    the end marker [0xFFFF], through records of valid handles whose voice is
    active or, failing that, with the idle-voice trap enabled. *)
Fixpoint voice_chain (d : MCPXAPUState) (n : nat) (h : Z) : Prop :=
  match n with
  | O => h = 0xFFFF
  | S k =>
    match next_link d h, voice_active d h with
    | Done nxt, Done act =>
        (act <> 0 \/ Z.testbit (regs d NV_PAPU_FETFORCE1) 15 = true)
        /\ voice_chain d k nxt
    | _, _ => False
    end
  end.

(** Two devices that show the scheduler the same voice records. *)
Definition same_voices (d d' : MCPXAPUState) : Prop :=
  mem d' = mem d
  /\ regs d' NV_PAPU_VPVADDR = regs d NV_PAPU_VPVADDR
  /\ regs d' NV_PAPU_FETFORCE1 = regs d NV_PAPU_FETFORCE1.

(** Registers that can serve as list iterators without disturbing the
    traversal, and the registers the idle-voice trap writes. *)
Definition iterator_reg (a : Z) : Prop :=
  ~ In a [NV_PAPU_VPVADDR; NV_PAPU_FETFORCE1; NV_PAPU_FEDECMETH;
          NV_PAPU_FEDECPARAM; NV_PAPU_FECTL; NV_PAPU_ISTS].

Definition trap_reg (a : Z) : Prop :=
  In a [NV_PAPU_FEDECMETH; NV_PAPU_FEDECPARAM; NV_PAPU_FECTL; NV_PAPU_ISTS].

(** ** Concrete devices used to exercise the statements *)

(** [FETINTSTS] is pending, nothing is enabled, the line is low. *)
Definition ien_pending_device : MCPXAPUState :=
  set_reg blank_device NV_PAPU_ISTS NV_PAPU_ISTS_FETINTSTS.

(** Scenario S5: [ISTS = 0x11]. *)
Definition w1c_device : MCPXAPUState := set_reg blank_device NV_PAPU_ISTS 0x11.

(** The GP reset register already holds both reset bits. *)
Definition rst_held_device : MCPXAPUState := set_gp_reg blank_device NV_PAPU_GPRST 3.

(** [FEAV] selects the top of the 2D list, whose head register holds a value
    wider than a handle. *)
Definition voice_top_wide_device : MCPXAPUState :=
  set_reg (set_reg blank_device NV_PAPU_FEAV 0x10000) NV_PAPU_TVL2D 0x10005.

(** [FEAV] selects the top of the 3D list, which is empty. *)
Definition voice_top_empty_device : MCPXAPUState :=
  set_reg (set_reg blank_device NV_PAPU_FEAV 0x20000) NV_PAPU_TVL3D 0xFFFF.

(** [FEAV] selects inherit with antecedent 5; voice 5 ends its list. *)
Definition voice_inherit_device : MCPXAPUState :=
  set_mem (set_reg blank_device NV_PAPU_FEAV 5)
          (stl_le_phys (fun _ => 0) (5 * 0x80 + 0x7C) 0xFFFF).

(** Scenario S6: 32 bytes of pattern. *)
Definition pattern : list Z := map Z.of_nat (seq 1 32).

(** A four-byte window receiving eight bytes. *)
Definition pattern8 : list Z := [1; 2; 3; 4; 5; 6; 7; 8].

(** Scenario S4 at the start of a tick: voice 5 is active and alone on the 2D
    list, voice 9 is inactive and alone on the 3D list with the idle-voice
    trap enabled, the MP list is empty; both processors are released from
    reset. *)
Definition frame_busy_device : MCPXAPUState :=
  set_mem
    (set_ep_reg
       (set_gp_reg
          (set_reg
             (set_reg (set_reg (set_reg blank_device NV_PAPU_TVL2D 5)
                               NV_PAPU_TVL3D 9)
                      NV_PAPU_TVLMP 0xFFFF)
             NV_PAPU_FETFORCE1 NV_PAPU_FETFORCE1_SE2FE_IDLE_VOICE)
          NV_PAPU_GPRST 3)
       NV_PAPU_EPRST 3)
    (stl_le_phys
       (stl_le_phys
          (stl_le_phys (fun _ => 0)
             (5 * 0x80 + NV_PAVS_VOICE_TAR_PITCH_LINK) 0xFFFF)
          (5 * 0x80 + NV_PAVS_VOICE_PAR_STATE) NV_PAVS_VOICE_PAR_STATE_ACTIVE_VOICE)
       (9 * 0x80 + NV_PAVS_VOICE_TAR_PITCH_LINK) 0xFFFF).


(** A circular write of [data] followed by a circular read into [buf0] with
    the same window, cursor and length; the result is the bytes read, the
    cursor the write returned and the cursor the read returned. *)
Definition round_trip (P : Z) (d : MCPXAPUState) (sge_base max_sge : Z)
    (data buf0 : list Z) (base end_ cur n : Z) : outcome (list Z * Z * Z) :=
  w <- circular_scatter_gather_rw P d sge_base max_sge data base end_ cur n true ;;
  r <- circular_scatter_gather_rw P (fst (fst w)) sge_base max_sge buf0
         base end_ cur n false ;;
  Done (snd (fst r), snd w, snd r).

(** ** Tables that do not serve their window *)

(** Page 0 is mapped to the last page of RAM. *)
Definition sg_last_page_device : MCPXAPUState :=
  set_mem blank_device (stl_le_phys (fun _ => 0) 0x8000 0x3FFF000).

(** Page 1 is mapped four bytes below physical address 0x1000, onto the end
    of the physical page of page 0. *)
Definition sg_alias_device : MCPXAPUState :=
  set_mem blank_device (stl_le_phys (fun _ => 0) 0x8008 0xFFC).

(** Page 0 is mapped so that logical address 0x100 is the table entry of
    page 0 itself. *)
Definition sg_table_hit_device : MCPXAPUState :=
  set_mem blank_device (stl_le_phys (fun _ => 0) 0x8000 0x7F00).

(** RAM reaches beyond 4 GiB; page 0 is mapped 0x100 bytes below 4 GiB and
    page 1 at 0xEFC. *)
Definition sg_wide_ram_device : MCPXAPUState :=
  mkAPU (fun _ => 0) (fun _ => 0) (fun _ => 0) [] []
        (stl_le_phys (stl_le_phys (fun _ => 0) 0x8000 0xFFFFFF00) 0x8008 0xEFC)
        (2 ^ 32 + 0x10000) [] false None.

(** ** Further vocabulary *)

(** The method codes [fe_method] has a case for. *)
Definition fe_known_method (m : Z) : bool :=
  (m =? NV1BA0_PIO_SET_ANTECEDENT_VOICE) || (m =? NV1BA0_PIO_VOICE_ON)
  || (m =? NV1BA0_PIO_VOICE_OFF) || (m =? NV1BA0_PIO_VOICE_PAUSE)
  || (m =? NV1BA0_PIO_SET_CURRENT_VOICE) || (m =? SE2FE_IDLE_VOICE).

(** The Paused bit of a voice record. *)
Definition voice_paused (d : MCPXAPUState) (h : Z) : outcome Z :=
  voice_get_mask d h NV_PAVS_VOICE_PAR_STATE NV_PAVS_VOICE_PAR_STATE_PAUSED.

(** Handle [h] is none of the first [n] voices reached from [start]. *)
Fixpoint chain_avoids (d : MCPXAPUState) (n : nat) (start h : Z) : Prop :=
  match n with
  | O => True
  | S k =>
    start <> h
    /\ match next_link d start with
       | Done nxt => chain_avoids d k nxt h
       | _ => True
       end
  end.

(** The registers a frame tick may write, beside the timer. *)
Definition tick_regs : list Z :=
  [NV_PAPU_CVL2D; NV_PAPU_NVL2D; NV_PAPU_CVL3D; NV_PAPU_NVL3D;
   NV_PAPU_CVLMP; NV_PAPU_NVLMP;
   NV_PAPU_FEDECMETH; NV_PAPU_FEDECPARAM; NV_PAPU_FECTL; NV_PAPU_ISTS].


(** Two devices that differ at most in guest memory and its dirty log. *)
Definition same_but_ram (d d' : MCPXAPUState) : Prop :=
  regs d' = regs d /\ gp_regs d' = gp_regs d /\ ep_regs d' = ep_regs d
  /\ gp_dsp d' = gp_dsp d /\ ep_dsp d' = ep_dsp d
  /\ irq d' = irq d /\ frame_timer d' = frame_timer d
  /\ ram_size d' = ram_size d.

(** The ranges [new] were marked dirty between [d] and [d']: they extend the
    dirty log, each ends below the end of RAM, and every byte of guest memory
    that changed lies in one of them. *)
Definition dirty_covers (d d' : MCPXAPUState) (new : list (Z * Z)) : Prop :=
  dirty d' = dirty d ++ new
  /\ Forall (fun p => fst p + snd p < ram_size d) new
  /\ forall x, mem d' x <> mem d x ->
               Exists (fun p => fst p <= x < fst p + snd p) new.

Definition dirty_total (new : list (Z * Z)) : Z :=
  fold_right Z.add 0 (map snd new).

(** GP output FIFO 0 is the window [[0x100, 0x140)] with its cursor at 0x130;
    the FIFO table at 0x8000 maps page 0 to physical page 0. *)
Definition fifo_device : MCPXAPUState :=
  set_reg
    (set_reg
       (set_reg (set_reg blank_device NV_PAPU_GPFADDR 0x8000)
                NV_PAPU_GPOFBASE0 0x10000)
       NV_PAPU_GPOFEND0 0x14000)
    NV_PAPU_GPOFCUR0 0x4C0.

(** GP output FIFO 0 with an empty window: base and end are both 0x100, the
    cursor is 0. *)
Definition fifo_empty_device : MCPXAPUState :=
  set_reg (set_reg blank_device NV_PAPU_GPOFBASE0 0x10000)
          NV_PAPU_GPOFEND0 0x10000.

(** EP input FIFO 1 is the window [[0x200, 0x240)] with its cursor at 0x23C;
    the FIFO table at 0x8000 maps page 0 to physical page 0. *)
Definition ep_fifo_device : MCPXAPUState :=
  set_reg
    (set_reg
       (set_reg (set_reg blank_device NV_PAPU_EPFADDR 0x8000)
                (NV_PAPU_EPIFBASE0 + 0x10) 0x20000)
       (NV_PAPU_EPIFEND0 + 0x10) 0x24000)
    (NV_PAPU_EPIFCUR0 + 0x10) 0x8F0.

(** The GP scratch table at 0x8000 maps page 0 to physical page 0. *)
Definition scratch_device : MCPXAPUState :=
  set_reg blank_device NV_PAPU_GPSADDR 0x8000.

(** Addresses of the GP and EP apertures that reach processor memory. *)
Definition gp_window (addr : Z) : bool :=
  in_range addr NV_PAPU_GPXMEM 0x1000 || in_range addr NV_PAPU_GPMIXBUF 0x400
  || in_range addr NV_PAPU_GPYMEM 0x800 || in_range addr NV_PAPU_GPPMEM 0x1000.

Definition ep_window (addr : Z) : bool :=
  in_range addr NV_PAPU_EPXMEM 0xC00 || in_range addr NV_PAPU_EPYMEM 0x100
  || in_range addr NV_PAPU_EPPMEM 0x1000.

(** The EP scratch table at 0x8000 maps page 0 to physical page 0, where the
    eight bytes of [pattern8] lie at 0x100. *)
Definition ep_scratch_device : MCPXAPUState :=
  set_mem (set_reg blank_device NV_PAPU_EPSADDR 0x8000)
          (ram_store (fun _ => 0) 0x100 pattern8).

(** The aperture address behind a cell of GP memory: X words below 0x1000
    through the XMEM window, higher X words through the MIXBUF window, Y and
    P words through their windows. *)
Definition gp_cell_addr (bank word : Z) : Z :=
  if bank =? bank_X then
    if word <? 0x1000 then NV_PAPU_GPXMEM + 4 * word
    else NV_PAPU_GPMIXBUF + 4 * (word - GP_DSP_MIXBUF_BASE)
  else if bank =? bank_Y then NV_PAPU_GPYMEM + 4 * word
  else NV_PAPU_GPPMEM + 4 * word.

(** [FEAV] selects the top of the 2D list, on which voice 5 is followed by
    voice 7, both active. *)
Definition voice_top_busy_device : MCPXAPUState :=
  set_mem
    (set_reg (set_reg blank_device NV_PAPU_FEAV 0x10000) NV_PAPU_TVL2D 5)
    (stl_le_phys
       (stl_le_phys
          (stl_le_phys
             (stl_le_phys (fun _ => 0)
                (5 * 0x80 + NV_PAVS_VOICE_TAR_PITCH_LINK) 7)
             (5 * 0x80 + NV_PAVS_VOICE_PAR_STATE) NV_PAVS_VOICE_PAR_STATE_ACTIVE_VOICE)
          (7 * 0x80 + NV_PAVS_VOICE_TAR_PITCH_LINK) 0xFFFF)
       (7 * 0x80 + NV_PAVS_VOICE_PAR_STATE) NV_PAVS_VOICE_PAR_STATE_ACTIVE_VOICE).
(** * Proofs *)

(** ** Registers and bit fields *)

Lemma upd_same (f : Z -> Z) (a v : Z) : upd f a v a = v.
Proof. unfold upd. now rewrite Z.eqb_refl. Qed.

Lemma upd_other (f : Z -> Z) (a b v : Z) : a <> b -> upd f a v b = f b.
Proof. unfold upd. intros H. destruct (Z.eqb_spec b a); congruence. Qed.

Lemma land_pow2 (x n : Z) :
  0 <= n -> Z.land x (2 ^ n) = if Z.testbit x n then 2 ^ n else 0.
Proof.
  intros Hn. apply Z.bits_inj'. intros i Hi.
  rewrite Z.land_spec, Z.pow2_bits_eqb by assumption.
  destruct (Z.eqb_spec n i) as [->|Hne].
  - destruct (Z.testbit x i) eqn:E; rewrite ?E.
    + now rewrite Z.pow2_bits_eqb, Z.eqb_refl.
    + now rewrite Z.bits_0.
  - rewrite andb_false_r. destruct (Z.testbit x n).
    + rewrite Z.pow2_bits_eqb by assumption. symmetry. now apply Z.eqb_neq.
    + now rewrite Z.bits_0.
Qed.

Lemma land_pow2_eqb (x n : Z) :
  0 <= n -> (Z.land x (2 ^ n) =? 0) = negb (Z.testbit x n).
Proof.
  intros Hn. rewrite land_pow2 by assumption.
  destruct (Z.testbit x n); simpl.
  - apply Z.eqb_neq. apply Z.pow_nonzero; lia.
  - reflexivity.
Qed.

Lemma wrap32_small (x : Z) : 0 <= x < 2 ^ 32 -> wrap32 x = x.
Proof. intros H. unfold wrap32. now apply Z.mod_small. Qed.

Lemma wrap32_range (x : Z) : 0 <= wrap32 x < 2 ^ 32.
Proof. unfold wrap32. apply Z.mod_pos_bound. lia. Qed.

(** ** Interrupt arbiter and the ISTS / IEN registers *)

Lemma lor_bit0_masked (s : Z) :
  Z.land (Z.lor s 1) (Z.lnot 1) = Z.land s (Z.lnot 1).
Proof. change 1 with (2 ^ 0). Z.bitblast. Qed.

Lemma land_masked_idem (s : Z) :
  Z.land (Z.land s (Z.lnot 1)) (Z.lnot 1) = Z.land s (Z.lnot 1).
Proof. Z.bitblast. Qed.

(** [update_irq] establishes the arbiter rule, whatever the state it starts
    from. *)
Lemma update_irq_arbiter (d : MCPXAPUState) : arbiter_rule (update_irq d).
Proof.
  unfold arbiter_rule, arbiter_ok, arbiter_condition, update_irq.
  change NV_PAPU_ISTS_GINTSTS with 1.
  destruct (negb (Z.land (regs d NV_PAPU_IEN) 1 =? 0)
            && negb (Z.land (Z.land (regs d NV_PAPU_ISTS) (Z.lnot 1))
                            (regs d NV_PAPU_IEN) =? 0)) eqn:E;
    cbn [regs irq set_irq set_reg];
    rewrite upd_same, (upd_other _ NV_PAPU_ISTS NV_PAPU_IEN) by discriminate.
  - rewrite lor_bit0_masked, E.
    rewrite Z.lor_spec. change (Z.testbit 1 0) with true.
    now rewrite orb_true_r.
  - rewrite land_masked_idem, E.
    rewrite Z.land_spec. change (Z.testbit (Z.lnot 1) 0) with false.
    now rewrite andb_false_r.
Qed.

Lemma update_irq_regs (d : MCPXAPUState) (a : Z) :
  a <> NV_PAPU_ISTS -> regs (update_irq d) a = regs d a.
Proof.
  intros H. unfold update_irq.
  destruct (_ && _); cbn [regs set_irq set_reg]; now rewrite upd_other by congruence.
Qed.

(** [update_irq] touches no bit of [ISTS] other than [GINTSTS]. *)
Lemma update_irq_ists_bits (d : MCPXAPUState) (i : Z) :
  1 <= i ->
  Z.testbit (regs (update_irq d) NV_PAPU_ISTS) i = Z.testbit (regs d NV_PAPU_ISTS) i.
Proof.
  intros Hi. unfold update_irq. change NV_PAPU_ISTS_GINTSTS with (2 ^ 0).
  destruct (_ && _); cbn [regs set_irq set_reg]; rewrite upd_same.
  - rewrite Z.lor_spec, Z.pow2_bits_eqb by lia.
    replace (0 =? i) with false by (symmetry; apply Z.eqb_neq; lia).
    now rewrite orb_false_r.
  - rewrite Z.land_spec, Z.lnot_spec, Z.pow2_bits_eqb by lia.
    replace (0 =? i) with false by (symmetry; apply Z.eqb_neq; lia).
    now rewrite andb_true_r.
Qed.

(** A write to [ISTS] re-evaluates the arbiter: the rule holds afterwards. *)
Lemma ists_write_arbiter (now_ms : Z) (d : MCPXAPUState) (val : Z) :
  arbiter_rule (mcpx_apu_write now_ms d NV_PAPU_ISTS val).
Proof. unfold mcpx_apu_write. rewrite Z.eqb_refl. apply update_irq_arbiter. Qed.

(** A write to [IEN] falls into the [default:] label: it stores the value and
    does nothing else. *)
Lemma ien_write_plain (now_ms : Z) (d : MCPXAPUState) (val : Z) :
  mcpx_apu_write now_ms d NV_PAPU_IEN val = set_reg d NV_PAPU_IEN (wrap32 val).
Proof. reflexivity. Qed.

(** C1, at the failing input.  The device has [FETINTSTS] pending with nothing
    enabled, and satisfies the arbiter rule.  The guest writes [0x11] to [IEN]
    (offset 0x1004), enabling [GINTSTS] and [FETINTSTS].  The arbiter condition
    now holds, yet [ISTS.GINTSTS] is still clear and the line is still low:
    the rule is broken after a write that changed [IEN]. *)
Theorem ien_write_skips_arbiter :
  let d := ien_pending_device in
  let d' := mcpx_apu_write 0 d NV_PAPU_IEN 0x11 in
  arbiter_rule d
  /\ regs d' NV_PAPU_IEN = 0x11
  /\ regs d' NV_PAPU_ISTS = 0x10
  /\ arbiter_condition d' = true
  /\ Z.testbit (regs d' NV_PAPU_ISTS) 0 = false
  /\ irq d' = false
  /\ ~ arbiter_rule d'.
Proof.
  cbv zeta. repeat split; try reflexivity.
  unfold arbiter_rule. vm_compute. discriminate.
Qed.

Lemma w1c_wrap (s w : Z) :
  0 <= s < 2 ^ 32 -> wrap32 (Z.land s (Z.lnot w)) = Z.land s (Z.lnot w).
Proof.
  intros Hs. unfold wrap32.
  rewrite <- (Z.mod_small s (2 ^ 32)) at 2 by assumption.
  rewrite <- !Z.land_ones by lia. Z.bitblast.
Qed.

(** C7.  A write of the 32-bit value [w] to [ISTS] (offset 0x1000), whose
    stored value is [s], stores [s & ~w] and then re-evaluates the interrupt:
    the result is [update_irq] applied to the device holding [s & ~w].  Bit
    [i] of [s & ~w] is set exactly when bit [i] of [s] is set and bit [i] of
    [w] is clear, so a set bit is cleared iff [w] has a 1 there and no clear
    bit becomes set; after re-evaluation the same holds of every bit except
    [GINTSTS] (bit 0), which the arbiter recomputes. *)
Theorem ists_write_one_to_clear (now_ms : Z) (d : MCPXAPUState) (w : Z) :
  let s := regs d NV_PAPU_ISTS in
  let d' := mcpx_apu_write now_ms d NV_PAPU_ISTS w in
  0 <= s < 2 ^ 32 ->
  0 <= w < 2 ^ 32 ->
  d' = update_irq (set_reg d NV_PAPU_ISTS (Z.land s (Z.lnot w)))
  /\ (forall i, 0 <= i ->
        Z.testbit (Z.land s (Z.lnot w)) i = Z.testbit s i && negb (Z.testbit w i))
  /\ (forall i, 1 <= i ->
        Z.testbit (regs d' NV_PAPU_ISTS) i = Z.testbit s i && negb (Z.testbit w i)).
Proof.
  intros s d' Hs Hw.
  assert (E : d' = update_irq (set_reg d NV_PAPU_ISTS (Z.land s (Z.lnot w)))).
  { unfold d', mcpx_apu_write. rewrite Z.eqb_refl. fold s. now rewrite w1c_wrap. }
  split; [exact E|]. split.
  - intros i Hi. now rewrite Z.land_spec, Z.lnot_spec.
  - intros i Hi. rewrite E, update_irq_ists_bits by assumption.
    cbn [regs set_reg]. rewrite upd_same. rewrite Z.land_spec, Z.lnot_spec by lia.
    reflexivity.
Qed.

(** Scenario S5 as an instance of C7: with [ISTS = 0x11], writing [0x10]
    leaves [0x01] before re-evaluation and, nothing being enabled, [0x00]
    after it. *)
Lemma ists_write_one_to_clear_S5 :
  (0 <= regs w1c_device NV_PAPU_ISTS < 2 ^ 32)
  /\ (0 <= 0x10 < 2 ^ 32)
  /\ mcpx_apu_write 0 w1c_device NV_PAPU_ISTS 0x10
     = update_irq (set_reg w1c_device NV_PAPU_ISTS
                     (Z.land (regs w1c_device NV_PAPU_ISTS) (Z.lnot 0x10)))
  /\ Z.land (regs w1c_device NV_PAPU_ISTS) (Z.lnot 0x10) = 0x01
  /\ regs (mcpx_apu_write 0 w1c_device NV_PAPU_ISTS 0x10) NV_PAPU_ISTS = 0x00.
Proof.
  assert (Hs : 0 <= regs w1c_device NV_PAPU_ISTS < 2 ^ 32) by (vm_compute; split; congruence).
  assert (Hw : 0 <= 0x10 < 2 ^ 32) by lia.
  split; [exact Hs|]. split; [exact Hw|].
  split; [exact (proj1 (ists_write_one_to_clear 0 w1c_device 0x10 Hs Hw))|].
  split; reflexivity.
Defined.

(** ** Front-end traps *)

Lemma trapped_field (x : Z) :
  Z.land (Z.lor (Z.land (Z.lor (Z.land x (Z.lnot 0xE0)) 0xE0) (Z.lnot 0xF00)) 0xF00) 0xE0 = 0xE0.
Proof.
  change 0xE0 with (Z.shiftl (Z.ones 3) 5). change 0xF00 with (Z.shiftl (Z.ones 4) 8).
  Z.bitblast.
Qed.

Lemma requested_field (x : Z) :
  Z.land (Z.lor (Z.land (Z.lor (Z.land x (Z.lnot 0xE0)) 0xE0) (Z.lnot 0xF00)) 0xF00) 0xF00 = 0xF00.
Proof.
  change 0xE0 with (Z.shiftl (Z.ones 3) 5). change 0xF00 with (Z.shiftl (Z.ones 4) 8).
  Z.bitblast.
Qed.

Lemma fe_method_idle (d : MCPXAPUState) (arg : Z) :
  fe_method d SE2FE_IDLE_VOICE arg
  = fe_idle_voice (set_reg (set_reg d NV_PAPU_FEDECMETH SE2FE_IDLE_VOICE)
                           NV_PAPU_FEDECPARAM arg).
Proof. reflexivity. Qed.

(** C5.  For every invocation [fe_method(SE2FE_IDLE_VOICE, arg)]: when bit 15
    of [FETFORCE1] is set the call completes, and afterwards
    [FECTL.FEMETHMODE] is TRAPPED, [FECTL.FETRAPREASON] is REQUESTED,
    [ISTS.FETINTSTS] (bit 4) is set and the interrupt state satisfies the
    arbiter rule; when the bit is clear the call stops on the [assert(false)]
    of that branch. *)
Theorem idle_voice_trap (d : MCPXAPUState) (arg : Z) :
  if Z.testbit (regs d NV_PAPU_FETFORCE1) 15
  then exists d',
         fe_method d SE2FE_IDLE_VOICE arg = Done d'
         /\ Z.land (regs d' NV_PAPU_FECTL) NV_PAPU_FECTL_FEMETHMODE
            = NV_PAPU_FECTL_FEMETHMODE_TRAPPED
         /\ Z.land (regs d' NV_PAPU_FECTL) NV_PAPU_FECTL_FETRAPREASON
            = NV_PAPU_FECTL_FETRAPREASON_REQUESTED
         /\ Z.testbit (regs d' NV_PAPU_ISTS) 4 = true
         /\ arbiter_rule d'
  else fe_method d SE2FE_IDLE_VOICE arg = Abort A_idle_voice_disabled.
Proof.
  rewrite fe_method_idle. unfold fe_idle_voice.
  cbn [regs set_reg].
  rewrite (upd_other _ NV_PAPU_FEDECPARAM NV_PAPU_FETFORCE1) by discriminate.
  rewrite (upd_other _ NV_PAPU_FEDECMETH NV_PAPU_FETFORCE1) by discriminate.
  change NV_PAPU_FETFORCE1_SE2FE_IDLE_VOICE with (2 ^ 15).
  rewrite land_pow2_eqb by lia. rewrite negb_involutive.
  destruct (Z.testbit (regs d NV_PAPU_FETFORCE1) 15); [|reflexivity].
  eexists. split; [reflexivity|].
  repeat split.
  - rewrite update_irq_regs by discriminate. cbn [regs set_reg].
    rewrite (upd_other _ NV_PAPU_ISTS NV_PAPU_FECTL) by discriminate.
    rewrite !upd_same. apply trapped_field.
  - rewrite update_irq_regs by discriminate. cbn [regs set_reg].
    rewrite (upd_other _ NV_PAPU_ISTS NV_PAPU_FECTL) by discriminate.
    rewrite !upd_same. apply requested_field.
  - rewrite update_irq_ists_bits by lia. cbn [regs set_reg].
    rewrite upd_same. rewrite Z.lor_spec.
    change (Z.testbit NV_PAPU_ISTS_FETINTSTS 4) with true. apply orb_true_r.
  - apply update_irq_arbiter.
Qed.

(** ** Guest memory words *)

Lemma ldl_le_phys_range (m : Z -> Z) (a : Z) : 0 <= ldl_le_phys m a < 2 ^ 32.
Proof.
  unfold ldl_le_phys.
  pose proof (Z.mod_pos_bound (m a) 256 eq_refl).
  pose proof (Z.mod_pos_bound (m (a + 1)) 256 eq_refl).
  pose proof (Z.mod_pos_bound (m (a + 2)) 256 eq_refl).
  pose proof (Z.mod_pos_bound (m (a + 3)) 256 eq_refl).
  change (2 ^ 32) with 4294967296. lia.
Qed.

Lemma ldl_stl_same (m : Z -> Z) (a v : Z) :
  0 <= v < 2 ^ 32 -> ldl_le_phys (stl_le_phys m a v) a = v.
Proof.
  intros Hv. unfold ldl_le_phys, stl_le_phys.
  rewrite (upd_other _ (a + 3) a), (upd_other _ (a + 2) a),
          (upd_other _ (a + 1) a), upd_same by lia.
  rewrite (upd_other _ (a + 3) (a + 1)), (upd_other _ (a + 2) (a + 1)), upd_same by lia.
  rewrite (upd_other _ (a + 3) (a + 2)), upd_same by lia.
  rewrite upd_same.
  rewrite !Z.mod_mod by lia.
  change (2 ^ 32) with 4294967296 in Hv.
  Z.div_mod_to_equations. lia.
Qed.

Lemma ldl_stl_other (m : Z -> Z) (a b v : Z) :
  b + 4 <= a \/ a + 4 <= b ->
  ldl_le_phys (stl_le_phys m a v) b = ldl_le_phys m b.
Proof.
  intros H. unfold ldl_le_phys, stl_le_phys.
  now rewrite !upd_other by lia.
Qed.

(** ** Voice records *)

Lemma voice_addr_set_mem d m h : voice_addr (set_mem d m) h = voice_addr d h.
Proof. reflexivity. Qed.

Lemma voice_set_mask_done (d : MCPXAPUState) (h off mask val : Z) :
  h < 0xFFFF ->
  voice_set_mask d h off mask val
  = Done (set_mem d (stl_le_phys (mem d) (voice_addr d h + off)
            (Z.lor (Z.land (ldl_le_phys (mem d) (voice_addr d h + off))
                           (wrap32 (Z.lnot mask)))
                   (Z.land (wrap32 (Z.shiftl val (ctz32 mask))) mask)))).
Proof.
  intros H. unfold voice_set_mask, assert.
  replace (h <? 65535) with true by (symmetry; apply Z.ltb_lt; exact H).
  reflexivity.
Qed.

Lemma voice_get_mask_done (d : MCPXAPUState) (h off mask : Z) :
  h < 0xFFFF ->
  voice_get_mask d h off mask
  = Done (Z.shiftr (Z.land (ldl_le_phys (mem d) (voice_addr d h + off)) mask)
                   (ctz32 mask)).
Proof.
  intros H. unfold voice_get_mask, assert.
  replace (h <? 65535) with true by (symmetry; apply Z.ltb_lt; exact H).
  reflexivity.
Qed.

Lemma field_word_range (old x mask : Z) :
  0 <= old < 2 ^ 32 -> 0 <= mask < 2 ^ 32 ->
  0 <= Z.lor (Z.land old (wrap32 (Z.lnot mask))) (Z.land (wrap32 x) mask) < 2 ^ 32.
Proof.
  intros Ho Hm.
  set (w := Z.lor _ _).
  assert (E : w = w mod 2 ^ 32).
  { unfold w, wrap32.
    rewrite <- (Z.mod_small old (2 ^ 32)) at 1 2 by assumption.
    rewrite <- !Z.land_ones by lia. Z.bitblast. }
  rewrite E. apply Z.mod_pos_bound. lia.
Qed.

Lemma field_get_set (old x mask : Z) :
  Z.land (Z.lor (Z.land old (wrap32 (Z.lnot mask))) (Z.land x mask)) mask
  = Z.land x mask.
Proof. unfold wrap32. rewrite <- !Z.land_ones by lia. Z.bitblast. Qed.

(** Reading a field back after [voice_set_mask] wrote it. *)
Lemma voice_get_set_same (d d' : MCPXAPUState) (h off mask val : Z) :
  h < 0xFFFF -> 0 <= mask < 2 ^ 32 ->
  voice_set_mask d h off mask val = Done d' ->
  voice_get_mask d' h off mask
  = Done (Z.shiftr (Z.land (wrap32 (Z.shiftl val (ctz32 mask))) mask) (ctz32 mask)).
Proof.
  intros Hh Hm. rewrite voice_set_mask_done by assumption. intros [= <-].
  rewrite voice_get_mask_done by assumption.
  cbn [mem set_mem]. rewrite voice_addr_set_mem.
  rewrite ldl_stl_same.
  - now rewrite field_get_set.
  - apply field_word_range; [apply ldl_le_phys_range | assumption].
Qed.

(** [voice_set_mask] on one word leaves every disjoint word as it was. *)
Lemma voice_get_set_other (d d' : MCPXAPUState) (h off mask val h' off' mask' : Z) :
  voice_addr d h' + off' + 4 <= voice_addr d h + off
  \/ voice_addr d h + off + 4 <= voice_addr d h' + off' ->
  voice_set_mask d h off mask val = Done d' ->
  voice_get_mask d' h' off' mask' = voice_get_mask d h' off' mask'.
Proof.
  intros Hsep. unfold voice_set_mask, assert.
  destruct (h <? 65535); cbn [bind]; [|discriminate]. intros [= <-].
  unfold voice_get_mask. cbn [mem set_mem]. rewrite voice_addr_set_mem.
  now rewrite ldl_stl_other.
Qed.

Lemma voice_set_mask_regs (d d' : MCPXAPUState) (h off mask val : Z) :
  voice_set_mask d h off mask val = Done d' -> regs d' = regs d.
Proof.
  unfold voice_set_mask, assert.
  destruct (h <? 65535); cbn [bind]; [|discriminate]. now intros [= <-].
Qed.

(** Records of distinct handles are 128 bytes apart, also across the 32-bit
    wrap of the record address. *)
Lemma voice_addr_apart (d : MCPXAPUState) (h a : Z) :
  0 <= h < 0xFFFF -> 0 <= a < 0xFFFF -> h <> a ->
  voice_addr d h + 128 <= voice_addr d a \/ voice_addr d a + 128 <= voice_addr d h.
Proof.
  intros Hh Ha Hne. unfold voice_addr, wrap32, NV_PAVS_SIZE.
  rewrite (Z.mod_small (h * 128)), (Z.mod_small (a * 128))
    by (change (2 ^ 32) with 4294967296; lia).
  change (2 ^ 32) with 4294967296.
  Z.div_mod_to_equations. lia.
Qed.

Lemma link_field (v : Z) :
  Z.shiftr (Z.land (wrap32 (Z.shiftl v (ctz32 NV_PAVS_VOICE_TAR_PITCH_LINK_NEXT_VOICE_HANDLE)))
                   NV_PAVS_VOICE_TAR_PITCH_LINK_NEXT_VOICE_HANDLE)
           (ctz32 NV_PAVS_VOICE_TAR_PITCH_LINK_NEXT_VOICE_HANDLE)
  = Z.land v 0xFFFF.
Proof.
  change (ctz32 NV_PAVS_VOICE_TAR_PITCH_LINK_NEXT_VOICE_HANDLE) with 0.
  change NV_PAVS_VOICE_TAR_PITCH_LINK_NEXT_VOICE_HANDLE with (Z.ones 16).
  change 0xFFFF with (Z.ones 16).
  rewrite Z.shiftl_0_r, Z.shiftr_0_r. unfold wrap32.
  rewrite <- Z.land_ones by lia. Z.bitblast.
Qed.

Lemma land_handle (h : Z) : 0 <= h < 0xFFFF -> Z.land h 0xFFFF = h.
Proof.
  intros H. change 0xFFFF with (Z.ones 16) at 1.
  rewrite Z.land_ones by lia. apply Z.mod_small. change (2 ^ 16) with 65536. lia.
Qed.

Lemma active_field :
  Z.shiftr (Z.land (wrap32 (Z.shiftl 1 (ctz32 NV_PAVS_VOICE_PAR_STATE_ACTIVE_VOICE)))
                   NV_PAVS_VOICE_PAR_STATE_ACTIVE_VOICE)
           (ctz32 NV_PAVS_VOICE_PAR_STATE_ACTIVE_VOICE) = 1.
Proof. reflexivity. Qed.

Lemma feav_list_range (x : Z) :
  0 <= GET_MASK x NV_PAPU_FEAV_LST <= 3.
Proof.
  unfold GET_MASK. change (ctz32 NV_PAPU_FEAV_LST) with 16.
  change NV_PAPU_FEAV_LST with (Z.shiftl (Z.ones 2) 16).
  assert (E : Z.shiftr (Z.land x (Z.shiftl (Z.ones 2) 16)) 16
              = Z.land (Z.shiftr x 16) (Z.ones 2)) by Z.bitblast.
  rewrite E, Z.land_ones by lia.
  pose proof (Z.mod_pos_bound (Z.shiftr x 16) (2 ^ 2) eq_refl).
  change (2 ^ 2) with 4 in *. lia.
Qed.

Lemma feav_value_range (x : Z) :
  0 <= GET_MASK x NV_PAPU_FEAV_VALUE <= 0xFFFF.
Proof.
  unfold GET_MASK. change (ctz32 NV_PAPU_FEAV_VALUE) with 0.
  change NV_PAPU_FEAV_VALUE with (Z.ones 16).
  rewrite Z.shiftr_0_r, Z.land_ones by lia.
  pose proof (Z.mod_pos_bound x (2 ^ 16) eq_refl).
  change (2 ^ 16) with 65536 in *. lia.
Qed.

Lemma top_reg_cases (l : Z) :
  1 <= l <= 3 ->
  let top := vl_top (voice_list_reg_at (l - 1)) in
  top = NV_PAPU_TVL2D \/ top = NV_PAPU_TVL3D \/ top = NV_PAPU_TVLMP.
Proof.
  intros H. assert (l = 1 \/ l = 2 \/ l = 3) as [->|[->| ->]] by lia; cbn; tauto.
Qed.

(** C3, amended.  For every handle [h < 0xFFFF] and every list selector [l]
    among 2D-top, 3D-top and MP-top held in [FEAV]: [fe_method(VOICE_ON, h)]
    completes, and afterwards the next-link field of voice [h] is the low 16
    bits of the previous [TOP[l]] (the previous [TOP[l]] itself when that is a
    16-bit value, such as the [0xFFFF] of an empty list), [TOP[l]] is [h] and
    the Active bit of voice [h] is set. *)
Theorem voice_on_top (d : MCPXAPUState) (h l : Z) :
  0 <= h < 0xFFFF ->
  1 <= l <= 3 ->
  GET_MASK (regs d NV_PAPU_FEAV) NV_PAPU_FEAV_LST = l ->
  exists d',
    fe_method d NV1BA0_PIO_VOICE_ON h = Done d'
    /\ next_link d' h = Done (Z.land (TOP d l) 0xFFFF)
    /\ (0 <= TOP d l <= 0xFFFF -> next_link d' h = Done (TOP d l))
    /\ TOP d' l = h
    /\ voice_active d' h = Done 1.
Proof.
  intros Hh Hl HL.
  set (d0 := set_reg (set_reg d NV_PAPU_FEDECMETH NV1BA0_PIO_VOICE_ON)
                     NV_PAPU_FEDECPARAM h).
  change (fe_method d NV1BA0_PIO_VOICE_ON h) with (fe_voice_on d0 h).
  pose proof (top_reg_cases l Hl) as Htop. cbv zeta in Htop.
  assert (R : forall a, a <> NV_PAPU_FEDECMETH -> a <> NV_PAPU_FEDECPARAM ->
                        regs d0 a = regs d a).
  { intros a Ha Hb. unfold d0. cbn [regs set_reg]. now rewrite !upd_other by congruence. }
  unfold fe_voice_on.
  change NV1BA0_PIO_VOICE_ON_HANDLE with 0xFFFF. rewrite land_handle by assumption.
  rewrite R by discriminate. rewrite HL.
  replace (l =? NV1BA0_PIO_SET_ANTECEDENT_VOICE_LIST_INHERIT) with false
    by (symmetry; apply Z.eqb_neq; unfold NV1BA0_PIO_SET_ANTECEDENT_VOICE_LIST_INHERIT; lia).
  cbn [negb].
  set (top := vl_top (voice_list_reg_at (l - 1))) in *.
  assert (Rtop : regs d0 top = TOP d l).
  { unfold TOP. fold top. apply R; destruct Htop as [->|[->| ->]]; discriminate. }
  rewrite Rtop.
  destruct (voice_set_mask d0 h NV_PAVS_VOICE_TAR_PITCH_LINK
              NV_PAVS_VOICE_TAR_PITCH_LINK_NEXT_VOICE_HANDLE (TOP d l)) as [d1| |] eqn:E1;
    try (rewrite voice_set_mask_done in E1 by lia; discriminate).
  cbn [bind].
  set (d2 := set_reg d1 top h).
  destruct (voice_set_mask d2 h NV_PAVS_VOICE_PAR_STATE
              NV_PAVS_VOICE_PAR_STATE_ACTIVE_VOICE 1) as [d3| |] eqn:E3;
    try (rewrite voice_set_mask_done in E3 by lia; discriminate).
  exists d3. split; [reflexivity|].
  assert (HV : forall x, voice_addr d2 x = voice_addr d0 x).
  { intros x. unfold voice_addr, d2. cbn [regs set_reg].
    rewrite (voice_set_mask_regs _ _ _ _ _ _ E1).
    rewrite upd_other; [reflexivity|].
    destruct Htop as [->|[->| ->]]; discriminate. }
  assert (N : next_link d3 h = Done (Z.land (TOP d l) 0xFFFF)).
  { unfold next_link.
    rewrite (voice_get_set_other d2 d3 h NV_PAVS_VOICE_PAR_STATE
               NV_PAVS_VOICE_PAR_STATE_ACTIVE_VOICE 1); [|
      unfold NV_PAVS_VOICE_PAR_STATE, NV_PAVS_VOICE_TAR_PITCH_LINK; lia | exact E3].
    change (voice_get_mask d2 h NV_PAVS_VOICE_TAR_PITCH_LINK
              NV_PAVS_VOICE_TAR_PITCH_LINK_NEXT_VOICE_HANDLE)
      with (voice_get_mask (set_reg d1 top h) h NV_PAVS_VOICE_TAR_PITCH_LINK
              NV_PAVS_VOICE_TAR_PITCH_LINK_NEXT_VOICE_HANDLE).
    assert (G : voice_get_mask (set_reg d1 top h) h NV_PAVS_VOICE_TAR_PITCH_LINK
              NV_PAVS_VOICE_TAR_PITCH_LINK_NEXT_VOICE_HANDLE
            = voice_get_mask d1 h NV_PAVS_VOICE_TAR_PITCH_LINK
              NV_PAVS_VOICE_TAR_PITCH_LINK_NEXT_VOICE_HANDLE).
    { unfold voice_get_mask. cbn [mem set_reg].
      fold d2. rewrite HV. unfold voice_addr.
      now rewrite (voice_set_mask_regs _ _ _ _ _ _ E1). }
    rewrite G.
    rewrite (voice_get_set_same d0 d1 h _ _ (TOP d l)); [| lia | vm_compute; split; congruence | exact E1].
    now rewrite link_field. }
  split; [exact N|]. split.
  { intros Ht. rewrite N. f_equal.
    change 0xFFFF with (Z.ones 16) at 1. rewrite Z.land_ones by lia.
    apply Z.mod_small. change (2 ^ 16) with 65536. lia. }
  split.
  { unfold TOP. fold top. rewrite (voice_set_mask_regs _ _ _ _ _ _ E3).
    unfold d2. cbn [regs set_reg]. apply upd_same. }
  unfold voice_active.
  rewrite (voice_get_set_same d2 d3 h _ _ 1); [| lia | vm_compute; split; congruence | exact E3].
  now rewrite active_field.
Qed.

(** C3 as stated fails when the head register holds more than 16 bits: with
    [TOP[2D] = 0x10005], [VOICE_ON(7)] leaves [next_link(7) = 5], not the
    previous [TOP[2D]]. *)
Lemma voice_on_top_wide :
  exists d',
    GET_MASK (regs voice_top_wide_device NV_PAPU_FEAV) NV_PAPU_FEAV_LST = 1
    /\ fe_method voice_top_wide_device NV1BA0_PIO_VOICE_ON 7 = Done d'
    /\ TOP voice_top_wide_device 1 = 0x10005
    /\ next_link d' 7 = Done 5
    /\ next_link d' 7 <> Done (TOP voice_top_wide_device 1).
Proof.
  eexists. split; [reflexivity|]. split; [reflexivity|]. split; [reflexivity|].
  split; [vm_compute; reflexivity | vm_compute; discriminate].
Qed.

(** C3 on an initially empty 3D list: afterwards [TOP[3D] = 9] and
    [next_link(9) = 0xFFFF]. *)
Lemma voice_on_top_empty :
  (0 <= 9 < 0xFFFF) /\ (1 <= 2 <= 3)
  /\ GET_MASK (regs voice_top_empty_device NV_PAPU_FEAV) NV_PAPU_FEAV_LST = 2
  /\ TOP voice_top_empty_device 2 = 0xFFFF
  /\ exists d',
       fe_method voice_top_empty_device NV1BA0_PIO_VOICE_ON 9 = Done d'
       /\ next_link d' 9 = Done 0xFFFF
       /\ TOP d' 2 = 9
       /\ voice_active d' 9 = Done 1.
Proof.
  assert (H1 : 0 <= 9 < 0xFFFF) by lia.
  assert (H2 : 1 <= 2 <= 3) by lia.
  assert (H3 : GET_MASK (regs voice_top_empty_device NV_PAPU_FEAV) NV_PAPU_FEAV_LST = 2)
    by reflexivity.
  split; [exact H1|]. split; [exact H2|]. split; [exact H3|]. split; [reflexivity|].
  destruct (voice_on_top voice_top_empty_device 9 2 H1 H2 H3)
    as (d' & E & N & _ & T & A).
  exists d'. split; [exact E|]. split; [exact N|]. split; [exact T|exact A].
Defined.

(** C4, amended.  For every handle [h < 0xFFFF], when the list selector in
    [FEAV] is inherit, the antecedent handle [a] in [FEAV] is not [0xFFFF] and
    [h] is not [a] itself: [fe_method(VOICE_ON, h)] completes, and afterwards
    [next_link(a) = h], [next_link(h)] is the pre-insert [next_link(a)], the
    Active bit of [h] is set and the head register of every list is
    unchanged. *)
Theorem voice_on_after (d : MCPXAPUState) (h a : Z) :
  0 <= h < 0xFFFF ->
  GET_MASK (regs d NV_PAPU_FEAV) NV_PAPU_FEAV_LST
  = NV1BA0_PIO_SET_ANTECEDENT_VOICE_LIST_INHERIT ->
  GET_MASK (regs d NV_PAPU_FEAV) NV_PAPU_FEAV_VALUE = a ->
  a <> 0xFFFF ->
  h <> a ->
  exists d' n,
    fe_method d NV1BA0_PIO_VOICE_ON h = Done d'
    /\ next_link d a = Done n
    /\ next_link d' a = Done h
    /\ next_link d' h = Done n
    /\ voice_active d' h = Done 1
    /\ (forall l, TOP d' l = TOP d l).
Proof.
  intros Hh HL HA Ha Hne.
  pose proof (feav_value_range (regs d NV_PAPU_FEAV)) as Hr. rewrite HA in Hr.
  assert (Ha' : 0 <= a < 0xFFFF) by lia.
  set (d0 := set_reg (set_reg d NV_PAPU_FEDECMETH NV1BA0_PIO_VOICE_ON)
                     NV_PAPU_FEDECPARAM h).
  change (fe_method d NV1BA0_PIO_VOICE_ON h) with (fe_voice_on d0 h).
  assert (R : forall x, x <> NV_PAPU_FEDECMETH -> x <> NV_PAPU_FEDECPARAM ->
                        regs d0 x = regs d x).
  { intros x Hx Hy. unfold d0. cbn [regs set_reg]. now rewrite !upd_other by congruence. }
  assert (V0 : forall x, voice_addr d0 x = voice_addr d x).
  { intros x. unfold voice_addr. now rewrite R by discriminate. }
  unfold fe_voice_on.
  change NV1BA0_PIO_VOICE_ON_HANDLE with 0xFFFF. rewrite land_handle by assumption.
  rewrite R by discriminate. rewrite HL, HA, Z.eqb_refl. cbn [negb].
  unfold assert. replace (a =? 65535) with false by (symmetry; apply Z.eqb_neq; exact Ha).
  cbn [negb bind].
  assert (G0 : voice_get_mask d0 a NV_PAVS_VOICE_TAR_PITCH_LINK
                 NV_PAVS_VOICE_TAR_PITCH_LINK_NEXT_VOICE_HANDLE = next_link d a).
  { unfold next_link, voice_get_mask. now rewrite V0. }
  rewrite G0. unfold next_link at 1. rewrite voice_get_mask_done by lia.
  set (n := Z.shiftr _ _). cbn [bind].
  assert (Hn : Z.land n 0xFFFF = n).
  { unfold n. change (ctz32 NV_PAVS_VOICE_TAR_PITCH_LINK_NEXT_VOICE_HANDLE) with 0.
    change NV_PAVS_VOICE_TAR_PITCH_LINK_NEXT_VOICE_HANDLE with (Z.ones 16).
    change 0xFFFF with (Z.ones 16). rewrite Z.shiftr_0_r. Z.bitblast. }
  destruct (voice_set_mask d0 h NV_PAVS_VOICE_TAR_PITCH_LINK
              NV_PAVS_VOICE_TAR_PITCH_LINK_NEXT_VOICE_HANDLE n) as [d1| |] eqn:E1;
    try (rewrite voice_set_mask_done in E1 by lia; discriminate).
  cbn [bind].
  destruct (voice_set_mask d1 a NV_PAVS_VOICE_TAR_PITCH_LINK
              NV_PAVS_VOICE_TAR_PITCH_LINK_NEXT_VOICE_HANDLE h) as [d2| |] eqn:E2;
    try (rewrite voice_set_mask_done in E2 by lia; discriminate).
  cbn [bind].
  destruct (voice_set_mask d2 h NV_PAVS_VOICE_PAR_STATE
              NV_PAVS_VOICE_PAR_STATE_ACTIVE_VOICE 1) as [d3| |] eqn:E3;
    try (rewrite voice_set_mask_done in E3 by lia; discriminate).
  pose proof (voice_set_mask_regs _ _ _ _ _ _ E1) as R1.
  pose proof (voice_set_mask_regs _ _ _ _ _ _ E2) as R2.
  pose proof (voice_set_mask_regs _ _ _ _ _ _ E3) as R3.
  assert (V1 : forall x, voice_addr d1 x = voice_addr d x)
    by (intros x; unfold voice_addr; rewrite R1; apply V0).
  assert (V2 : forall x, voice_addr d2 x = voice_addr d x)
    by (intros x; unfold voice_addr; rewrite R2; apply V1).
  pose proof (voice_addr_apart d h a Hh Ha' Hne) as Hsep.
  exists d3, n. split; [reflexivity|].
  split; [unfold next_link; now rewrite voice_get_mask_done by lia|].
  split.
  { unfold next_link.
    rewrite (voice_get_set_other d2 d3 h NV_PAVS_VOICE_PAR_STATE NV_PAVS_VOICE_PAR_STATE_ACTIVE_VOICE 1 a NV_PAVS_VOICE_TAR_PITCH_LINK NV_PAVS_VOICE_TAR_PITCH_LINK_NEXT_VOICE_HANDLE); [| rewrite !V2; unfold NV_PAVS_VOICE_PAR_STATE, NV_PAVS_VOICE_TAR_PITCH_LINK; lia | exact E3].
    rewrite (voice_get_set_same d1 d2 a NV_PAVS_VOICE_TAR_PITCH_LINK NV_PAVS_VOICE_TAR_PITCH_LINK_NEXT_VOICE_HANDLE h); [| lia | vm_compute; split; congruence | exact E2].
    rewrite link_field. now rewrite land_handle. }
  split.
  { unfold next_link.
    rewrite (voice_get_set_other d2 d3 h NV_PAVS_VOICE_PAR_STATE NV_PAVS_VOICE_PAR_STATE_ACTIVE_VOICE 1 h NV_PAVS_VOICE_TAR_PITCH_LINK NV_PAVS_VOICE_TAR_PITCH_LINK_NEXT_VOICE_HANDLE); [| rewrite !V2; unfold NV_PAVS_VOICE_PAR_STATE, NV_PAVS_VOICE_TAR_PITCH_LINK; lia | exact E3].
    rewrite (voice_get_set_other d1 d2 a NV_PAVS_VOICE_TAR_PITCH_LINK NV_PAVS_VOICE_TAR_PITCH_LINK_NEXT_VOICE_HANDLE h h NV_PAVS_VOICE_TAR_PITCH_LINK NV_PAVS_VOICE_TAR_PITCH_LINK_NEXT_VOICE_HANDLE); [| rewrite !V1; unfold NV_PAVS_VOICE_PAR_STATE, NV_PAVS_VOICE_TAR_PITCH_LINK; lia | exact E2].
    rewrite (voice_get_set_same d0 d1 h NV_PAVS_VOICE_TAR_PITCH_LINK NV_PAVS_VOICE_TAR_PITCH_LINK_NEXT_VOICE_HANDLE n); [| lia | vm_compute; split; congruence | exact E1].
    rewrite link_field. now rewrite Hn. }
  split.
  { unfold voice_active.
    rewrite (voice_get_set_same d2 d3 h NV_PAVS_VOICE_PAR_STATE NV_PAVS_VOICE_PAR_STATE_ACTIVE_VOICE 1); [| lia | vm_compute; split; congruence | exact E3].
    now rewrite active_field. }
  intros l. unfold TOP. rewrite R3, R2, R1. apply R.
  - unfold voice_list_reg_at.
    destruct (Z.to_nat (l - 1)) as [|[|[|[|k]]]]; cbn; discriminate.
  - unfold voice_list_reg_at.
    destruct (Z.to_nat (l - 1)) as [|[|[|[|k]]]]; cbn; discriminate.
Qed.

(** C4 as stated fails when the voice is inserted after itself: with
    antecedent 5 whose link is [0xFFFF], [VOICE_ON(5)] leaves
    [next_link(5) = 5], not the pre-insert [next_link(5)]. *)
Lemma voice_on_after_itself :
  exists d',
    GET_MASK (regs voice_inherit_device NV_PAPU_FEAV) NV_PAPU_FEAV_LST
    = NV1BA0_PIO_SET_ANTECEDENT_VOICE_LIST_INHERIT
    /\ GET_MASK (regs voice_inherit_device NV_PAPU_FEAV) NV_PAPU_FEAV_VALUE = 5
    /\ fe_method voice_inherit_device NV1BA0_PIO_VOICE_ON 5 = Done d'
    /\ next_link voice_inherit_device 5 = Done 0xFFFF
    /\ next_link d' 5 = Done 5
    /\ next_link d' 5 <> next_link voice_inherit_device 5.
Proof.
  eexists. split; [reflexivity|]. split; [reflexivity|]. split; [reflexivity|].
  split; [vm_compute; reflexivity|].
  split; [vm_compute; reflexivity | vm_compute; discriminate].
Qed.

(** C4 for voice 9 inserted after voice 5. *)
Lemma voice_on_after_five :
  (0 <= 9 < 0xFFFF)
  /\ (5 <> 0xFFFF) /\ (9 <> 5)
  /\ exists d',
       fe_method voice_inherit_device NV1BA0_PIO_VOICE_ON 9 = Done d'
       /\ next_link d' 5 = Done 9
       /\ next_link d' 9 = Done 0xFFFF
       /\ voice_active d' 9 = Done 1.
Proof.
  assert (H1 : 0 <= 9 < 0xFFFF) by lia.
  assert (H2 : 5 <> 0xFFFF) by lia.
  assert (H3 : 9 <> 5) by lia.
  split; [exact H1|]. split; [exact H2|]. split; [exact H3|].
  destruct (voice_on_after voice_inherit_device 9 5 H1 eq_refl eq_refl H2 H3)
    as (d' & n & E & N0 & Na & Nh & A & _).
  exists d'. split; [exact E|]. split; [exact Na|].
  split; [|exact A].
  rewrite Nh, <- N0. vm_compute. reflexivity.
Defined.

(** ** Processor reset handshake *)

Lemma rst_bits (v : Z) :
  ((Z.land v NV_PAPU_GPRST_GPRST =? 0) || (Z.land v NV_PAPU_GPRST_GPDSPRST =? 0))
  = negb (both_reset_bits v).
Proof.
  change NV_PAPU_GPRST_GPRST with (2 ^ 0). change NV_PAPU_GPRST_GPDSPRST with (2 ^ 1).
  rewrite !land_pow2_eqb by lia. unfold both_reset_bits.
  now rewrite negb_andb.
Qed.

Lemma proc_rst_write_cases (oldval val : Z) :
  proc_rst_write oldval val
  = if negb (both_reset_bits val) then [dsp_reset]
    else if negb (both_reset_bits oldval) then [dsp_bootstrap]
    else [].
Proof.
  unfold proc_rst_write.
  rewrite !rst_bits.
  change NV_PAPU_GPRST_GPRST with (2 ^ 0). change NV_PAPU_GPRST_GPDSPRST with (2 ^ 1).
  rewrite !land_pow2_eqb by lia. rewrite !negb_involutive.
  fold (both_reset_bits val).
  destruct (both_reset_bits val), (both_reset_bits oldval); reflexivity.
Qed.

Lemma gp_write_rst (d : MCPXAPUState) (val : Z) :
  0 <= val < 2 ^ 32 ->
  gp_write d NV_PAPU_GPRST val 4
  = Done (set_gp_reg (gp_call d (proc_rst_write (gp_regs d NV_PAPU_GPRST) val))
                     NV_PAPU_GPRST val).
Proof. intros H. unfold gp_write. cbn. now rewrite wrap32_small. Qed.

Lemma ep_write_rst (d : MCPXAPUState) (val : Z) :
  0 <= val < 2 ^ 32 ->
  ep_write d NV_PAPU_EPRST val 4
  = Done (set_ep_reg (ep_call d (proc_rst_write (ep_regs d NV_PAPU_EPRST) val))
                     NV_PAPU_EPRST val).
Proof. intros H. unfold ep_write. cbn. now rewrite wrap32_small. Qed.

Lemma count_calls_app (p : dsp_call -> bool) (l1 l2 : list dsp_call) :
  count_calls p (l1 ++ l2) = (count_calls p l1 + count_calls p l2)%nat.
Proof. unfold count_calls. now rewrite filter_app, length_app. Qed.

(** C6, amended.  A write of [new] to the GP reset register holding [old]
    completes and stores [new] (and so does a write to the EP reset register,
    through the same [proc_rst_write]); the calls it makes on the processor are
    [proc_rst_write old new]: [reset] iff [new] has [GPRST] or [GPDSPRST]
    cleared, [bootstrap] iff [old] had one of them cleared and [new] has both
    set, and at most one call in all.  When this write and the next one,
    of [new2], both carry both reset bits, the second write makes no call, and
    the pair makes exactly one [bootstrap] call if [old] had a reset bit
    cleared and none if [old] already had both set. *)
Theorem reset_handshake (d : MCPXAPUState) (new new2 : Z) :
  0 <= new < 2 ^ 32 ->
  0 <= new2 < 2 ^ 32 ->
  let old := gp_regs d NV_PAPU_GPRST in
  exists d1 d2,
    gp_write d NV_PAPU_GPRST new 4 = Done d1
    /\ gp_write d1 NV_PAPU_GPRST new2 4 = Done d2
    /\ gp_regs d1 NV_PAPU_GPRST = new
    /\ gp_dsp d1 = gp_dsp d ++ proc_rst_write old new
    /\ (In dsp_reset (proc_rst_write old new) <-> both_reset_bits new = false)
    /\ (In dsp_bootstrap (proc_rst_write old new)
        <-> both_reset_bits old = false /\ both_reset_bits new = true)
    /\ (proc_rst_write old new = [dsp_reset]
        \/ proc_rst_write old new = [dsp_bootstrap]
        \/ proc_rst_write old new = [])
    /\ (both_reset_bits new = true -> both_reset_bits new2 = true ->
        gp_dsp d2 = gp_dsp d1
        /\ count_calls is_bootstrap (gp_dsp d2)
           = (count_calls is_bootstrap (gp_dsp d)
              + if both_reset_bits old then 0 else 1)%nat)
    /\ exists de,
         ep_write d NV_PAPU_EPRST new 4 = Done de
         /\ ep_regs de NV_PAPU_EPRST = new
         /\ ep_dsp de = ep_dsp d ++ proc_rst_write (ep_regs d NV_PAPU_EPRST) new.
Proof.
  intros Hn Hn2 old.
  rewrite (gp_write_rst d new Hn). eexists. 
  rewrite (gp_write_rst _ new2 Hn2). eexists.
  split; [reflexivity|]. split; [reflexivity|].
  cbn [gp_regs gp_dsp set_gp_reg gp_call]. rewrite upd_same. fold old.
  split; [reflexivity|]. split; [reflexivity|].
  assert (HEP : exists de,
             ep_write d NV_PAPU_EPRST new 4 = Done de
             /\ ep_regs de NV_PAPU_EPRST = new
             /\ ep_dsp de = ep_dsp d ++ proc_rst_write (ep_regs d NV_PAPU_EPRST) new).
  { rewrite (ep_write_rst d new Hn). eexists. split; [reflexivity|].
    cbn [ep_regs ep_dsp set_ep_reg ep_call]. now rewrite upd_same. }
  rewrite !(proc_rst_write_cases old), (proc_rst_write_cases new).
  split; [|split; [|split; [|split; [|exact HEP]]]].
  - destruct (both_reset_bits new); simpl; [|intuition].
    destruct (both_reset_bits old); simpl; intuition discriminate.
  - destruct (both_reset_bits new); simpl; [|intuition discriminate].
    destruct (both_reset_bits old); simpl; intuition discriminate.
  - destruct (both_reset_bits new), (both_reset_bits old); simpl; auto.
  - intros H H0. rewrite H, H0. simpl. rewrite app_nil_r, count_calls_app.
    split; [reflexivity|]. destruct (both_reset_bits old); reflexivity.
Qed.

(** C6 as stated fails when the register already holds both reset bits: two
    consecutive writes with both bits set then make no call at all, not one
    [bootstrap] call. *)
Lemma reset_handshake_twice_held :
  exists d1 d2,
    both_reset_bits (gp_regs rst_held_device NV_PAPU_GPRST) = true
    /\ both_reset_bits 3 = true
    /\ gp_write rst_held_device NV_PAPU_GPRST 3 4 = Done d1
    /\ gp_write d1 NV_PAPU_GPRST 3 4 = Done d2
    /\ gp_dsp d2 = gp_dsp rst_held_device
    /\ count_calls is_bootstrap (gp_dsp d2)
       <> (count_calls is_bootstrap (gp_dsp rst_held_device) + 1)%nat.
Proof.
  eexists; eexists. repeat split; try reflexivity. vm_compute. discriminate.
Qed.

(** From the power-on value 0 the two writes make exactly one [bootstrap]
    call. *)
Lemma reset_handshake_from_power_on :
  (0 <= 3 < 2 ^ 32)
  /\ exists d1 d2,
    gp_write blank_device NV_PAPU_GPRST 3 4 = Done d1
    /\ gp_write d1 NV_PAPU_GPRST 3 4 = Done d2
    /\ count_calls is_bootstrap (gp_dsp d2) = 1%nat.
Proof.
  assert (H3 : 0 <= 3 < 2 ^ 32) by lia.
  split; [exact H3|].
  destruct (reset_handshake blank_device 3 3 H3 H3)
    as (d1 & d2 & E1 & E2 & _ & _ & _ & _ & _ & Hc & _).
  exists d1, d2. split; [exact E1|]. split; [exact E2|].
  destruct (Hc eq_refl eq_refl) as [_ Hn]. exact Hn.
Defined.

(** ** The VP command window *)

Lemma vp_dispatch_some (addr m : Z) :
  vp_dispatch addr = Some m ->
  m = addr
  /\ (addr = NV1BA0_PIO_SET_ANTECEDENT_VOICE \/ addr = NV1BA0_PIO_VOICE_ON
      \/ addr = NV1BA0_PIO_VOICE_OFF \/ addr = NV1BA0_PIO_VOICE_PAUSE
      \/ addr = NV1BA0_PIO_SET_CURRENT_VOICE).
Proof.
  unfold vp_dispatch.
  destruct (Z.eqb_spec addr NV1BA0_PIO_SET_ANTECEDENT_VOICE) as [->|];
    [intros [= <-]; split; [reflexivity|tauto]|].
  destruct (Z.eqb_spec addr NV1BA0_PIO_VOICE_ON) as [->|];
    [intros [= <-]; split; [reflexivity|tauto]|].
  destruct (Z.eqb_spec addr NV1BA0_PIO_VOICE_OFF) as [->|];
    [intros [= <-]; split; [reflexivity|tauto]|].
  destruct (Z.eqb_spec addr NV1BA0_PIO_VOICE_PAUSE) as [->|];
    [intros [= <-]; split; [reflexivity|tauto]|].
  destruct (Z.eqb_spec addr NV1BA0_PIO_SET_CURRENT_VOICE) as [->|];
    [intros [= <-]; split; [reflexivity|tauto]|].
  discriminate.
Qed.

(** What a voice accessor can do: it either completes, leaving everything but
    guest memory as it was, or stops on its handle assertion. *)
Lemma voice_set_mask_cases (d : MCPXAPUState) (h off mask val : Z) :
  (exists m, voice_set_mask d h off mask val = Done (set_mem d m))
  \/ voice_set_mask d h off mask val = Abort A_voice_handle.
Proof.
  unfold voice_set_mask, assert.
  destruct (h <? 0xFFFF); cbn [bind]; [left; eexists; reflexivity | now right].
Qed.

Lemma voice_get_mask_cases (d : MCPXAPUState) (h off mask : Z) :
  (exists v, voice_get_mask d h off mask = Done v)
  \/ voice_get_mask d h off mask = Abort A_voice_handle.
Proof.
  unfold voice_get_mask, assert.
  destruct (h <? 0xFFFF); cbn [bind]; [left; eexists; reflexivity | now right].
Qed.

Lemma fe_voice_on_cases (d : MCPXAPUState) (arg : Z) :
  (exists d', fe_voice_on d arg = Done d'
              /\ same_regs_but d d' [NV_PAPU_TVL2D; NV_PAPU_TVL3D; NV_PAPU_TVLMP])
  \/ fe_voice_on d arg = Abort A_voice_handle
  \/ fe_voice_on d arg = Abort A_antecedent.
Proof.
  unfold fe_voice_on.
  set (h := Z.land arg NV1BA0_PIO_VOICE_ON_HANDLE).
  set (l := GET_MASK (regs d NV_PAPU_FEAV) NV_PAPU_FEAV_LST).
  set (a := GET_MASK (regs d NV_PAPU_FEAV) NV_PAPU_FEAV_VALUE).
  assert (Hl : l = 0 \/ l = 1 \/ l = 2 \/ l = 3).
  { unfold l, GET_MASK. change (ctz32 NV_PAPU_FEAV_LST) with 16.
    change NV_PAPU_FEAV_LST with (Z.shiftl (Z.ones 2) 16).
    assert (E : Z.shiftr (Z.land (regs d NV_PAPU_FEAV) (Z.shiftl (Z.ones 2) 16)) 16
                = Z.land (Z.shiftr (regs d NV_PAPU_FEAV) 16) (Z.ones 2)) by Z.bitblast.
    rewrite E, Z.land_ones by lia.
    pose proof (Z.mod_pos_bound (Z.shiftr (regs d NV_PAPU_FEAV) 16) (2 ^ 2) eq_refl).
    change (2 ^ 2) with 4 in *. lia. }
  destruct (Z.eqb_spec l NV1BA0_PIO_SET_ANTECEDENT_VOICE_LIST_INHERIT) as [E|E]; cbn [negb].
  - unfold assert. destruct (negb (a =? 65535)); cbn [bind]; [|tauto].
    destruct (voice_get_mask_cases d a NV_PAVS_VOICE_TAR_PITCH_LINK
                NV_PAVS_VOICE_TAR_PITCH_LINK_NEXT_VOICE_HANDLE) as [[v ->]| ->];
      cbn [bind]; [|tauto].
    destruct (voice_set_mask_cases d h NV_PAVS_VOICE_TAR_PITCH_LINK
                NV_PAVS_VOICE_TAR_PITCH_LINK_NEXT_VOICE_HANDLE v) as [[m1 ->]| ->];
      cbn [bind]; [|tauto].
    destruct (voice_set_mask_cases (set_mem d m1) a NV_PAVS_VOICE_TAR_PITCH_LINK
                NV_PAVS_VOICE_TAR_PITCH_LINK_NEXT_VOICE_HANDLE h) as [[m2 ->]| ->];
      cbn [bind]; [|tauto].
    destruct (voice_set_mask_cases (set_mem (set_mem d m1) m2) h NV_PAVS_VOICE_PAR_STATE
                NV_PAVS_VOICE_PAR_STATE_ACTIVE_VOICE 1) as [[m3 ->]| ->]; [|tauto].
    left. eexists. split; [reflexivity|]. repeat split.
  - set (top := vl_top (voice_list_reg_at (l - 1))).
    destruct (voice_set_mask_cases d h NV_PAVS_VOICE_TAR_PITCH_LINK
                NV_PAVS_VOICE_TAR_PITCH_LINK_NEXT_VOICE_HANDLE (regs d top)) as [[m1 ->]| ->];
      cbn [bind]; [|tauto].
    destruct (voice_set_mask_cases (set_reg (set_mem d m1) top h) h NV_PAVS_VOICE_PAR_STATE
                NV_PAVS_VOICE_PAR_STATE_ACTIVE_VOICE 1) as [[m3 ->]| ->]; [|tauto].
    left. eexists. split; [reflexivity|]. repeat split.
    intros r Hr. cbn [regs set_mem set_reg]. apply upd_other.
    intros <-. apply Hr.
    unfold top, NV1BA0_PIO_SET_ANTECEDENT_VOICE_LIST_INHERIT in *.
    destruct Hl as [->|[->|[->| ->]]]; cbn; tauto.
Qed.

(** C10.  A guest write to the VP window at an offset other than 0x120, 0x124,
    0x128, 0x140 and 0x2F8 hands nothing to [fe_method] and returns the device
    unchanged; offset 0x8000, the code of [SE2FE_IDLE_VOICE], is such an
    offset.  Whatever the offset, [vp_write] never hands [SE2FE_IDLE_VOICE] to
    [fe_method], never stops on the [assert(false)] of the unknown-method or
    of the idle-voice branch, and leaves [FECTL], [ISTS] and the interrupt
    line, which the trap path writes, as they were. *)
Theorem vp_write_unrecognised_inert (d : MCPXAPUState) (addr val : Z) :
  (addr <> NV1BA0_PIO_SET_ANTECEDENT_VOICE ->
   addr <> NV1BA0_PIO_VOICE_ON ->
   addr <> NV1BA0_PIO_VOICE_OFF ->
   addr <> NV1BA0_PIO_VOICE_PAUSE ->
   addr <> NV1BA0_PIO_SET_CURRENT_VOICE ->
   vp_dispatch addr = None /\ vp_write d addr val = Done d)
  /\ vp_dispatch SE2FE_IDLE_VOICE = None
  /\ vp_write d SE2FE_IDLE_VOICE val = Done d
  /\ vp_dispatch addr <> Some SE2FE_IDLE_VOICE
  /\ vp_write d addr val <> Abort A_unknown_method
  /\ vp_write d addr val <> Abort A_idle_voice_disabled
  /\ (forall d', vp_write d addr val = Done d' ->
        regs d' NV_PAPU_FECTL = regs d NV_PAPU_FECTL
        /\ regs d' NV_PAPU_ISTS = regs d NV_PAPU_ISTS
        /\ irq d' = irq d).
Proof.
  split.
  { intros H1 H2 H3 H4 H5.
    assert (E : vp_dispatch addr = None).
    { unfold vp_dispatch.
      destruct (Z.eqb_spec addr NV1BA0_PIO_SET_ANTECEDENT_VOICE); [contradiction|].
      destruct (Z.eqb_spec addr NV1BA0_PIO_VOICE_ON); [contradiction|].
      destruct (Z.eqb_spec addr NV1BA0_PIO_VOICE_OFF); [contradiction|].
      destruct (Z.eqb_spec addr NV1BA0_PIO_VOICE_PAUSE); [contradiction|].
      destruct (Z.eqb_spec addr NV1BA0_PIO_SET_CURRENT_VOICE); [contradiction|].
      reflexivity. }
    split; [exact E|]. unfold vp_write. now rewrite E. }
  split; [reflexivity|]. split; [reflexivity|].
  split.
  { intros H. apply vp_dispatch_some in H. destruct H as [H [H'|[H'|[H'|[H'|H']]]]];
      rewrite <- H in H'; discriminate. }
  unfold vp_write. destruct (vp_dispatch addr) as [m|] eqn:E.
  2:{ split; [discriminate|]. split; [discriminate|]. intros d' [= <-]. auto. }
  apply vp_dispatch_some in E. destruct E as [-> E].
  set (d0 := set_reg (set_reg d NV_PAPU_FEDECMETH addr) NV_PAPU_FEDECPARAM (wrap32 val)).
  assert (R : forall a, a <> NV_PAPU_FEDECMETH -> a <> NV_PAPU_FEDECPARAM ->
                        regs d0 a = regs d a).
  { intros a Ha Hb. unfold d0. cbn [regs set_reg]. now rewrite !upd_other by congruence. }
  destruct E as [->|[->|[->|[->| ->]]]].
  - change (fe_method d NV1BA0_PIO_SET_ANTECEDENT_VOICE (wrap32 val))
      with (Done (set_reg d0 NV_PAPU_FEAV (wrap32 val))).
    split; [discriminate|]. split; [discriminate|]. intros d' [= <-].
    cbn [regs set_reg irq]. rewrite !upd_other by discriminate.
    rewrite !R by discriminate. auto.
  - change (fe_method d NV1BA0_PIO_VOICE_ON (wrap32 val))
      with (fe_voice_on d0 (wrap32 val)).
    destruct (fe_voice_on_cases d0 (wrap32 val)) as [(d1 & -> & S)|[-> | ->]].
    + split; [discriminate|]. split; [discriminate|]. intros d' [= <-].
      destruct S as (S & _ & _ & _ & _ & S' & _).
      rewrite !S by (cbn; intuition discriminate). rewrite !R by discriminate. auto.
    + split; [discriminate|]. split; discriminate.
    + split; [discriminate|]. split; discriminate.
  - change (fe_method d NV1BA0_PIO_VOICE_OFF (wrap32 val))
      with (voice_set_mask d0 (Z.land (wrap32 val) NV1BA0_PIO_VOICE_OFF_HANDLE)
              NV_PAVS_VOICE_PAR_STATE NV_PAVS_VOICE_PAR_STATE_ACTIVE_VOICE 0).
    destruct (voice_set_mask_cases d0 (Z.land (wrap32 val) NV1BA0_PIO_VOICE_OFF_HANDLE)
              NV_PAVS_VOICE_PAR_STATE NV_PAVS_VOICE_PAR_STATE_ACTIVE_VOICE 0) as [[m ->]| ->].
    + split; [discriminate|]. split; [discriminate|]. intros d' [= <-].
      cbn [regs set_mem irq]. rewrite !R by discriminate. auto.
    + split; [discriminate|]. split; discriminate.
  - set (v := if negb (Z.land (wrap32 val) NV1BA0_PIO_VOICE_PAUSE_ACTION =? 0) then 1 else 0).
    change (fe_method d NV1BA0_PIO_VOICE_PAUSE (wrap32 val))
      with (voice_set_mask d0 (Z.land (wrap32 val) NV1BA0_PIO_VOICE_PAUSE_HANDLE)
              NV_PAVS_VOICE_PAR_STATE NV_PAVS_VOICE_PAR_STATE_PAUSED v).
    destruct (voice_set_mask_cases d0 (Z.land (wrap32 val) NV1BA0_PIO_VOICE_PAUSE_HANDLE)
              NV_PAVS_VOICE_PAR_STATE NV_PAVS_VOICE_PAR_STATE_PAUSED v) as [[m ->]| ->].
    + split; [discriminate|]. split; [discriminate|]. intros d' [= <-].
      cbn [regs set_mem irq]. rewrite !R by discriminate. auto.
    + split; [discriminate|]. split; discriminate.
  - change (fe_method d NV1BA0_PIO_SET_CURRENT_VOICE (wrap32 val))
      with (Done (set_reg d0 NV_PAPU_FECV (wrap32 val))).
    split; [discriminate|]. split; [discriminate|]. intros d' [= <-].
    cbn [regs set_reg irq]. rewrite !upd_other by discriminate.
    rewrite !R by discriminate. auto.
Qed.

(** C10 at offset 0x8000 on the blank device. *)
Lemma vp_write_idle_code_inert :
  vp_dispatch SE2FE_IDLE_VOICE = None
  /\ vp_write blank_device SE2FE_IDLE_VOICE 5 = Done blank_device.
Proof.
  apply (proj1 (vp_write_unrecognised_inert blank_device SE2FE_IDLE_VOICE 5));
    discriminate.
Defined.

(** ** Frame scheduler *)

Lemma same_processors_refl d : same_processors d d.
Proof. repeat split. Qed.

Lemma same_processors_trans d1 d2 d3 :
  same_processors d1 d2 -> same_processors d2 d3 -> same_processors d1 d3.
Proof. unfold same_processors. intuition congruence. Qed.

Lemma same_processors_set_reg d a v : same_processors d (set_reg d a v).
Proof. repeat split. Qed.

Lemma same_processors_update_irq d : same_processors d (update_irq d).
Proof. unfold update_irq. destruct (_ && _); repeat split. Qed.

Lemma fe_idle_voice_processors d d' :
  fe_idle_voice d = Done d' -> same_processors d d'.
Proof.
  unfold fe_idle_voice. destruct (negb _); [|discriminate]. intros [= <-].
  eapply same_processors_trans; [|apply same_processors_update_irq].
  repeat split.
Qed.

Lemma voice_list_loop_processors fuel : forall d mixbins current next r,
  voice_list_loop fuel d mixbins current next = Done r ->
  same_processors d (fst r).
Proof.
  induction fuel as [|fuel IH]; intros d mixbins current next r; cbn [voice_list_loop].
  - discriminate.
  - destruct (negb (regs d current =? 65535)).
    2:{ intros [= <-]. apply same_processors_refl. }
    destruct (voice_get_mask d (regs d current) NV_PAVS_VOICE_TAR_PITCH_LINK
                NV_PAVS_VOICE_TAR_PITCH_LINK_NEXT_VOICE_HANDLE) as [n| |];
      cbn [bind]; try discriminate.
    set (d1 := set_reg d next n).
    destruct (voice_get_mask d1 (regs d1 current) NV_PAVS_VOICE_PAR_STATE
                NV_PAVS_VOICE_PAR_STATE_ACTIVE_VOICE) as [a| |];
      cbn [bind]; try discriminate.
    destruct (a =? 0).
    + rewrite fe_method_idle.
      destruct (fe_idle_voice _) as [d'| |] eqn:E; cbn [bind fst snd]; try discriminate.
      intros H. apply IH in H. apply fe_idle_voice_processors in E.
      eapply same_processors_trans; [|exact H].
      eapply same_processors_trans; [|apply same_processors_set_reg].
      eapply same_processors_trans; [|exact E]. repeat split.
    + cbn [bind fst snd]. intros H. apply IH in H.
      eapply same_processors_trans; [|exact H]. repeat split.
Qed.

Lemma voice_lists_processors fuel ls : forall d mixbins r,
  voice_lists fuel ls d mixbins = Done r -> same_processors d (fst r).
Proof.
  induction ls as [|l ls IH]; intros d mixbins r; cbn [voice_lists].
  - intros [= <-]. apply same_processors_refl.
  - destruct (voice_list_loop fuel _ mixbins (vl_current l) (vl_next l)) as [r1| |] eqn:E;
      cbn [bind]; try discriminate.
    intros H. apply IH in H. apply voice_list_loop_processors in E.
    eapply same_processors_trans; [|exact H].
    eapply same_processors_trans; [|exact E]. repeat split.
Qed.

Lemma voice_get_mask_same d d' h off mask :
  same_voices d d' -> voice_get_mask d' h off mask = voice_get_mask d h off mask.
Proof.
  intros (Hm & Hv & _). unfold voice_get_mask, voice_addr. now rewrite Hm, Hv.
Qed.

Lemma voice_chain_same n : forall d d' h,
  same_voices d d' -> voice_chain d n h -> voice_chain d' n h.
Proof.
  induction n as [|n IH]; intros d d' h Hs; cbn [voice_chain]; [auto|].
  unfold next_link, voice_active. rewrite !(voice_get_mask_same d d') by assumption.
  destruct (voice_get_mask d h _ _) as [nxt| |]; auto.
  destruct (voice_get_mask d h _ _) as [act| |]; auto.
  destruct Hs as (Hm & Hv & Hf). rewrite Hf. intros [Hc Hn]. split; [exact Hc|].
  apply (IH d); [repeat split; assumption | exact Hn].
Qed.

Lemma voice_get_mask_handle d h off mask v :
  voice_get_mask d h off mask = Done v -> h < 0xFFFF.
Proof.
  unfold voice_get_mask, assert. destruct (Z.ltb_spec h 0xFFFF); [auto|discriminate].
Qed.

Lemma update_irq_mem d : mem (update_irq d) = mem d.
Proof. unfold update_irq. destruct (_ && _); reflexivity. Qed.

Lemma fe_idle_voice_frame d d' :
  fe_idle_voice d = Done d' ->
  mem d' = mem d
  /\ forall a, a <> NV_PAPU_FECTL -> a <> NV_PAPU_ISTS -> regs d' a = regs d a.
Proof.
  unfold fe_idle_voice. destruct (negb _); [|discriminate]. intros [= <-].
  split; [now rewrite update_irq_mem|].
  intros a H1 H2. rewrite update_irq_regs by assumption.
  cbn [regs set_reg]. now rewrite !upd_other by congruence.
Qed.

Lemma fe_idle_voice_enabled d :
  Z.testbit (regs d NV_PAPU_FETFORCE1) 15 = true ->
  exists d', fe_idle_voice d = Done d'.
Proof.
  intros H. unfold fe_idle_voice.
  change NV_PAPU_FETFORCE1_SE2FE_IDLE_VOICE with (2 ^ 15).
  rewrite land_pow2_eqb by lia. rewrite H. cbn [negb]. eexists. reflexivity.
Qed.

(** Discharges [a <> b] between registers from what is known of the iterator
    registers. *)
Ltac reg_diff :=
  let H := fresh in
  intro H;
  first
    [ discriminate H
    | congruence
    | match goal with
      | Hi : iterator_reg _ |- _ =>
          apply Hi; first [rewrite H | rewrite <- H]; cbn; tauto
      | Ht : ~ trap_reg _ |- _ =>
          apply Ht; first [rewrite H | rewrite <- H]; cbn; tauto
      end ].

Lemma voice_list_loop_complete (n : nat) :
  forall fuel d mixbins current next,
    (n < fuel)%nat ->
    current <> next -> iterator_reg current -> iterator_reg next ->
    voice_chain d n (regs d current) ->
    exists d',
      voice_list_loop fuel d mixbins current next = Done (d', mixbins)
      /\ mem d' = mem d
      /\ forall a, a <> current -> a <> next -> ~ trap_reg a -> regs d' a = regs d a.
Proof.
  induction n as [|n IH]; intros fuel d mixbins current next Hf Hcn Hc Hn Hchain;
    (destruct fuel as [|fuel]; [lia|]); cbn [voice_list_loop]; cbn [voice_chain] in Hchain.
  - rewrite Hchain. cbn. exists d. auto.
  - unfold next_link, voice_active in Hchain.
    destruct (voice_get_mask d (regs d current) NV_PAVS_VOICE_TAR_PITCH_LINK
                NV_PAVS_VOICE_TAR_PITCH_LINK_NEXT_VOICE_HANDLE) as [nx| |] eqn:En;
      try contradiction.
    destruct (voice_get_mask d (regs d current) NV_PAVS_VOICE_PAR_STATE
                NV_PAVS_VOICE_PAR_STATE_ACTIVE_VOICE) as [act| |] eqn:Ea;
      try contradiction.
    destruct Hchain as [Hact Hrest].
    pose proof (voice_get_mask_handle _ _ _ _ _ En) as Hh.
    replace (regs d current =? 65535) with false by (symmetry; apply Z.eqb_neq; lia).
    cbn [negb bind].
    set (d1 := set_reg d next nx).
    assert (Hcur1 : regs d1 current = regs d current)
      by (unfold d1; cbn [regs set_reg]; apply upd_other; congruence).
    assert (Hs1 : same_voices d d1).
    { unfold d1. split; [reflexivity|].
      split; cbn [regs set_reg]; apply upd_other; reg_diff. }
    rewrite Hcur1, (voice_get_mask_same d d1) by assumption. rewrite Ea. cbn [bind].
    assert (Hstep : exists d2,
               (if act =? 0
                then d' <- fe_method d1 SE2FE_IDLE_VOICE (regs d current) ;;
                     Done (d', mixbins)
                else Done (d1, process_voice d1 mixbins (regs d current)))
               = Done (d2, mixbins)
               /\ mem d2 = mem d
               /\ (forall a, a <> next -> ~ trap_reg a -> regs d2 a = regs d a)
               /\ regs d2 next = nx).
    { destruct (Z.eqb_spec act 0) as [E0|E0].
      - destruct Hact as [Hact|Htrap]; [contradiction|].
        rewrite fe_method_idle.
        set (d1' := set_reg (set_reg d1 NV_PAPU_FEDECMETH SE2FE_IDLE_VOICE)
                            NV_PAPU_FEDECPARAM (regs d current)).
        assert (Hreg : forall a, ~ trap_reg a -> regs d1' a = regs d1 a).
        { intros a Ha. unfold d1'. cbn [regs set_reg].
          rewrite !upd_other; [reflexivity | reg_diff | reg_diff]. }
        assert (Hnt : ~ trap_reg next) by (intros Ht; apply Hn; cbn in *; tauto).
        assert (Ht : Z.testbit (regs d1' NV_PAPU_FETFORCE1) 15 = true).
        { rewrite Hreg by (cbn; intuition discriminate).
          destruct Hs1 as (_ & _ & ->). exact Htrap. }
        destruct (fe_idle_voice_enabled d1' Ht) as [d2 E2].
        rewrite E2. cbn [bind]. exists d2. split; [reflexivity|].
        destruct (fe_idle_voice_frame d1' d2 E2) as [Hm Hr].
        split; [exact Hm|]. split.
        + intros a Ha Ht'. rewrite Hr by reg_diff. rewrite Hreg by assumption.
          unfold d1. cbn [regs set_reg]. apply upd_other. congruence.
        + rewrite Hr by reg_diff. rewrite Hreg by assumption.
          unfold d1. cbn [regs set_reg]. apply upd_same.
      - exists d1. split; [reflexivity|]. split; [reflexivity|]. split.
        + intros a Ha _. unfold d1. cbn [regs set_reg]. apply upd_other. congruence.
        + unfold d1. cbn [regs set_reg]. apply upd_same. }
    destruct Hstep as (d2 & -> & Hm2 & Hr2 & Hn2). cbn [bind fst snd].
    rewrite Hn2.
    set (d3 := set_reg d2 current nx).
    assert (Hs3 : same_voices d d3).
    { unfold d3. split; [exact Hm2|].
      split; cbn [regs set_reg]; (rewrite upd_other by reg_diff);
        apply Hr2; try reg_diff; cbn; intuition discriminate. }
    destruct (IH fuel d3 mixbins current next) as (d' & E' & Hm' & Hr');
      [lia | assumption | assumption | assumption | |].
    { apply (voice_chain_same n d d3 _ Hs3).
      unfold d3. cbn [regs set_reg]. now rewrite upd_same. }
    exists d'. split; [exact E'|]. split; [now rewrite Hm'|].
    intros a Ha Hb Ht. rewrite Hr' by assumption.
    unfold d3. cbn [regs set_reg mem]. rewrite upd_other by congruence.
    now apply Hr2.
Qed.

Lemma voice_list_pass (fuel : nat) (d : MCPXAPUState) (mixbins : mixbins_t)
    (l : voice_list_reg) (n : nat) :
  (n < fuel)%nat ->
  vl_current l <> vl_next l ->
  iterator_reg (vl_current l) -> iterator_reg (vl_next l) ->
  voice_chain d n (regs d (vl_top l)) ->
  exists d',
    voice_list_loop fuel (set_reg d (vl_current l) (regs d (vl_top l))) mixbins
                    (vl_current l) (vl_next l) = Done (d', mixbins)
    /\ same_voices d d'
    /\ forall a, a <> vl_current l -> a <> vl_next l -> ~ trap_reg a ->
                 regs d' a = regs d a.
Proof.
  intros Hf Hcn Hc Hn Hchain.
  set (d0 := set_reg d (vl_current l) (regs d (vl_top l))).
  assert (Hs0 : same_voices d d0).
  { unfold d0. split; [reflexivity|].
    split; cbn [regs set_reg]; apply upd_other; reg_diff. }
  destruct (voice_list_loop_complete n fuel d0 mixbins (vl_current l) (vl_next l))
    as (d' & E' & Hm & Hr); [assumption.. | |].
  { apply (voice_chain_same n d d0 _ Hs0).
    unfold d0. cbn [regs set_reg]. now rewrite upd_same. }
  assert (Hr' : forall a, a <> vl_current l -> a <> vl_next l -> ~ trap_reg a ->
                          regs d' a = regs d a).
  { intros a Ha Hb Ht. rewrite Hr by assumption.
    unfold d0. cbn [regs set_reg]. apply upd_other. congruence. }
  exists d'. split; [exact E'|]. split; [|exact Hr'].
  split; [now rewrite Hm|].
  split; apply Hr'; try reg_diff; unfold trap_reg; cbn; intuition discriminate.
Qed.

(** Enough fuel lets the scheduler walk three well-formed lists to their
    ends. *)
Lemma voice_lists_complete (fuel : nat) (d : MCPXAPUState) (mixbins : mixbins_t)
    (n1 n2 n3 : nat) :
  (n1 < fuel)%nat -> (n2 < fuel)%nat -> (n3 < fuel)%nat ->
  voice_chain d n1 (TOP d 1) -> voice_chain d n2 (TOP d 2) ->
  voice_chain d n3 (TOP d 3) ->
  exists d', voice_lists fuel voice_list_regs d mixbins = Done (d', mixbins).
Proof.
  intros H1 H2 H3 C1 C2 C3.
  unfold voice_list_regs. cbn [voice_lists].
  destruct (voice_list_pass fuel d mixbins
              {| vl_top := NV_PAPU_TVL2D; vl_current := NV_PAPU_CVL2D;
                 vl_next := NV_PAPU_NVL2D |} n1)
    as (d1 & E1 & S1 & R1);
    [exact H1 | discriminate | unfold iterator_reg; cbn; intuition discriminate
     | unfold iterator_reg; cbn; intuition discriminate | exact C1 |].
  cbn [vl_top vl_current vl_next] in *. rewrite E1. cbn [bind fst snd].
  destruct (voice_list_pass fuel d1 mixbins
              {| vl_top := NV_PAPU_TVL3D; vl_current := NV_PAPU_CVL3D;
                 vl_next := NV_PAPU_NVL3D |} n2)
    as (d2 & E2 & S2 & R2);
    [exact H2 | discriminate | unfold iterator_reg; cbn; intuition discriminate
     | unfold iterator_reg; cbn; intuition discriminate | |].
  { cbn [vl_top]. rewrite R1 by (try discriminate; unfold trap_reg; cbn; intuition discriminate).
    apply (voice_chain_same n2 d d1 _ S1). exact C2. }
  cbn [vl_top vl_current vl_next] in *. rewrite E2. cbn [bind fst snd].
  destruct (voice_list_pass fuel d2 mixbins
              {| vl_top := NV_PAPU_TVLMP; vl_current := NV_PAPU_CVLMP;
                 vl_next := NV_PAPU_NVLMP |} n3)
    as (d3 & E3 & S3 & R3);
    [exact H3 | discriminate | unfold iterator_reg; cbn; intuition discriminate
     | unfold iterator_reg; cbn; intuition discriminate | |].
  { cbn [vl_top]. rewrite R2, R1 by (try discriminate; unfold trap_reg; cbn; intuition discriminate).
    apply (voice_chain_same n3 d1 d2 _ S2).
    apply (voice_chain_same n3 d d1 _ S1). exact C3. }
  cbn [vl_top vl_current vl_next] in *. rewrite E3. cbn [bind fst snd].
  exists d3. reflexivity.
Qed.

(** C9.  On a frame tick whose voice-list traversal completes, [se_frame]
    completes; after the traversal the GP call log receives the writes that
    publish the mix, followed by [start_frame] and [run(1000)] exactly when the
    GP reset register has both [GPRST] and [GPDSPRST] set, and by nothing
    otherwise; the EP call log receives [start_frame] alone exactly when the EP
    reset register has both bits set, and nothing otherwise.  The traversal
    does complete, within [fuel] iterations per list, when the three lists are
    well-formed chains shorter than [fuel]. *)
Theorem se_frame_kickoff (fuel : nat) (now_ms : Z) (d : MCPXAPUState) :
  let d0 := set_timer d (Some (now_ms + 10)) in
  (forall r,
     voice_lists fuel voice_list_regs d0 zero_mixbins = Done r ->
     exists d',
       se_frame fuel now_ms d = Done d'
       /\ gp_dsp d' = gp_dsp d ++ mixbuf_writes (snd r)
                      ++ (if both_reset_bits (gp_regs d NV_PAPU_GPRST)
                          then [dsp_start_frame; dsp_run 1000] else [])
       /\ ep_dsp d' = ep_dsp d
                      ++ (if both_reset_bits (ep_regs d NV_PAPU_EPRST)
                          then [dsp_start_frame] else []))
  /\ (forall n1 n2 n3,
        (n1 < fuel)%nat -> (n2 < fuel)%nat -> (n3 < fuel)%nat ->
        voice_chain d n1 (TOP d 1) -> voice_chain d n2 (TOP d 2) ->
        voice_chain d n3 (TOP d 3) ->
        exists d1, voice_lists fuel voice_list_regs d0 zero_mixbins
                   = Done (d1, zero_mixbins)).
Proof.
  intros d0. split.
  - intros r H. unfold se_frame. fold d0. rewrite H. cbn [bind].
    eexists. split; [reflexivity|].
    apply voice_lists_processors in H. destruct H as (Hg & He & Hgd & Hed).
    cbn [gp_regs ep_regs gp_dsp ep_dsp set_timer d0] in *.
    unfold se_kickoff. cbn [gp_regs ep_regs gp_call].
    change NV_PAPU_GPRST_GPRST with (2 ^ 0). change NV_PAPU_GPRST_GPDSPRST with (2 ^ 1).
    rewrite !land_pow2_eqb by lia. rewrite !negb_involutive.
    rewrite Hg. fold (both_reset_bits (gp_regs d NV_PAPU_GPRST)).
    destruct (both_reset_bits (gp_regs d NV_PAPU_GPRST));
      cbn [ep_regs gp_call]; rewrite He;
      fold (both_reset_bits (ep_regs d NV_PAPU_EPRST));
      destruct (both_reset_bits (ep_regs d NV_PAPU_EPRST));
      cbn [gp_dsp ep_dsp gp_call ep_call]; rewrite Hgd, Hed, <- ?app_assoc, ?app_nil_r;
      split; reflexivity.
  - intros n1 n2 n3 H1 H2 H3 C1 C2 C3.
    assert (Hs : same_voices d d0) by (repeat split).
    apply (voice_lists_complete fuel d0 zero_mixbins n1 n2 n3); try assumption.
    + apply (voice_chain_same n1 d d0 _ Hs). exact C1.
    + apply (voice_chain_same n2 d d0 _ Hs). exact C2.
    + apply (voice_chain_same n3 d d0 _ Hs). exact C3.
Qed.

(** C9 on scenario S4: one active voice on the 2D list, one inactive voice on
    the 3D list with the trap enabled, both processors released from reset.
    The tick completes, GP receives the mix, [start_frame] and [run(1000)],
    EP receives [start_frame] only. *)
Lemma se_frame_kickoff_S4 :
  voice_chain frame_busy_device 1 (TOP frame_busy_device 1)
  /\ voice_chain frame_busy_device 1 (TOP frame_busy_device 2)
  /\ voice_chain frame_busy_device 0 (TOP frame_busy_device 3)
  /\ exists d',
       se_frame 2 0 frame_busy_device = Done d'
       /\ gp_dsp d' = mixbuf_writes zero_mixbins ++ [dsp_start_frame; dsp_run 1000]
       /\ ep_dsp d' = [dsp_start_frame].
Proof.
  assert (C1 : voice_chain frame_busy_device 1 (TOP frame_busy_device 1))
    by (vm_compute; split; [left; discriminate | reflexivity]).
  assert (C2 : voice_chain frame_busy_device 1 (TOP frame_busy_device 2))
    by (vm_compute; split; [right; reflexivity | reflexivity]).
  assert (C3 : voice_chain frame_busy_device 0 (TOP frame_busy_device 3))
    by reflexivity.
  split; [exact C1|]. split; [exact C2|]. split; [exact C3|].
  destruct (se_frame_kickoff 2 0 frame_busy_device) as [Hk Ht].
  destruct (Ht 1%nat 1%nat 0%nat ltac:(lia) ltac:(lia) ltac:(lia) C1 C2 C3) as [d1 E1].
  destruct (Hk _ E1) as (d' & E & Hg & He).
  exists d'. split; [exact E|]. split; [exact Hg|exact He].
Defined.

(** ** Scatter/gather DMA: termination and the circular cursor *)

Lemma ring_advance_zero (base end_ cur : Z) :
  base <= cur < end_ -> ring_advance base end_ cur 0 = cur.
Proof.
  intros H. unfold ring_advance. rewrite Z.add_0_r, Z.mod_small by lia. lia.
Qed.

Lemma ring_advance_range (base end_ cur len : Z) :
  base < end_ -> base <= ring_advance base end_ cur len < end_.
Proof.
  intros H. unfold ring_advance.
  pose proof (Z.mod_pos_bound (cur - base + len) (end_ - base)). lia.
Qed.

Lemma ring_advance_add (base end_ cur n m : Z) :
  base < end_ ->
  ring_advance base end_ (ring_advance base end_ cur n) m
  = ring_advance base end_ cur (n + m).
Proof.
  intros H. unfold ring_advance.
  replace (base + (cur - base + n) mod (end_ - base) - base + m)
    with ((cur - base + n) mod (end_ - base) + m) by lia.
  rewrite Z.add_mod_idemp_l by lia. f_equal. f_equal. lia.
Qed.

Lemma ring_advance_chunk (base end_ cur n : Z) :
  base <= cur < end_ -> 0 <= n <= end_ - cur ->
  ring_advance base end_ cur n = if cur + n =? end_ then base else cur + n.
Proof.
  intros Hc Hn. unfold ring_advance.
  destruct (Z.eqb_spec (cur + n) end_) as [E|E].
  - replace (cur - base + n) with (end_ - base) by lia.
    rewrite Z.mod_same by lia. lia.
  - rewrite Z.mod_small by lia. lia.
Qed.

Section DMA_cursor.

Variable P : Z.
Hypothesis P_pos : 0 < P.

Lemma sg_loop_outcome (fuel : nat) :
  forall d sge_base max_sge buf page_entry offset_in_page bytes_to_copy len dir,
    0 < bytes_to_copy ->
    (Z.to_nat len < fuel)%nat ->
    sg_outcome_ok (sg_loop P fuel d sge_base max_sge buf page_entry offset_in_page
                           bytes_to_copy len dir).
Proof.
  induction fuel as [|fuel IH]; intros d sb mx buf pe off btc len dir Hb Hf; [lia|].
  cbn [sg_loop].
  destruct (Z.gtb_spec len 0) as [Hl|Hl]; [|exact I].
  unfold assert.
  destruct (pe <=? mx); cbn [bind]; [|now left].
  set (n := if btc >? len then len else btc).
  assert (Hn : 0 < n <= len) by (unfold n; destruct (Z.gtb_spec btc len); lia).
  destruct (_ <? ram_size d); cbn [bind]; [|now right].
  match goal with |- sg_outcome_ok (bind ?m _) =>
    assert (H : sg_outcome_ok m) by (apply IH; [exact P_pos | lia]);
    destruct m as [r| |]; cbn [bind]; [exact I | exact H | exact H] end.
Qed.

Lemma scatter_gather_rw_outcome d sge_base max_sge buf addr len dir :
  0 <= addr ->
  sg_outcome_ok (scatter_gather_rw P d sge_base max_sge buf addr len dir).
Proof.
  intros Ha. unfold scatter_gather_rw. apply sg_loop_outcome; [|lia].
  pose proof (Z.mod_pos_bound addr P P_pos). lia.
Qed.

(** One iteration of the circular loop inside its window. *)
Lemma csg_step (fuel : nat) d sge_base max_sge buf base end_ cur len dir :
  0 <= base -> base <= cur < end_ -> end_ < 2 ^ 32 -> 0 < len ->
  let n := Z.min (end_ - cur) len in
  csg_loop P (S fuel) d sge_base max_sge buf base end_ cur len dir
  = (r <- scatter_gather_rw P d sge_base max_sge buf cur n dir ;;
     r' <- csg_loop P fuel (fst r) sge_base max_sge (skipn (Z.to_nat n) (snd r))
             base end_ (ring_advance base end_ cur n) (len - n) dir ;;
     Done (fst (fst r'), firstn (Z.to_nat n) (snd r) ++ snd (fst r'), snd r')).
Proof.
  intros Hb Hc He Hl n. cbn [csg_loop].
  replace (len >? 0) with true by (symmetry; apply Z.gtb_lt; lia).
  rewrite (wrap32_small (end_ - cur)) by lia.
  assert (En : (if end_ - cur >? len then len else end_ - cur) = n).
  { unfold n. destruct (Z.gtb_spec (end_ - cur) len); lia. }
  rewrite En.
  assert (Hn : 0 < n <= end_ - cur) by (unfold n; lia).
  rewrite (wrap32_small (cur + n)) by lia.
  unfold assert.
  replace ((cur >=? base) && (cur + n <=? end_)) with true
    by (symmetry; apply andb_true_intro; split; [apply Z.geb_le | apply Z.leb_le]; lia).
  cbn [bind].
  destruct (scatter_gather_rw P d sge_base max_sge buf cur n dir) as [r| |];
    cbn [bind]; try reflexivity.
  rewrite ring_advance_chunk by lia.
  destruct (Z.eqb_spec (cur + n) end_) as [E|E].
  - rewrite E. replace (end_ >=? end_) with true by (symmetry; apply Z.geb_le; lia).
    reflexivity.
  - replace (cur + n >=? end_) with false by (symmetry; rewrite Z.geb_leb; apply Z.leb_gt; lia).
    reflexivity.
Qed.

(** Beyond [len] iterations the amount of fuel is immaterial. *)
Lemma csg_loop_enough (f1 : nat) :
  forall f2 d sge_base max_sge buf base end_ cur len dir,
    0 <= base -> base <= cur < end_ -> end_ < 2 ^ 32 ->
    (Z.to_nat len < f1)%nat -> (Z.to_nat len < f2)%nat ->
    csg_loop P f1 d sge_base max_sge buf base end_ cur len dir
    = csg_loop P f2 d sge_base max_sge buf base end_ cur len dir.
Proof.
  induction f1 as [|f1 IH]; intros f2 d sb mx buf base end_ cur len dir Hb Hc He H1 H2;
    [lia|].
  destruct f2 as [|f2]; [lia|].
  destruct (Z.ltb_spec 0 len) as [Hl|Hl].
  - rewrite !csg_step by assumption.
    destruct (scatter_gather_rw P d sb mx buf cur (Z.min (end_ - cur) len) dir) as [r| |];
      cbn [bind]; try reflexivity.
    rewrite (IH f2); [reflexivity | assumption | | assumption | lia | lia].
    apply ring_advance_range. lia.
  - cbn [csg_loop].
    replace (len >? 0) with false by (symmetry; rewrite Z.gtb_ltb; apply Z.ltb_ge; lia).
    reflexivity.
Qed.

Lemma csg_loop_result (fuel : nat) :
  forall d sge_base max_sge buf base end_ cur len dir,
    0 <= base -> base <= cur < end_ -> end_ < 2 ^ 32 -> 0 <= len ->
    (Z.to_nat len < fuel)%nat ->
    sg_outcome_ok (csg_loop P fuel d sge_base max_sge buf base end_ cur len dir)
    /\ (forall d' buf' c,
          csg_loop P fuel d sge_base max_sge buf base end_ cur len dir
          = Done (d', buf', c) ->
          c = ring_advance base end_ cur len).
Proof.
  induction fuel as [|fuel IH]; intros d sb mx buf base end_ cur len dir Hb Hc He Hl Hf;
    [lia|].
  destruct (Z.ltb_spec 0 len) as [Hp|Hp].
  - rewrite csg_step by assumption.
    set (n := Z.min (end_ - cur) len).
    assert (Hn : 0 < n <= len) by (unfold n; lia).
    pose proof (scatter_gather_rw_outcome d sb mx buf cur n dir ltac:(lia)) as Hsg.
    destruct (scatter_gather_rw P d sb mx buf cur n dir) as [r| |];
      cbn [bind]; [|split; [exact Hsg|discriminate]|contradiction].
    destruct (IH (fst r) sb mx (skipn (Z.to_nat n) (snd r)) base end_
                 (ring_advance base end_ cur n) (len - n) dir) as [Hok Hcur];
      [assumption | apply ring_advance_range; lia | assumption | lia | lia |].
    destruct (csg_loop P fuel _ _ _ _ _ _ _ _ _) as [[[d2 b2] c2]| |];
      cbn [bind fst snd]; [|split; [exact Hok|discriminate]|contradiction].
    split; [exact I|]. intros d' buf' c [= _ _ <-].
    rewrite (Hcur d2 b2 c2 eq_refl), ring_advance_add by lia.
    f_equal. lia.
  - assert (len = 0) by lia. subst len. cbn [csg_loop]. cbn.
    split; [exact I|]. intros d' buf' c [= _ _ <-].
    now rewrite ring_advance_zero.
Qed.

(** The circular transfer unfolded once: the first chunk through the linear
    primitive, then a circular transfer of the rest from the moved cursor. *)
Lemma circular_unfold d sge_base max_sge buf base end_ cur len dir :
  0 <= base -> base <= cur < end_ -> end_ < 2 ^ 32 -> 0 < len ->
  let n := Z.min (end_ - cur) len in
  circular_scatter_gather_rw P d sge_base max_sge buf base end_ cur len dir
  = (r <- scatter_gather_rw P d sge_base max_sge buf cur n dir ;;
     r' <- circular_scatter_gather_rw P (fst r) sge_base max_sge
             (skipn (Z.to_nat n) (snd r)) base end_
             (ring_advance base end_ cur n) (len - n) dir ;;
     Done (fst (fst r'), firstn (Z.to_nat n) (snd r) ++ snd (fst r'), snd r')).
Proof.
  intros Hb Hc He Hp n. unfold circular_scatter_gather_rw.
  rewrite csg_step by assumption. fold n.
  destruct (scatter_gather_rw P d sge_base max_sge buf cur n dir) as [r| |];
    cbn [bind]; try reflexivity.
  rewrite (csg_loop_enough (S (Z.to_nat len)) (S (S (Z.to_nat (len - n)))));
    [reflexivity | assumption | | assumption | unfold n; lia | unfold n; lia].
  apply ring_advance_range. lia.
Qed.

(** C2.  For every circular transfer whose cursor is inside its window,
    [base <= cur < end_], and every length: an empty transfer returns at once;
    a transfer of [len > 0] bytes hands the linear primitive the chunk of
    [min(end_ - cur, len)] bytes at [cur], moves the cursor past the chunk,
    back to [base] exactly when it reaches [end_], and goes on as a circular
    transfer of the remaining bytes from there, the cursor being inside the
    window again.  The transfer never runs for ever and stops only on an
    assertion of the linear primitive; when it completes, the returned cursor
    is the position [len] bytes after [cur] around the window. *)
Theorem circular_transfer_chunks d sge_base max_sge buf base end_ cur len dir :
  0 <= base -> base <= cur < end_ -> end_ < 2 ^ 32 -> 0 <= len ->
  let n := Z.min (end_ - cur) len in
  let cur' := if cur + n =? end_ then base else cur + n in
  let run := circular_scatter_gather_rw P d sge_base max_sge buf base end_ cur len dir in
  (len = 0 -> run = Done (d, buf, cur))
  /\ (0 < len ->
      run = (r <- scatter_gather_rw P d sge_base max_sge buf cur n dir ;;
             r' <- circular_scatter_gather_rw P (fst r) sge_base max_sge
                     (skipn (Z.to_nat n) (snd r)) base end_ cur' (len - n) dir ;;
             Done (fst (fst r'), firstn (Z.to_nat n) (snd r) ++ snd (fst r'), snd r'))
      /\ 0 < n /\ base <= cur' < end_)
  /\ sg_outcome_ok run
  /\ (forall d' buf' c, run = Done (d', buf', c) ->
        c = ring_advance base end_ cur len /\ base <= c < end_).
Proof.
  intros Hb Hc He Hl n cur' run. unfold run.
  split; [intros ->; reflexivity|].
  split.
  { intros Hp.
    assert (Hn : 0 < n <= end_ - cur) by (unfold n; lia).
    assert (Ec : cur' = ring_advance base end_ cur n)
      by (unfold cur'; now rewrite ring_advance_chunk by lia).
    assert (Hc' : base <= cur' < end_) by (rewrite Ec; apply ring_advance_range; lia).
    split; [|split; [lia|exact Hc']].
    rewrite Ec. apply (circular_unfold d sge_base max_sge buf base end_ cur len dir);
      assumption. }
  unfold circular_scatter_gather_rw.
  destruct (csg_loop_result (S (S (Z.to_nat len))) d sge_base max_sge buf base end_
              cur len dir) as [Hok Hcur]; [assumption..|lia|].
  split; [exact Hok|].
  intros d' buf' c E. rewrite (Hcur d' buf' c E).
  split; [reflexivity | apply ring_advance_range; lia].
Qed.

End DMA_cursor.

(** Scenario S6 as an instance of C2: window [[0x100, 0x140)], [cur = 0x130],
    a write of 0x20 bytes through a table that maps page 0 to physical page 0.
    The first 0x10 bytes land at [[0x130, 0x140)], the next 0x10 at
    [[0x100, 0x110)], and the returned cursor is 0x110. *)
Lemma circular_transfer_S6 :
  (0 < 4096) /\ (0 <= 0x100) /\ (0x100 <= 0x130 < 0x140) /\ (0x140 < 2 ^ 32)
  /\ (0 <= 0x20)
  /\ match circular_scatter_gather_rw 4096 blank_device 0x8000 0 pattern
             0x100 0x140 0x130 0x20 true with
     | Done (d', buf', c) =>
         c = 0x110
         /\ ram_load (mem d') 0x130 16 = firstn 16 pattern
         /\ ram_load (mem d') 0x100 16 = skipn 16 pattern
     | _ => False
     end.
Proof.
  assert (H0 : 0 < 4096) by lia.
  assert (H1 : 0 <= 0x100) by lia.
  assert (H2 : 0x100 <= 0x130 < 0x140) by lia.
  assert (H3 : 0x140 < 2 ^ 32) by lia.
  assert (H4 : 0 <= 0x20) by lia.
  split; [exact H0|]. split; [exact H1|]. split; [exact H2|]. split; [exact H3|].
  split; [exact H4|].
  pose proof (circular_transfer_chunks 4096 H0 blank_device 0x8000 0 pattern
                0x100 0x140 0x130 0x20 true H1 H2 H3 H4) as T.
  cbv zeta in T. destruct T as (_ & _ & _ & Hc).
  assert (F1 : match circular_scatter_gather_rw 4096 blank_device 0x8000 0 pattern
                       0x100 0x140 0x130 0x20 true with
               | Done (d', _, _) => ram_load (mem d') 0x130 16 = firstn 16 pattern
                                   /\ ram_load (mem d') 0x100 16 = skipn 16 pattern
               | _ => False
               end) by (vm_compute; split; reflexivity).
  destruct (circular_scatter_gather_rw 4096 blank_device 0x8000 0 pattern
              0x100 0x140 0x130 0x20 true) as [[[d' b] c]| |]; try contradiction.
  split; [|exact F1].
  destruct (Hc d' b c eq_refl) as [-> _]. reflexivity.
Defined.

(** ** Scatter/gather DMA: what a transfer moves *)

Lemma ram_store_in (m : Z -> Z) (paddr : Z) (bs : list Z) (i : Z) :
  0 <= i < Z.of_nat (length bs) ->
  ram_store m paddr bs (paddr + i) = nth (Z.to_nat i) bs 0.
Proof.
  intros H. unfold ram_store.
  replace ((paddr <=? paddr + i) && (paddr + i <? paddr + Z.of_nat (length bs)))
    with true
    by (symmetry; apply andb_true_intro; split; [apply Z.leb_le | apply Z.ltb_lt]; lia).
  f_equal. f_equal. lia.
Qed.

Lemma ram_store_out (m : Z -> Z) (paddr : Z) (bs : list Z) (x : Z) :
  x < paddr \/ paddr + Z.of_nat (length bs) <= x ->
  ram_store m paddr bs x = m x.
Proof.
  intros H. unfold ram_store.
  destruct (Z.leb_spec paddr x); cbn [andb]; [|reflexivity].
  destruct (Z.ltb_spec x (paddr + Z.of_nat (length bs))); [lia|reflexivity].
Qed.

Lemma ldl_ram_store_other (m : Z -> Z) (paddr : Z) (bs : list Z) (a : Z) :
  a + 4 <= paddr \/ paddr + Z.of_nat (length bs) <= a ->
  ldl_le_phys (ram_store m paddr bs) a = ldl_le_phys m a.
Proof.
  intros H. unfold ldl_le_phys. now rewrite !ram_store_out by lia.
Qed.

Lemma firstn_as_map (k : nat) : forall (l : list Z),
  (k <= length l)%nat -> firstn k l = map (fun i => nth i l 0) (seq 0 k).
Proof.
  induction k as [|k IH]; intros l Hk; [reflexivity|].
  destruct l as [|x l]; [simpl in Hk; lia|].
  cbn [firstn seq map nth]. f_equal.
  rewrite <- seq_shift, map_map. apply IH. simpl in Hk. lia.
Qed.

Lemma nth_skipn_Z (n : nat) (l : list Z) (j : nat) :
  nth j (skipn n l) 0 = nth (n + j) l 0.
Proof.
  revert l. induction n as [|n IH]; intros l; [reflexivity|].
  destruct l as [|x l]; [destruct j; reflexivity|]. apply IH.
Qed.

(** A table that serves whole pages soundly serves every byte of the
    window. *)
Lemma sg_table_wf_ok (P rs sge_base max_sge base end_ : Z) (E : Z -> Z) :
  0 < P ->
  sg_table_wf P rs sge_base max_sge base end_ E ->
  sg_table_ok P rs sge_base max_sge base end_ E.
Proof.
  intros HP (Hrs & Hrange & Hap & Htab).
  assert (Hpg : forall a, base <= a < end_ -> window_page P base end_ (a / P)).
  { intros a Ha. unfold window_page. split; apply Z.div_le_mono; lia. }
  assert (Hph : forall a, E (a / P) <= sg_phys P E a < E (a / P) + P).
  { intros a. unfold sg_phys. pose proof (Z.mod_pos_bound a P HP). lia. }
  split; [|split; [|split; [|split]]].
  - intros a Ha. now destruct (Hrange _ (Hpg a Ha)).
  - intros a Ha. destruct (Hrange _ (Hpg a Ha)) as (_ & _ & Hr).
    specialize (Hph a). lia.
  - intros a Ha. destruct (Hrange _ (Hpg a Ha)) as (_ & _ & Hr).
    specialize (Hph a). lia.
  - intros a b Ha Hb Hne Heq.
    pose proof (Hph a). pose proof (Hph b).
    destruct (Z.eq_dec (a / P) (b / P)) as [Epg|Epg].
    + apply Hne. unfold sg_phys in Heq. rewrite Epg in Heq.
      rewrite (Z.div_mod a P), (Z.div_mod b P) by lia. rewrite Epg. lia.
    + destruct (Hap (a / P) (b / P) (Hpg a Ha) (Hpg b Hb) Epg); lia.
  - intros a p j Ha Hp Hj Heq. specialize (Hph a).
    destruct (Htab p (a / P) Hp (Hpg a Ha)); lia.
Qed.

Lemma sge_entry_nonneg (m : Z -> Z) (sge_base p : Z) : 0 <= sge_entry m sge_base p.
Proof. unfold sge_entry. pose proof (ldl_le_phys_range m (sge_base + wrap32 (p * 8) + 0)). lia. Qed.

Section DMA_transfer.

Variable P : Z.
Hypothesis P_pos : 0 < P.
Variables rs sge_base max_sge base end_ : Z.
Variable E : Z -> Z.
Hypothesis base_nonneg : 0 <= base.
Hypothesis end_32 : end_ < 2 ^ 32.
Hypothesis E_nonneg : forall p, 0 <= E p.
Hypothesis table_ok : sg_table_ok P rs sge_base max_sge base end_ E.


Lemma window_page_of (a : Z) : base <= a < end_ -> window_page P base end_ (a / P).
Proof.
  intros H. unfold window_page. split; apply Z.div_le_mono; lia.
Qed.

Lemma page_offset (pe off : Z) :
  0 <= off < P -> (pe * P + off) / P = pe /\ (pe * P + off) mod P = off.
Proof.
  intros H. split.
  - rewrite Z.add_comm, Z.div_add by lia. rewrite Z.div_small by lia. lia.
  - rewrite Z.add_comm, Z.mod_add by lia. now apply Z.mod_small.
Qed.

Lemma phys_in_page (pe off : Z) :
  0 <= off < P -> sg_phys P E (pe * P + off) = E pe + off.
Proof.
  intros H. unfold sg_phys. destruct (page_offset pe off H) as [-> ->].
  reflexivity.
Qed.

Lemma phys_bounds (a : Z) :
  base <= a < end_ -> E (a / P) <= sg_phys P E a < E (a / P) + P.
Proof.
  intros H. unfold sg_phys. pose proof (Z.mod_pos_bound a P P_pos). lia.
Qed.

Lemma phys_inj (a b : Z) :
  base <= a < end_ -> base <= b < end_ -> sg_phys P E a = sg_phys P E b -> a = b.
Proof.
  intros Ha Hb Hab.
  destruct table_ok as (_ & _ & _ & Hinj & _).
  destruct (Z.eq_dec a b) as [|Hne]; [assumption|].
  now destruct (Hinj a b Ha Hb Hne).
Qed.

(** The page of a chunk that starts inside the window. *)
Lemma chunk_page (pe off : Z) :
  0 <= off < P -> base <= pe * P + off < end_ -> window_page P base end_ pe.
Proof.
  intros Hoff Ha. destruct (page_offset pe off Hoff) as [<- _].
  now apply window_page_of.
Qed.

(** A store of bytes of the window, inside one page, keeps the table. *)
Lemma table_is_store (d : MCPXAPUState) (pe off : Z) (bs : list Z) :
  sg_table_is P d rs sge_base base end_ E -> 0 <= off ->
  off + Z.of_nat (length bs) <= P ->
  base <= pe * P + off -> pe * P + off + Z.of_nat (length bs) <= end_ ->
  sg_table_is P (set_dirty (set_mem d (ram_store (mem d) (E pe + off) bs))
                           (E pe + off) (Z.of_nat (length bs)))
              rs sge_base base end_ E.
Proof.
  intros [Hrs Ht] Hoff Hlen Hlo Hhi. split; [exact Hrs|].
  intros p Hp. cbn [mem set_dirty set_mem]. rewrite <- (Ht p Hp).
  unfold sge_entry. unfold ldl_le_phys.
  destruct table_ok as (_ & _ & _ & _ & Hap).
  assert (Hb : forall j, 0 <= j < 4 ->
             ram_store (mem d) (E pe + off) bs (sge_base + wrap32 (p * 8) + 0 + j)
             = mem d (sge_base + wrap32 (p * 8) + 0 + j)).
  { intros j Hj. apply ram_store_out.
    destruct (Z.lt_ge_cases (sge_base + wrap32 (p * 8) + 0 + j) (E pe + off))
      as [|Hge]; [now left|right].
    destruct (Z.le_gt_cases (E pe + off + Z.of_nat (length bs))
                            (sge_base + wrap32 (p * 8) + 0 + j)) as [|Hlt];
      [assumption|exfalso].
    set (i := sge_base + wrap32 (p * 8) + 0 + j - (E pe + off)) in *.
    apply (Hap (pe * P + (off + i)) p j); [lia | exact Hp | exact Hj |].
    rewrite phys_in_page by lia. lia. }
  pose proof (Hb 0 ltac:(lia)) as H0. rewrite Z.add_0_r in H0.
  rewrite H0, (Hb 1), (Hb 2), (Hb 3) by lia. reflexivity.
Qed.

Lemma sg_loop_write (fuel : nat) :
  forall d buf pe off btc len,
    sg_table_is P d rs sge_base base end_ E -> 0 <= off < P -> btc = P - off -> 0 <= len ->
    (Z.to_nat len < fuel)%nat -> len <= Z.of_nat (length buf) ->
    base <= pe * P + off -> pe * P + off + len <= end_ ->
    exists d',
      sg_loop P fuel d sge_base max_sge buf pe off btc len true = Done (d', buf)
      /\ sg_table_is P d' rs sge_base base end_ E
      /\ (forall i, 0 <= i < len ->
            mem d' (sg_phys P E (pe * P + off + i)) = nth (Z.to_nat i) buf 0)
      /\ (forall x, (forall i, 0 <= i < len -> x <> sg_phys P E (pe * P + off + i)) ->
            mem d' x = mem d x).
Proof.
  induction fuel as [|fuel IH];
    intros d buf pe off btc len Ht Hoff Hbtc Hlen Hf Hbuf Hlo Hhi; [lia|].
  cbn [sg_loop].
  destruct (Z.gtb_spec len 0) as [Hp|Hp].
  2:{ exists d. split; [reflexivity|]. split; [exact Ht|].
      split; [intros i Hi; lia | reflexivity]. }
  set (a := pe * P + off) in *.
  assert (Hpg : window_page P base end_ pe).
  { destruct (page_offset pe off Hoff) as [<- _]. apply window_page_of. unfold a in *. lia. }
  destruct table_ok as (Hwithin & Hfits & Hbelow & _ & _).
  assert (Hmx : pe <= max_sge).
  { destruct (page_offset pe off Hoff) as [<- _]. apply Hwithin. unfold a in *. lia. }
  pose proof (E_nonneg pe) as HE0.
  assert (HEa : E pe + off < 2 ^ 32).
  { rewrite <- phys_in_page by assumption. apply Hfits. unfold a in *. lia. }
  destruct Ht as [Hsz Hent].
  unfold assert.
  replace (pe <=? max_sge) with true by (symmetry; apply Z.leb_le; exact Hmx).
  cbn [bind].
  fold (sge_entry (mem d) sge_base pe). rewrite (Hent pe Hpg).
  rewrite (wrap32_small (E pe + off)) by lia.
  set (n := if btc >? len then len else btc).
  assert (Hn : n = Z.min (P - off) len)
    by (unfold n; subst btc; destruct (Z.gtb_spec (P - off) len); lia).
  assert (Hn' : 0 < n <= len /\ n <= P - off) by lia.
  assert (HEn : E pe + off + n < rs).
  { replace (E pe + off + n) with (E pe + (off + (n - 1)) + 1) by lia.
    rewrite <- phys_in_page by lia. apply Hbelow. unfold a in *. lia. }
  replace (E pe + off + n <? ram_size d) with true
    by (symmetry; apply Z.ltb_lt; lia).
  cbn [bind].
  assert (Hfl : length (firstn (Z.to_nat n) buf) = Z.to_nat n)
    by (apply firstn_length_le; lia).
  set (d1 := set_dirty (set_mem d (ram_store (mem d) (E pe + off)
                                     (firstn (Z.to_nat n) buf))) (E pe + off) n).
  assert (Ht1 : sg_table_is P d1 rs sge_base base end_ E).
  { unfold d1. replace n with (Z.of_nat (length (firstn (Z.to_nat n) buf))) at 2
      by (rewrite Hfl; lia).
    apply table_is_store;
      [split; assumption | lia | rewrite Hfl; lia | unfold a in *; lia
      | rewrite Hfl; unfold a in *; lia]. }
  assert (Hchunk : forall i, 0 <= i < n ->
            mem d1 (sg_phys P E (a + i)) = nth (Z.to_nat i) buf 0).
  { intros i Hi. unfold d1, a. cbn [mem set_dirty set_mem].
    replace (pe * P + off + i) with (pe * P + (off + i)) by lia.
    rewrite phys_in_page by lia. rewrite Z.add_assoc.
    rewrite ram_store_in by (rewrite Hfl; lia).
    rewrite nth_firstn.
    replace (Z.to_nat i <? Z.to_nat n)%nat with true
      by (symmetry; apply Nat.ltb_lt; lia).
    reflexivity. }
  assert (Hout : forall x, (forall i, 0 <= i < n -> x <> sg_phys P E (a + i)) ->
            mem d1 x = mem d x).
  { intros x Hx. unfold d1. cbn [mem set_dirty set_mem].
    apply ram_store_out. rewrite Hfl.
    destruct (Z.ltb_spec x (E pe + off)) as [|Hge]; [now left|right].
    destruct (Z.leb_spec (E pe + off + n) x) as [|Hlt]; [lia|exfalso].
    apply (Hx (x - (E pe + off))); [lia|].
    unfold a. replace (pe * P + off + (x - (E pe + off)))
      with (pe * P + (off + (x - (E pe + off)))) by lia.
    rewrite phys_in_page by lia. lia. }
  destruct (Z.eq_dec n len) as [Efin|Emore].
  - (* the chunk ends the transfer *)
    destruct fuel as [|fuel]; [lia|]. cbn [sg_loop].
    replace (len - n >? 0) with false
      by (symmetry; rewrite Z.gtb_ltb; apply Z.ltb_ge; lia).
    cbn [bind fst snd]. rewrite firstn_skipn.
    exists d1. split; [reflexivity|]. split; [exact Ht1|].
    split; [intros i Hi; apply Hchunk; lia|].
    intros x Hx. apply Hout. intros i Hi. apply Hx. lia.
  - (* the chunk fills the page and the transfer goes on with the next one *)
    assert (En : n = P - off) by lia.
    assert (Ea : (pe + 1) * P + 0 = a + n) by (unfold a; lia).
    assert (Hpe : 0 <= pe).
    { destruct (Z.lt_ge_cases pe 0) as [Hneg|]; [|assumption]. unfold a in Hlo. nia. }
    assert (Hpe32 : pe + 1 < 2 ^ 32) by (unfold a in *; nia).
    rewrite (wrap32_small (pe + 1)) by lia.
    destruct (IH d1 (skipn (Z.to_nat n) buf) (pe + 1) 0 P (len - n))
      as (d2 & Erun & Ht2 & Hin2 & Hout2);
      [exact Ht1 | lia | lia | lia | lia | rewrite length_skipn; lia | lia | lia |].
    rewrite Erun. cbn [bind fst snd]. rewrite firstn_skipn.
    exists d2. split; [reflexivity|]. split; [exact Ht2|]. split.
    + intros i Hi. destruct (Z.lt_ge_cases i n) as [Hlt|Hge].
      * rewrite Hout2; [apply Hchunk; lia|].
        intros j Hj Heq. rewrite Ea in Heq.
        apply phys_inj in Heq; unfold a in *; lia.
      * specialize (Hin2 (i - n) ltac:(lia)). rewrite Ea in Hin2.
        replace (a + n + (i - n)) with (a + i) in Hin2 by lia.
        fold a. rewrite Hin2, nth_skipn_Z. f_equal. lia.
    + intros x Hx. rewrite Hout2.
      * apply Hout. intros i Hi. apply Hx. lia.
      * intros j Hj. rewrite Ea. replace (a + n + j) with (a + (n + j)) by lia.
        apply Hx. lia.
Qed.

Lemma seq_from (n k : nat) : seq n k = map (fun i => (n + i)%nat) (seq 0 k).
Proof.
  induction n as [|n IH].
  - now rewrite map_id.
  - rewrite <- seq_shift, IH, map_map. reflexivity.
Qed.

Lemma sg_load_app (m : Z -> Z) (a : Z) (n k : nat) :
  sg_load P E m a (n + k) = sg_load P E m a n ++ sg_load P E m (a + Z.of_nat n) k.
Proof.
  unfold sg_load. rewrite seq_app, map_app. f_equal.
  cbn [Nat.add]. rewrite (seq_from n k), map_map.
  apply map_ext. intros i. f_equal. f_equal. lia.
Qed.

Lemma sg_loop_read (fuel : nat) :
  forall d buf pe off btc len,
    sg_table_is P d rs sge_base base end_ E -> 0 <= off < P -> btc = P - off -> 0 <= len ->
    (Z.to_nat len < fuel)%nat ->
    base <= pe * P + off -> pe * P + off + len <= end_ ->
    sg_loop P fuel d sge_base max_sge buf pe off btc len false
    = Done (d, sg_load P E (mem d) (pe * P + off) (Z.to_nat len)
               ++ skipn (Z.to_nat len) buf).
Proof.
  induction fuel as [|fuel IH];
    intros d buf pe off btc len Ht Hoff Hbtc Hlen Hf Hlo Hhi; [lia|].
  cbn [sg_loop].
  destruct (Z.gtb_spec len 0) as [Hp|Hp].
  2:{ replace len with 0 by lia. reflexivity. }
  set (a := pe * P + off) in *.
  assert (Hpg : window_page P base end_ pe).
  { destruct (page_offset pe off Hoff) as [<- _]. apply window_page_of. unfold a in *. lia. }
  destruct table_ok as (Hwithin & Hfits & Hbelow & _ & _).
  assert (Hmx : pe <= max_sge).
  { destruct (page_offset pe off Hoff) as [<- _]. apply Hwithin. unfold a in *. lia. }
  pose proof (E_nonneg pe) as HE0.
  assert (HEa : E pe + off < 2 ^ 32).
  { rewrite <- phys_in_page by assumption. apply Hfits. unfold a in *. lia. }
  pose proof Ht as [Hsz Hent].
  unfold assert.
  replace (pe <=? max_sge) with true by (symmetry; apply Z.leb_le; exact Hmx).
  cbn [bind].
  fold (sge_entry (mem d) sge_base pe). rewrite (Hent pe Hpg).
  rewrite (wrap32_small (E pe + off)) by lia.
  set (n := if btc >? len then len else btc).
  assert (Hn : n = Z.min (P - off) len)
    by (unfold n; subst btc; destruct (Z.gtb_spec (P - off) len); lia).
  assert (Hn' : 0 < n <= len /\ n <= P - off) by lia.
  assert (HEn : E pe + off + n < rs).
  { replace (E pe + off + n) with (E pe + (off + (n - 1)) + 1) by lia.
    rewrite <- phys_in_page by lia. apply Hbelow. unfold a in *. lia. }
  replace (E pe + off + n <? ram_size d) with true
    by (symmetry; apply Z.ltb_lt; lia).
  cbn [bind].
  assert (Hchunk : ram_load (mem d) (E pe + off) (Z.to_nat n)
                   = sg_load P E (mem d) a (Z.to_nat n)).
  { unfold ram_load, sg_load. apply map_ext_in. intros i Hi.
    apply in_seq in Hi. f_equal. unfold a.
    replace (pe * P + off + Z.of_nat i) with (pe * P + (off + Z.of_nat i)) by lia.
    rewrite phys_in_page by lia. lia. }
  rewrite Hchunk.
  replace (skipn (Z.to_nat len) buf)
    with (skipn (Z.to_nat (len - n)) (skipn (Z.to_nat n) buf))
    by (rewrite skipn_skipn; f_equal; lia).
  replace (Z.to_nat len) with (Z.to_nat n + Z.to_nat (len - n))%nat by lia.
  rewrite sg_load_app, <- app_assoc.
  destruct (Z.eq_dec n len) as [Efin|Emore].
  - destruct fuel as [|fuel]; [lia|]. cbn [sg_loop].
    replace (len - n >? 0) with false
      by (symmetry; rewrite Z.gtb_ltb; apply Z.ltb_ge; lia).
    cbn [bind fst snd]. replace (len - n) with 0 by lia. reflexivity.
  - assert (En : n = P - off) by lia.
    assert (Ea : (pe + 1) * P + 0 = a + n) by (unfold a; lia).
    assert (Hpe : 0 <= pe).
    { destruct (Z.lt_ge_cases pe 0) as [Hneg|]; [|assumption]. unfold a in Hlo. nia. }
    assert (Hpe32 : pe + 1 < 2 ^ 32) by (unfold a in *; nia).
    rewrite (wrap32_small (pe + 1)) by lia.
    rewrite (IH d (skipn (Z.to_nat n) buf) (pe + 1) 0 P (len - n));
      [| exact Ht | lia | lia | lia | lia | lia | lia].
    cbn [bind fst snd]. rewrite Ea, Z2Nat.id by lia. reflexivity.
Qed.

(** The linear primitive, writing [len] bytes of [buf] at logical address
    [addr] inside the window. *)
Lemma scatter_gather_write (d : MCPXAPUState) (buf : list Z) (addr len : Z) :
  sg_table_is P d rs sge_base base end_ E -> 0 <= len -> len <= Z.of_nat (length buf) ->
  base <= addr -> addr + len <= end_ ->
  exists d',
    scatter_gather_rw P d sge_base max_sge buf addr len true = Done (d', buf)
    /\ sg_table_is P d' rs sge_base base end_ E
    /\ sg_load P E (mem d') addr (Z.to_nat len) = firstn (Z.to_nat len) buf
    /\ (forall x, (forall i, 0 <= i < len -> x <> sg_phys P E (addr + i)) ->
          mem d' x = mem d x).
Proof.
  intros Ht Hlen Hbuf Hlo Hhi.
  pose proof (Z.mod_pos_bound addr P P_pos) as Hoff.
  assert (Ea : addr / P * P + addr mod P = addr)
    by (rewrite (Z.div_mod addr P) at 3 by lia; lia).
  destruct (sg_loop_write (S (Z.to_nat len)) d buf (addr / P) (addr mod P)
              (P - addr mod P) len)
    as (d' & Erun & Ht' & Hin & Hout);
    [exact Ht | exact Hoff | reflexivity | exact Hlen | lia | exact Hbuf
     | lia | lia |].
  rewrite Ea in Hin, Hout.
  exists d'. split; [exact Erun|]. split; [exact Ht'|]. split; [|exact Hout].
  rewrite firstn_as_map by lia. unfold sg_load.
  apply map_ext_in. intros i Hi. apply in_seq in Hi.
  rewrite Hin by lia. f_equal. lia.
Qed.

Lemma scatter_gather_read (d : MCPXAPUState) (buf : list Z) (addr len : Z) :
  sg_table_is P d rs sge_base base end_ E -> 0 <= len -> base <= addr -> addr + len <= end_ ->
  scatter_gather_rw P d sge_base max_sge buf addr len false
  = Done (d, sg_load P E (mem d) addr (Z.to_nat len) ++ skipn (Z.to_nat len) buf).
Proof.
  intros Ht Hlen Hlo Hhi.
  pose proof (Z.mod_pos_bound addr P P_pos) as Hoff.
  assert (Ea : addr / P * P + addr mod P = addr)
    by (rewrite (Z.div_mod addr P) at 3 by lia; lia).
  unfold scatter_gather_rw.
  rewrite (sg_loop_read (S (Z.to_nat len)) d buf (addr / P) (addr mod P));
    [| exact Ht | exact Hoff | reflexivity | exact Hlen | lia | lia | lia].
  now rewrite Ea.
Qed.

(** Bytes of the window that a later write does not reach are read back
    unchanged. *)
Lemma sg_load_frame (m m' : Z -> Z) (a : Z) (k : nat) (b len : Z) :
  base <= a -> a + Z.of_nat k <= end_ -> base <= b -> b + len <= end_ ->
  a + Z.of_nat k <= b \/ b + len <= a ->
  (forall x, (forall i, 0 <= i < len -> x <> sg_phys P E (b + i)) -> m' x = m x) ->
  sg_load P E m' a k = sg_load P E m a k.
Proof.
  intros Ha Hak Hb Hbl Hsep Hfr. unfold sg_load.
  apply map_ext_in. intros i Hi. apply in_seq in Hi. apply Hfr.
  intros j Hj Heq. apply phys_inj in Heq; lia.
Qed.

End DMA_transfer.

(** ** Circular DMA: writing and reading back *)

Section DMA_round_trip.

Variable P : Z.
Hypothesis P_pos : 0 < P.
Variables sge_base max_sge base end_ : Z.
Hypothesis base_nonneg : 0 <= base.
Hypothesis end_32 : end_ < 2 ^ 32.

(** A transfer that does not pass the end of the window is one linear
    transfer. *)
Lemma circular_single (d : MCPXAPUState) (buf : list Z) (cur len : Z) (dir : bool) :
  base <= cur < end_ -> 0 < len <= end_ - cur ->
  circular_scatter_gather_rw P d sge_base max_sge buf base end_ cur len dir
  = (r <- scatter_gather_rw P d sge_base max_sge buf cur len dir ;;
     Done (fst r, snd r, ring_advance base end_ cur len)).
Proof.
  intros Hc Hl.
  rewrite (circular_unfold P) by (assumption || lia).
  replace (Z.min (end_ - cur) len) with len by lia.
  destruct (scatter_gather_rw P d sge_base max_sge buf cur len dir) as [r| |];
    cbn [bind]; try reflexivity.
  rewrite Z.sub_diag. cbn [circular_scatter_gather_rw csg_loop Z.to_nat Z.gtb Z.compare].
  cbn [bind fst snd]. now rewrite firstn_skipn.
Qed.

(** A transfer that passes the end of the window, and is no longer than the
    window, is two linear transfers: up to the end, then from the base. *)
Lemma circular_double (d : MCPXAPUState) (buf : list Z) (cur len : Z) (dir : bool) :
  base <= cur < end_ -> end_ - cur < len <= end_ - base ->
  let n1 := end_ - cur in
  let n2 := len - n1 in
  circular_scatter_gather_rw P d sge_base max_sge buf base end_ cur len dir
  = (r1 <- scatter_gather_rw P d sge_base max_sge buf cur n1 dir ;;
     r2 <- scatter_gather_rw P (fst r1) sge_base max_sge
             (skipn (Z.to_nat n1) (snd r1)) base n2 dir ;;
     Done (fst r2, firstn (Z.to_nat n1) (snd r1) ++ snd r2,
           ring_advance base end_ cur len)).
Proof.
  intros Hc Hl n1 n2.
  rewrite (circular_unfold P) by (assumption || lia).
  replace (Z.min (end_ - cur) len) with n1 by (unfold n1; lia).
  assert (Eb : ring_advance base end_ cur n1 = base).
  { rewrite ring_advance_chunk by (unfold n1; lia).
    replace (cur + n1 =? end_) with true by (symmetry; apply Z.eqb_eq; unfold n1; lia).
    reflexivity. }
  rewrite Eb. fold n2.
  destruct (scatter_gather_rw P d sge_base max_sge buf cur n1 dir) as [r1| |];
    cbn [bind]; try reflexivity.
  rewrite circular_single by (unfold n2, n1; lia).
  assert (R : ring_advance base end_ base n2 = ring_advance base end_ cur len).
  { replace len with (n1 + n2) by (unfold n2; lia).
    rewrite <- (ring_advance_add base end_ cur n1 n2) by lia.
    now rewrite Eb. }
  rewrite R.
  destruct (scatter_gather_rw P (fst r1) sge_base max_sge _ base n2 dir) as [r2| |];
    cbn [bind fst snd]; reflexivity.
Qed.

Variable rs : Z.
Variable E : Z -> Z.
Hypothesis E_nonneg : forall p, 0 <= E p.
Hypothesis table_ok : sg_table_ok P rs sge_base max_sge base end_ E.

Lemma circular_round_trip_table (d : MCPXAPUState) (data buf0 : list Z) (cur n : Z) :
  sg_table_is P d rs sge_base base end_ E ->
  base <= cur < end_ -> 0 <= n <= end_ - base ->
  Z.of_nat (length data) = n -> Z.of_nat (length buf0) = n ->
  exists d',
    circular_scatter_gather_rw P d sge_base max_sge data base end_ cur n true
    = Done (d', data, ring_advance base end_ cur n)
    /\ circular_scatter_gather_rw P d' sge_base max_sge buf0 base end_ cur n false
       = Done (d', data, ring_advance base end_ cur n).
Proof.
  intros Ht Hc Hn Hd Hb.
  destruct (Z.eq_dec n 0) as [->|Hn0].
  { exists d. destruct data; [|simpl in Hd; lia]. destruct buf0; [|simpl in Hb; lia].
    rewrite ring_advance_zero by lia. split; reflexivity. }
  destruct (Z.le_gt_cases n (end_ - cur)) as [Hs|Hw].
  - (* no wrap *)
    rewrite circular_single by lia.
    destruct (scatter_gather_write P P_pos rs sge_base max_sge base end_ E
                base_nonneg end_32 E_nonneg table_ok d data cur n)
      as (d1 & E1 & Ht1 & L1 & _); [exact Ht | lia | lia | lia | lia |].
    rewrite E1. cbn [bind fst snd]. exists d1. split; [reflexivity|].
    rewrite circular_single by lia.
    rewrite (scatter_gather_read P P_pos rs sge_base max_sge base end_ E
               base_nonneg end_32 E_nonneg table_ok d1 buf0 cur n) by (assumption || lia).
    cbn [bind fst snd]. rewrite L1.
    rewrite firstn_all2 by lia. rewrite skipn_all2 by lia. now rewrite app_nil_r.
  - (* wrap *)
    rewrite circular_double by lia. cbv zeta.
    set (n1 := end_ - cur). set (n2 := n - n1).
    assert (Hn1 : 0 < n1) by (unfold n1; lia).
    assert (Hn2 : 0 < n2 /\ base + n2 <= cur) by (unfold n2, n1; lia).
    destruct (scatter_gather_write P P_pos rs sge_base max_sge base end_ E
                base_nonneg end_32 E_nonneg table_ok d data cur n1)
      as (d1 & E1 & Ht1 & L1 & _); [exact Ht | lia | lia | lia | unfold n1; lia |].
    rewrite E1. cbn [bind fst snd].
    destruct (scatter_gather_write P P_pos rs sge_base max_sge base end_ E
                base_nonneg end_32 E_nonneg table_ok d1 (skipn (Z.to_nat n1) data) base n2)
      as (d2 & E2 & Ht2 & L2 & F2);
      [exact Ht1 | lia | rewrite length_skipn; unfold n2; lia | lia | lia |].
    rewrite E2. cbn [bind fst snd]. rewrite firstn_skipn.
    exists d2. split; [reflexivity|].
    rewrite circular_double by lia. cbv zeta. fold n1. fold n2.
    rewrite (scatter_gather_read P P_pos rs sge_base max_sge base end_ E
               base_nonneg end_32 E_nonneg table_ok d2 buf0 cur n1)
      by (assumption || unfold n1; lia).
    cbn [bind fst snd].
    rewrite (scatter_gather_read P P_pos rs sge_base max_sge base end_ E
               base_nonneg end_32 E_nonneg table_ok d2 _ base n2) by (assumption || lia).
    cbn [bind fst snd].
    assert (G1 : sg_load P E (mem d2) cur (Z.to_nat n1) = firstn (Z.to_nat n1) data).
    { rewrite <- L1.
      apply (sg_load_frame P rs sge_base max_sge base end_ E table_ok
               (mem d1) (mem d2) cur (Z.to_nat n1) base n2);
        [lia | unfold n1; lia | lia | lia | right; lia | exact F2]. }
    rewrite G1, L2.
    rewrite firstn_app, firstn_firstn, Nat.min_id.
    rewrite length_firstn.
    replace (Z.to_nat n1 - Nat.min (Z.to_nat n1) (length data))%nat with 0%nat by lia.
    cbn [firstn]. rewrite app_nil_r.
    rewrite (firstn_all2 (skipn (Z.to_nat n1) data))
      by (rewrite length_skipn; unfold n2; lia).
    assert (Z0 : skipn (Z.to_nat n2)
                   (skipn (Z.to_nat n1)
                      (firstn (Z.to_nat n1) data ++ skipn (Z.to_nat n1) buf0)) = []).
    { apply skipn_all2.
      rewrite length_skipn, length_app, length_firstn, length_skipn.
      unfold n2. lia. }
    rewrite Z0.
    rewrite app_nil_r, firstn_skipn. reflexivity.
Qed.

End DMA_round_trip.

(** C8, amended.  For every page size [P > 0], every window of 32-bit bounds
    with [base <= cur < end_], every length [0 <= n <= end_ - base], buffers
    of [n] bytes, and every scatter/gather table that serves the window byte
    by byte ([sg_window_ok]): with [phys a] the table entry of page [a / P]
    plus [a mod P], for every address [a] of the window the page [a / P] is
    within [max_sge], [phys a] is below [2 ^ 32], [phys a + 1] is below the
    size of RAM, [phys a] differs from [phys b] for every other address [b]
    of the window, and [phys a] is none of the four bytes of the table entry
    of a page of the window.  Then a circular write of the [n] bytes [data]
    at [cur] completes, a circular read of [n] bytes at the same [cur] from
    the resulting device completes and returns exactly [data], and both
    return the same cursor, [n] bytes after [cur] around the window. *)
Theorem circular_round_trip (P : Z) (d : MCPXAPUState) (sge_base max_sge : Z)
    (data buf0 : list Z) (base end_ cur n : Z) :
  0 < P ->
  0 <= base -> base <= cur < end_ -> end_ < 2 ^ 32 ->
  0 <= n <= end_ - base ->
  Z.of_nat (length data) = n -> Z.of_nat (length buf0) = n ->
  sg_window_ok P d sge_base max_sge base end_ ->
  exists d' c,
    circular_scatter_gather_rw P d sge_base max_sge data base end_ cur n true
    = Done (d', data, c)
    /\ circular_scatter_gather_rw P d' sge_base max_sge buf0 base end_ cur n false
       = Done (d', data, c)
    /\ c = ring_advance base end_ cur n.
Proof.
  intros HP Hb Hc He Hn Hd Hb0 Hok.
  destruct (circular_round_trip_table P HP sge_base max_sge base end_ Hb He
              (ram_size d) (sge_entry (mem d) sge_base)
              (sge_entry_nonneg (mem d) sge_base) Hok d data buf0 cur n)
    as (d' & Ew & Er); try assumption.
  { split; [reflexivity|]. intros p _. reflexivity. }
  exists d', (ring_advance base end_ cur n). auto.
Qed.

(** *** Concrete windows *)

(** Addresses of a concrete window inside page 0 or page 1 of 4096 bytes. *)
Lemma in_page0 (a : Z) : 0 <= a < 4096 -> a / 4096 = 0 /\ a mod 4096 = a.
Proof. intros H. split; [now apply Z.div_small | now apply Z.mod_small]. Qed.

Lemma in_page1 (a : Z) : 4096 <= a < 8192 -> a / 4096 = 1 /\ a mod 4096 = a - 4096.
Proof.
  intros H. pose proof (Z.div_mod a 4096 ltac:(lia)).
  pose proof (Z.mod_pos_bound a 4096 ltac:(lia)).
  assert (a / 4096 = 1) by nia. lia.
Qed.

(** Rewrites the page and the offset of an address [a] of a window inside
    pages 0 and 1. *)
Ltac sg_page a :=
  try unfold sg_phys;
  let H := fresh in
  let H1 := fresh in
  let H2 := fresh in
  first
    [ assert (H : 0 <= a < 4096) by lia;
      destruct (in_page0 a H) as [H1 H2]
    | assert (H : 4096 <= a < 8192) by lia;
      destruct (in_page1 a H) as [H1 H2]
    | destruct (Z.lt_ge_cases a 4096) as [H|H];
      [ destruct (in_page0 a ltac:(lia)) as [H1 H2]
      | destruct (in_page1 a ltac:(lia)) as [H1 H2] ] ];
  rewrite ?H1, ?H2.

(** Evaluates the entries of pages 0 and 1 of a concrete table and their
    addresses. *)
Ltac sg_entries :=
  repeat match goal with
  | |- context [sge_entry ?m ?s 0] =>
      let v := eval vm_compute in (sge_entry m s 0) in
      change (sge_entry m s 0) with v
  | |- context [sge_entry ?m ?s 1] =>
      let v := eval vm_compute in (sge_entry m s 1) in
      change (sge_entry m s 1) with v
  | |- context [wrap32 (0 * 8)] => change (wrap32 (0 * 8)) with 0
  | |- context [wrap32 (1 * 8)] => change (wrap32 (1 * 8)) with 8
  end.

(** The pages of a concrete window. *)
Ltac sg_pages H :=
  unfold window_page in H;
  match type of H with
  | ?lo <= _ <= ?hi =>
      let l := eval vm_compute in lo in
      let h := eval vm_compute in hi in
      change lo with l in H; change hi with h in H
  end.

Ltac sg_clause :=
  match goal with
  | |- sg_pages_within _ _ _ _ =>
      let a := fresh "a" in let Ha := fresh "Ha" in
      intros a Ha; sg_page a; sg_entries; lia
  | |- sg_fits32 _ _ _ _ =>
      let a := fresh "a" in let Ha := fresh "Ha" in
      intros a Ha; change (2 ^ 32) with 4294967296; sg_page a; sg_entries; lia
  | |- sg_below_ram _ _ _ _ _ =>
      let a := fresh "a" in let Ha := fresh "Ha" in
      intros a Ha;
      repeat match goal with
      | |- context [ram_size ?d] =>
          let v := eval vm_compute in (ram_size d) in change (ram_size d) with v
      end;
      sg_page a; sg_entries; lia
  | |- sg_injective _ _ _ _ =>
      let a := fresh "a" in let b := fresh "b" in
      let Ha := fresh "Ha" in let Hb := fresh "Hb" in let Hn := fresh "Hn" in
      intros a b Ha Hb Hn; sg_page a; sg_page b; sg_entries; lia
  | |- sg_table_apart _ _ _ _ _ =>
      let a := fresh "a" in let p := fresh "p" in let j := fresh "j" in
      let Ha := fresh "Ha" in let Hp := fresh "Hp" in let Hj := fresh "Hj" in
      intros a p j Ha Hp Hj; sg_pages Hp;
      let Hc := fresh in
      assert (Hc : p = 0 \/ p = 1) by lia;
      destruct Hc; subst p; sg_page a; sg_entries; lia
  end.

(** The all-zero table serves the four-byte window [[0x100, 0x104)]. *)
Lemma blank_window4_ok : sg_window_ok 4096 blank_device 0x8000 0 0x100 0x104.
Proof.
  unfold sg_window_ok, sg_table_ok.
  split; [|split; [|split; [|split]]]; sg_clause.
Qed.

(** C8 as stated fails in six ways; in each but the first the table breaks
    exactly one of the five conditions of [sg_window_ok] and meets the other
    four, and in the first it meets all five.  The data are the eight bytes
    [1 .. 8], the page size is 4096 and the table is at 0x8000.

    - The transfer is longer than the window: eight bytes into the four-byte
      window [[0x100, 0x104)] wrap over their own first four bytes, and the
      read returns the last four bytes twice.
    - A page of the window is beyond [max_sge]: the window
      [[0x1000, 0x1008)] lies in page 1 and [max_sge] is 0; the write stops
      on [assert(page_entry <= max_sge)].
    - The last byte of the window is the last byte of RAM: page 0 is mapped
      to the last page of RAM, wholly inside it, and the window is
      [[0xFF8, 0x1000)]; the write stops on the strict
      [assert(paddr + bytes_to_copy < memory_region_size)].
    - Two addresses of the window share a physical address: in the window
      [[0xFFC, 0x1004)] page 1 is mapped onto the last four bytes of the
      physical page of page 0; the read returns the last four bytes twice.
    - A table entry lies in the window: logical address 0x100 is the entry
      of page 0 itself; the write completes and rewrites the entry, and the
      read, following the new entry, stops on the RAM bound.
    - A physical address does not fit 32 bits: with RAM beyond 4 GiB, page 0
      mapped 0x100 bytes below 4 GiB and page 1 at 0xEFC, the 32-bit sum of
      entry and offset wraps the four bytes [[0xFFC, 0x1000)] onto physical
      0xEFC, where page 1 puts the next four; the read returns the last four
      bytes twice. *)
Lemma circular_round_trip_failures :
  (sg_window_ok 4096 blank_device 0x8000 0 0x100 0x104
   /\ 0x104 - 0x100 < 8
   /\ round_trip 4096 blank_device 0x8000 0 pattern8 (repeat 0 8) 0x100 0x104 0x100 8
      = Done ([5; 6; 7; 8; 5; 6; 7; 8], 0x100, 0x100))
  /\ (let E := sge_entry (mem blank_device) 0x8000 in
      ~ sg_pages_within 4096 0 0x1000 0x1008
      /\ sg_fits32 4096 0x1000 0x1008 E
      /\ sg_below_ram 4096 (ram_size blank_device) 0x1000 0x1008 E
      /\ sg_injective 4096 0x1000 0x1008 E
      /\ sg_table_apart 4096 0x8000 0x1000 0x1008 E
      /\ round_trip 4096 blank_device 0x8000 0 pattern8 (repeat 0 8)
                    0x1000 0x1008 0x1000 8
         = Abort A_max_sge)
  /\ (let E := sge_entry (mem sg_last_page_device) 0x8000 in
      sg_pages_within 4096 0 0xFF8 0x1000
      /\ sg_fits32 4096 0xFF8 0x1000 E
      /\ ~ sg_below_ram 4096 (ram_size sg_last_page_device) 0xFF8 0x1000 E
      /\ E 0 + 4096 <= ram_size sg_last_page_device
      /\ sg_injective 4096 0xFF8 0x1000 E
      /\ sg_table_apart 4096 0x8000 0xFF8 0x1000 E
      /\ round_trip 4096 sg_last_page_device 0x8000 0 pattern8 (repeat 0 8)
                    0xFF8 0x1000 0xFF8 8
         = Abort A_ram_bound)
  /\ (let E := sge_entry (mem sg_alias_device) 0x8000 in
      sg_pages_within 4096 1 0xFFC 0x1004
      /\ sg_fits32 4096 0xFFC 0x1004 E
      /\ sg_below_ram 4096 (ram_size sg_alias_device) 0xFFC 0x1004 E
      /\ ~ sg_injective 4096 0xFFC 0x1004 E
      /\ sg_table_apart 4096 0x8000 0xFFC 0x1004 E
      /\ round_trip 4096 sg_alias_device 0x8000 1 pattern8 (repeat 0 8)
                    0xFFC 0x1004 0xFFC 8
         = Done ([5; 6; 7; 8; 5; 6; 7; 8], 0xFFC, 0xFFC))
  /\ (let E := sge_entry (mem sg_table_hit_device) 0x8000 in
      sg_pages_within 4096 0 0x100 0x108
      /\ sg_fits32 4096 0x100 0x108 E
      /\ sg_below_ram 4096 (ram_size sg_table_hit_device) 0x100 0x108 E
      /\ sg_injective 4096 0x100 0x108 E
      /\ ~ sg_table_apart 4096 0x8000 0x100 0x108 E
      /\ match circular_scatter_gather_rw 4096 sg_table_hit_device 0x8000 0
                 pattern8 0x100 0x108 0x100 8 true with
         | Done (d', _, _) => sge_entry (mem d') 0x8000 0 = 0x04030201
         | _ => False
         end
      /\ round_trip 4096 sg_table_hit_device 0x8000 0 pattern8 (repeat 0 8)
                    0x100 0x108 0x100 8
         = Abort A_ram_bound)
  /\ (let E := sge_entry (mem sg_wide_ram_device) 0x8000 in
      sg_pages_within 4096 1 0xFFC 0x1004
      /\ ~ sg_fits32 4096 0xFFC 0x1004 E
      /\ sg_below_ram 4096 (ram_size sg_wide_ram_device) 0xFFC 0x1004 E
      /\ sg_injective 4096 0xFFC 0x1004 E
      /\ sg_table_apart 4096 0x8000 0xFFC 0x1004 E
      /\ round_trip 4096 sg_wide_ram_device 0x8000 1 pattern8 (repeat 0 8)
                    0xFFC 0x1004 0xFFC 8
         = Done ([5; 6; 7; 8; 5; 6; 7; 8], 0xFFC, 0xFFC)).
Proof.
  split; [|split; [|split; [|split; [|split]]]]; cbv zeta.
  - split; [exact blank_window4_ok|]. split; [lia|]. vm_compute. reflexivity.
  - split.
    { intros H. specialize (H 0x1000 ltac:(lia)). revert H. vm_compute. congruence. }
    split; [sg_clause|]. split; [sg_clause|]. split; [sg_clause|].
    split; [sg_clause|]. vm_compute. reflexivity.
  - split; [sg_clause|]. split; [sg_clause|]. split.
    { intros H. specialize (H 0xFFF ltac:(lia)). revert H. vm_compute. congruence. }
    split; [vm_compute; congruence|].
    split; [sg_clause|]. split; [sg_clause|]. vm_compute. reflexivity.
  - split; [sg_clause|]. split; [sg_clause|]. split; [sg_clause|]. split.
    { intros H. apply (H 0xFFC 0x1000); [lia | lia | lia | vm_compute; reflexivity]. }
    split; [sg_clause|]. vm_compute. reflexivity.
  - split; [sg_clause|]. split; [sg_clause|]. split; [sg_clause|].
    split; [sg_clause|]. split.
    { intros H. apply (H 0x100 0 0); [lia | | lia | vm_compute; reflexivity].
      unfold window_page. vm_compute. split; congruence. }
    split.
    { vm_compute. reflexivity. }
    vm_compute. reflexivity.
  - split; [sg_clause|]. split.
    { intros H. specialize (H 0xFFC ltac:(lia)). revert H. vm_compute. congruence. }
    split; [sg_clause|]. split; [sg_clause|]. split; [sg_clause|].
    vm_compute. reflexivity.
Qed.

(** The all-zero table maps page 0 to physical page 0 and serves the window
    [[0x100, 0x140)]. *)
Lemma blank_window_ok :
  sg_window_ok 4096 blank_device 0x8000 0 0x100 0x140.
Proof.
  unfold sg_window_ok, sg_table_ok.
  split; [|split; [|split; [|split]]]; sg_clause.
Qed.

(** C8 on scenario S6: the 32 bytes written at cursor 0x130 of the window
    [[0x100, 0x140)] are read back from the same cursor, and both transfers
    return the cursor 0x110. *)
Lemma circular_round_trip_S6 :
  (0 < 4096) /\ (0 <= 0x100) /\ (0x100 <= 0x130 < 0x140) /\ (0x140 < 2 ^ 32)
  /\ (0 <= 0x20 <= 0x140 - 0x100)
  /\ Z.of_nat (length pattern) = 0x20
  /\ Z.of_nat (length (repeat 0 32)) = 0x20
  /\ sg_window_ok 4096 blank_device 0x8000 0 0x100 0x140
  /\ exists d',
       circular_scatter_gather_rw 4096 blank_device 0x8000 0 pattern
         0x100 0x140 0x130 0x20 true = Done (d', pattern, 0x110)
       /\ circular_scatter_gather_rw 4096 d' 0x8000 0 (repeat 0 32)
            0x100 0x140 0x130 0x20 false = Done (d', pattern, 0x110).
Proof.
  assert (H0 : 0 < 4096) by lia.
  assert (H1 : 0 <= 0x100) by lia.
  assert (H2 : 0x100 <= 0x130 < 0x140) by lia.
  assert (H3 : 0x140 < 2 ^ 32) by lia.
  assert (H4 : 0 <= 0x20 <= 0x140 - 0x100) by lia.
  assert (H5 : Z.of_nat (length pattern) = 0x20) by reflexivity.
  assert (H6 : Z.of_nat (length (repeat 0 32)) = 0x20) by reflexivity.
  pose proof blank_window_ok as H7.
  repeat (split; [assumption|]).
  destruct (circular_round_trip 4096 blank_device 0x8000 0 pattern (repeat 0 32)
              0x100 0x140 0x130 0x20 H0 H1 H2 H3 H4 H5 H6 H7)
    as (d' & c & Ew & Er & Ec).
  assert (c = 0x110) as -> by (rewrite Ec; reflexivity).
  exists d'. split; assumption.
Defined.

(** ** The top-level register window as storage *)

(** X1.  Every register of the top-level window below 0x20000, other than
    [ISTS] and [XGSCNT], reads back the low 32 bits of the value last written
    to it; this includes [SECTL] and [FEMEMDATA], whose writes have side
    effects. *)
Theorem mcpx_apu_read_after_write (now_ms now_ns : Z) (d : MCPXAPUState)
    (addr val : Z) :
  addr < 0x20000 ->
  addr <> NV_PAPU_ISTS ->
  addr <> NV_PAPU_XGSCNT ->
  mcpx_apu_read now_ns (mcpx_apu_write now_ms d addr val) addr = wrap32 val.
Proof.
  intros Hlt Hi Hx. unfold mcpx_apu_read, mcpx_apu_write.
  fold NV_PAPU_XGSCNT.
  replace (addr =? NV_PAPU_XGSCNT) with false by (symmetry; now apply Z.eqb_neq).
  replace (addr =? NV_PAPU_ISTS) with false by (symmetry; now apply Z.eqb_neq).
  replace (addr <? 131072) with true by (symmetry; now apply Z.ltb_lt).
  destruct (addr =? NV_PAPU_SECTL).
  - destruct (_ =? NV_PAPU_SECTL_XCNTMODE_OFF); cbn [regs set_reg set_timer];
      apply upd_same.
  - destruct (addr =? NV_PAPU_FEMEMDATA); cbn [regs set_reg set_mem]; apply upd_same.
Qed.

Lemma mcpx_apu_read_after_write_fecv :
  (NV_PAPU_FECV < 0x20000) /\ NV_PAPU_FECV <> NV_PAPU_ISTS
  /\ NV_PAPU_FECV <> NV_PAPU_XGSCNT
  /\ mcpx_apu_read 0 (mcpx_apu_write 0 blank_device NV_PAPU_FECV 0x1234) NV_PAPU_FECV
     = wrap32 0x1234.
Proof.
  assert (H1 : NV_PAPU_FECV < 0x20000) by reflexivity.
  assert (H2 : NV_PAPU_FECV <> NV_PAPU_ISTS) by discriminate.
  assert (H3 : NV_PAPU_FECV <> NV_PAPU_XGSCNT) by discriminate.
  split; [exact H1|]. split; [exact H2|]. split; [exact H3|].
  exact (mcpx_apu_read_after_write 0 0 blank_device NV_PAPU_FECV 0x1234 H1 H2 H3).
Defined.

Ltac frame_solve :=
  intros;
  first
    [ reflexivity
    | contradiction
    | congruence
    | unfold NV_PAPU_ISTS, NV_PAPU_SECTL, NV_PAPU_FEMEMDATA in *; lia
    | unfold update_irq; destruct (_ && _); reflexivity
    | rewrite ?update_irq_regs by congruence;
      cbn [regs set_reg set_timer set_mem]; apply upd_other; congruence
    | split; frame_solve ].

(** X2.  What one [mcpx_apu_write] leaves alone: every register other than
    the one written and [ISTS]; [ISTS] and the interrupt line unless [ISTS] is
    the register written; guest memory unless the register is [FEMEMDATA]; the
    frame timer unless it is [SECTL]; the whole device when the address is
    0x20000 or above; and, in every case, both processors and the dirty
    log. *)
Theorem mcpx_apu_write_frame (now_ms : Z) (d : MCPXAPUState) (addr val : Z) :
  let d' := mcpx_apu_write now_ms d addr val in
  (forall a, a <> addr -> a <> NV_PAPU_ISTS -> regs d' a = regs d a)
  /\ (addr <> NV_PAPU_ISTS -> regs d' NV_PAPU_ISTS = regs d NV_PAPU_ISTS
                              /\ irq d' = irq d)
  /\ (addr <> NV_PAPU_FEMEMDATA -> mem d' = mem d)
  /\ (addr <> NV_PAPU_SECTL -> frame_timer d' = frame_timer d)
  /\ (0x20000 <= addr -> d' = d)
  /\ gp_regs d' = gp_regs d /\ ep_regs d' = ep_regs d
  /\ gp_dsp d' = gp_dsp d /\ ep_dsp d' = ep_dsp d
  /\ dirty d' = dirty d.
Proof.
  cbv zeta. unfold mcpx_apu_write.
  destruct (Z.eqb_spec addr NV_PAPU_ISTS) as [Ei|Ei];
    [|destruct (Z.eqb_spec addr NV_PAPU_SECTL) as [Es|Es];
      [destruct (_ =? NV_PAPU_SECTL_XCNTMODE_OFF)
      |destruct (Z.eqb_spec addr NV_PAPU_FEMEMDATA) as [Ef|Ef];
        [|destruct (Z.ltb_spec addr 131072) as [Hl|Hl]]]];
    try subst addr;
    repeat match goal with |- _ /\ _ => split end;
    frame_solve.
Qed.

(** X3.  The magic write: a write of [val] to [FEMEMDATA] stores the low 32
    bits of [val] as a little-endian word at the guest-physical address held
    in [FEMEMADDR], stores them in [FEMEMDATA] too, and changes no byte of
    guest memory outside those four. *)
Theorem femem_magic_write (now_ms : Z) (d : MCPXAPUState) (val : Z) :
  let d' := mcpx_apu_write now_ms d NV_PAPU_FEMEMDATA val in
  ldl_le_phys (mem d') (regs d NV_PAPU_FEMEMADDR) = wrap32 val
  /\ regs d' NV_PAPU_FEMEMDATA = wrap32 val
  /\ (forall x, x < regs d NV_PAPU_FEMEMADDR \/ regs d NV_PAPU_FEMEMADDR + 4 <= x ->
        mem d' x = mem d x).
Proof.
  cbv zeta. change (mcpx_apu_write now_ms d NV_PAPU_FEMEMDATA val)
    with (set_reg (set_mem d (stl_le_phys (mem d) (regs d NV_PAPU_FEMEMADDR)
                                (wrap32 val))) NV_PAPU_FEMEMDATA (wrap32 val)).
  cbn [regs mem set_reg set_mem]. split.
  - apply ldl_stl_same. apply wrap32_range.
  - split; [apply upd_same|].
    intros x Hx. unfold stl_le_phys. now rewrite !upd_other by lia.
Qed.

(** X4.  A write to [SECTL] arms the frame timer 10 ms ahead exactly when
    bit 3 or bit 4 of the written value (the [XCNTMODE] field) is set, and
    cancels it otherwise, whatever the state of the timer was. *)
Theorem sectl_write_timer (now_ms : Z) (d : MCPXAPUState) (val : Z) :
  frame_timer (mcpx_apu_write now_ms d NV_PAPU_SECTL val)
  = if Z.testbit val 3 || Z.testbit val 4 then Some (now_ms + 10) else None.
Proof.
  change (mcpx_apu_write now_ms d NV_PAPU_SECTL val)
    with (set_reg (if Z.shiftr (Z.land val NV_PAPU_SECTL_XCNTMODE) 3
                      =? NV_PAPU_SECTL_XCNTMODE_OFF
                   then set_timer d None else set_timer d (Some (now_ms + 10)))
                  NV_PAPU_SECTL (wrap32 val)).
  assert (E : Z.shiftr (Z.land val NV_PAPU_SECTL_XCNTMODE) 3
              = Z.b2z (Z.testbit val 3) + 2 * Z.b2z (Z.testbit val 4)).
  { change NV_PAPU_SECTL_XCNTMODE with (Z.shiftl (Z.ones 2) 3).
    assert (E1 : Z.shiftr (Z.land val (Z.shiftl (Z.ones 2) 3)) 3
                 = Z.land (Z.shiftr val 3) (Z.ones 2)) by Z.bitblast.
    rewrite E1, Z.land_ones by lia.
    rewrite (Z.testbit_spec' val 3), (Z.testbit_spec' val 4) by lia.
    rewrite Z.shiftr_div_pow2 by lia.
    change (2 ^ 3) with 8. change (2 ^ 4) with 16. change (2 ^ 2) with 4.
    Z.div_mod_to_equations. lia. }
  rewrite E. unfold NV_PAPU_SECTL_XCNTMODE_OFF.
  destruct (Z.testbit val 3), (Z.testbit val 4); reflexivity.
Qed.

(** X5.  [update_irq] is idempotent: evaluating the interrupt arbiter a
    second time changes no register and leaves the interrupt line as the
    first evaluation set it, and after one evaluation the arbiter rule holds
    ([GINTSTS] and the line both equal the arbiter condition). *)
Theorem update_irq_idempotent (d : MCPXAPUState) :
  let d1 := update_irq d in
  let d2 := update_irq d1 in
  (forall a, regs d2 a = regs d1 a) /\ irq d2 = irq d1
  /\ arbiter_rule d1.
Proof.
  cbv zeta. split; [|split; [|apply update_irq_arbiter]].
  - intros a. destruct (Z.eq_dec a NV_PAPU_ISTS) as [->|Ha];
      [|now rewrite (update_irq_regs (update_irq d)) by assumption].
    unfold update_irq at 1.
    pose proof (update_irq_arbiter d) as Hr.
    unfold arbiter_rule, arbiter_ok, arbiter_condition in Hr.
    destruct (negb (Z.land (regs (update_irq d) NV_PAPU_IEN) NV_PAPU_ISTS_GINTSTS =? 0)
              && negb (Z.land (Z.land (regs (update_irq d) NV_PAPU_ISTS)
                                      (Z.lnot NV_PAPU_ISTS_GINTSTS))
                              (regs (update_irq d) NV_PAPU_IEN) =? 0));
      cbn [regs set_irq set_reg]; rewrite upd_same;
      apply andb_prop in Hr; destruct Hr as [Hb _];
      change NV_PAPU_ISTS_GINTSTS with (2 ^ 0).
    + apply Z.bits_inj'. intros i Hi. rewrite Z.lor_spec, Z.pow2_bits_eqb by lia.
      destruct (Z.eqb_spec 0 i) as [<-|]; [now rewrite Hb | apply orb_false_r].
    + apply Z.bits_inj'. intros i Hi.
      rewrite Z.land_spec, Z.lnot_spec, Z.pow2_bits_eqb by lia.
      destruct (Z.eqb_spec 0 i) as [<-|]; [|apply andb_true_r].
      apply negb_true_iff in Hb. rewrite Hb. reflexivity.
  - unfold update_irq at 1.
    pose proof (update_irq_arbiter d) as Hr.
    unfold arbiter_rule, arbiter_ok, arbiter_condition in Hr.
    destruct (negb (Z.land (regs (update_irq d) NV_PAPU_IEN) NV_PAPU_ISTS_GINTSTS =? 0)
              && negb (Z.land (Z.land (regs (update_irq d) NV_PAPU_ISTS)
                                      (Z.lnot NV_PAPU_ISTS_GINTSTS))
                              (regs (update_irq d) NV_PAPU_IEN) =? 0));
      cbn [irq set_irq set_reg]; apply andb_prop in Hr; destruct Hr as [_ Hb].
    + now rewrite Hb.
    + apply negb_true_iff in Hb. now rewrite Hb.
Qed.

(** ** Voice record fields *)

Lemma field_other_bits (old x mask mask' : Z) :
  0 <= old < 2 ^ 32 ->
  Z.land mask mask' = 0 ->
  Z.land (Z.lor (Z.land old (wrap32 (Z.lnot mask))) (Z.land x mask)) mask'
  = Z.land old mask'.
Proof.
  intros Ho Hm. apply Z.bits_inj'. intros i Hi.
  assert (Hb : Z.testbit mask i && Z.testbit mask' i = false)
    by (rewrite <- Z.land_spec, Hm; apply Z.bits_0).
  assert (Hold : 32 <= i -> Z.testbit old i = false).
  { intros H32. rewrite <- (Z.mod_small old (2 ^ 32)) by assumption.
    apply Z.mod_pow2_bits_high. lia. }
  unfold wrap32. rewrite !Z.land_spec, Z.lor_spec, !Z.land_spec.
  destruct (Z.ltb_spec i 32) as [Hlt|Hge].
  - rewrite Z.mod_pow2_bits_low, Z.lnot_spec by lia.
    destruct (Z.testbit mask i), (Z.testbit mask' i), (Z.testbit old i),
      (Z.testbit x i); simpl in *; congruence.
  - rewrite (Hold Hge). rewrite Z.mod_pow2_bits_high by lia.
    destruct (Z.testbit mask i), (Z.testbit mask' i), (Z.testbit x i);
      simpl in *; congruence.
Qed.

Lemma voice_set_mask_effect (d : MCPXAPUState) (h off mask val : Z) :
  h < 0xFFFF ->
  0 <= mask < 2 ^ 32 ->
  exists d',
    voice_set_mask d h off mask val = Done d'
    /\ voice_get_mask d' h off mask
       = Done (GET_MASK (wrap32 (Z.shiftl val (ctz32 mask))) mask)
    /\ (forall mask', Z.land mask mask' = 0 ->
          voice_get_mask d' h off mask' = voice_get_mask d h off mask')
    /\ (forall h' off' mask',
          voice_addr d h' + off' + 4 <= voice_addr d h + off
          \/ voice_addr d h + off + 4 <= voice_addr d h' + off' ->
          voice_get_mask d' h' off' mask' = voice_get_mask d h' off' mask')
    /\ regs d' = regs d /\ irq d' = irq d.
Proof.
  intros Hh Hm. rewrite voice_set_mask_done by assumption.
  eexists. split; [reflexivity|].
  set (w := Z.lor _ _).
  assert (Hw : 0 <= w < 2 ^ 32)
    by (apply field_word_range; [apply ldl_le_phys_range | assumption]).
  split; [|split; [|split; [|split; reflexivity]]].
  - rewrite voice_get_mask_done by assumption. cbn [mem set_mem].
    rewrite voice_addr_set_mem, ldl_stl_same by assumption.
    unfold w, GET_MASK. now rewrite field_get_set.
  - intros mask' Hd. rewrite !voice_get_mask_done by assumption. cbn [mem set_mem].
    rewrite voice_addr_set_mem, ldl_stl_same by assumption.
    unfold w. rewrite field_other_bits; [reflexivity | apply ldl_le_phys_range | exact Hd].
  - intros h' off' mask' Hsep. unfold voice_get_mask. cbn [mem set_mem].
    rewrite voice_addr_set_mem. now rewrite ldl_stl_other.
Qed.

(** X6.  [voice_set_mask] on a valid handle completes; reading the same
    field back with [voice_get_mask] returns the value written, cut to the
    width of the field; fields of the same word whose mask is disjoint from
    the one written keep their value, as does every word that does not
    overlap the one written; no register changes and the interrupt line
    stays as it was. *)
Theorem voice_set_mask_field (d : MCPXAPUState) (h off mask val : Z) :
  h < 0xFFFF ->
  0 <= mask < 2 ^ 32 ->
  exists d',
    voice_set_mask d h off mask val = Done d'
    /\ voice_get_mask d' h off mask
       = Done (GET_MASK (wrap32 (Z.shiftl val (ctz32 mask))) mask)
    /\ (forall mask', Z.land mask mask' = 0 ->
          voice_get_mask d' h off mask' = voice_get_mask d h off mask')
    /\ (forall h' off' mask',
          voice_addr d h' + off' + 4 <= voice_addr d h + off
          \/ voice_addr d h + off + 4 <= voice_addr d h' + off' ->
          voice_get_mask d' h' off' mask' = voice_get_mask d h' off' mask')
    /\ regs d' = regs d /\ irq d' = irq d.
Proof. exact (voice_set_mask_effect d h off mask val). Qed.

Lemma voice_set_mask_field_paused :
  (5 < 0xFFFF) /\ (0 <= NV_PAVS_VOICE_PAR_STATE_PAUSED < 2 ^ 32)
  /\ exists d',
       voice_set_mask blank_device 5 NV_PAVS_VOICE_PAR_STATE
         NV_PAVS_VOICE_PAR_STATE_PAUSED 1 = Done d'
       /\ voice_get_mask d' 5 NV_PAVS_VOICE_PAR_STATE NV_PAVS_VOICE_PAR_STATE_PAUSED
          = Done 1
       /\ voice_get_mask d' 5 NV_PAVS_VOICE_PAR_STATE
            NV_PAVS_VOICE_PAR_STATE_ACTIVE_VOICE = Done 0.
Proof.
  assert (H1 : 5 < 0xFFFF) by lia.
  assert (H2 : 0 <= NV_PAVS_VOICE_PAR_STATE_PAUSED < 2 ^ 32)
    by (vm_compute; split; congruence).
  split; [exact H1|]. split; [exact H2|].
  destruct (voice_set_mask_field blank_device 5 NV_PAVS_VOICE_PAR_STATE
              NV_PAVS_VOICE_PAR_STATE_PAUSED 1 H1 H2) as (d' & E & G & O & _).
  exists d'. split; [exact E|]. split; [exact G|].
  rewrite (O NV_PAVS_VOICE_PAR_STATE_ACTIVE_VOICE eq_refl). reflexivity.
Defined.

(** ** Front-end methods *)

Lemma fe_idle_voice_cases (d : MCPXAPUState) :
  (exists d', fe_idle_voice d = Done d'
              /\ forall a, a <> NV_PAPU_FECTL -> a <> NV_PAPU_ISTS ->
                           regs d' a = regs d a)
  \/ fe_idle_voice d = Abort A_idle_voice_disabled.
Proof.
  destruct (fe_idle_voice d) as [d'| |] eqn:E.
  - left. exists d'. split; [reflexivity|]. apply (fe_idle_voice_frame d d' E).
  - right. unfold fe_idle_voice in E. destruct (negb _); [discriminate|].
    now injection E as <-.
  - unfold fe_idle_voice in E. destruct (negb _); discriminate.
Qed.

(** Every way a call of [fe_method] can end. *)
Lemma fe_method_cases (d : MCPXAPUState) (m a : Z) :
  let d0 := set_reg (set_reg d NV_PAPU_FEDECMETH m) NV_PAPU_FEDECPARAM a in
  (fe_known_method m = true
   /\ ((exists d', fe_method d m a = Done d'
                   /\ regs d' NV_PAPU_FEDECMETH = m
                   /\ regs d' NV_PAPU_FEDECPARAM = a)
       \/ fe_method d m a = Abort A_voice_handle
       \/ fe_method d m a = Abort A_antecedent
       \/ fe_method d m a = Abort A_idle_voice_disabled))
  \/ (fe_known_method m = false /\ fe_method d m a = Abort A_unknown_method).
Proof.
  intros d0.
  assert (R1 : regs d0 NV_PAPU_FEDECMETH = m).
  { unfold d0. cbn [regs set_reg]. rewrite upd_other by discriminate. apply upd_same. }
  assert (R2 : regs d0 NV_PAPU_FEDECPARAM = a)
    by (unfold d0; cbn [regs set_reg]; apply upd_same).
  unfold fe_method, fe_known_method. fold d0.
  destruct (m =? NV1BA0_PIO_SET_ANTECEDENT_VOICE); cbn [orb].
  { left. split; [reflexivity|]. left. eexists. split; [reflexivity|].
    cbn [regs set_reg]. rewrite !(upd_other _ NV_PAPU_FEAV) by discriminate. auto. }
  destruct (m =? NV1BA0_PIO_VOICE_ON); cbn [orb].
  { left. split; [reflexivity|].
    destruct (fe_voice_on_cases d0 a) as [(d' & -> & S)|[-> | ->]]; [left|tauto|tauto].
    exists d'. split; [reflexivity|]. destruct S as (S & _).
    rewrite !S by (cbn; intuition discriminate). auto. }
  destruct (m =? NV1BA0_PIO_VOICE_OFF); cbn [orb].
  { left. split; [reflexivity|].
    destruct (voice_set_mask_cases d0 (Z.land a NV1BA0_PIO_VOICE_OFF_HANDLE)
                NV_PAVS_VOICE_PAR_STATE NV_PAVS_VOICE_PAR_STATE_ACTIVE_VOICE 0)
      as [[mm ->]| ->]; [left|tauto].
    eexists. split; [reflexivity|]. cbn [regs set_mem]. auto. }
  destruct (m =? NV1BA0_PIO_VOICE_PAUSE); cbn [orb].
  { left. split; [reflexivity|].
    match goal with |- context [voice_set_mask d0 ?h ?o ?k ?v] =>
      destruct (voice_set_mask_cases d0 h o k v) as [[mm ->]| ->]; [left|tauto] end.
    eexists. split; [reflexivity|]. cbn [regs set_mem]. auto. }
  destruct (m =? NV1BA0_PIO_SET_CURRENT_VOICE); cbn [orb].
  { left. split; [reflexivity|]. left. eexists. split; [reflexivity|].
    cbn [regs set_reg]. rewrite !(upd_other _ NV_PAPU_FECV) by discriminate. auto. }
  destruct (m =? SE2FE_IDLE_VOICE); cbn [orb].
  { left. split; [reflexivity|].
    destruct (fe_idle_voice_cases d0) as [(d' & -> & S)| ->]; [left|tauto].
    exists d'. split; [reflexivity|]. rewrite !S by discriminate. auto. }
  right. split; reflexivity.
Qed.

(** X7.  Whenever [fe_method] completes, [FEDECMETH] holds the method and
    [FEDECPARAM] the argument of the call: no method overwrites the two
    registers it was latched in. *)
Theorem fe_method_latches (d d' : MCPXAPUState) (m a : Z) :
  fe_method d m a = Done d' ->
  regs d' NV_PAPU_FEDECMETH = m /\ regs d' NV_PAPU_FEDECPARAM = a.
Proof.
  intros E.
  destruct (fe_method_cases d m a) as [[_ [(d1 & E1 & H1 & H2)|[E1|[E1|E1]]]]|[_ E1]];
    rewrite E1 in E; try discriminate.
  injection E as <-. auto.
Qed.

Lemma fe_method_latches_set_current :
  exists d',
    fe_method blank_device NV1BA0_PIO_SET_CURRENT_VOICE 7 = Done d'
    /\ regs d' NV_PAPU_FEDECMETH = NV1BA0_PIO_SET_CURRENT_VOICE
    /\ regs d' NV_PAPU_FEDECPARAM = 7.
Proof.
  eexists. split; [reflexivity|].
  exact (fe_method_latches blank_device _ NV1BA0_PIO_SET_CURRENT_VOICE 7 eq_refl).
Defined.

(** X8.  [fe_method] stops on its [default: assert(false)] exactly for the
    methods other than the six it handles, and it always returns or
    asserts: it has no loop. *)
Theorem fe_method_unknown (d : MCPXAPUState) (m a : Z) :
  (fe_method d m a = Abort A_unknown_method <-> fe_known_method m = false)
  /\ fe_method d m a <> Diverge.
Proof.
  destruct (fe_method_cases d m a) as [[K [(d1 & E1 & _)|[E1|[E1|E1]]]]|[K E1]];
    rewrite E1, K; split; try discriminate; split; intros; try discriminate; reflexivity.
Qed.

Lemma voice_get_mask_regs_only (d d' : MCPXAPUState) (h off mask : Z) :
  mem d' = mem d -> regs d' NV_PAPU_VPVADDR = regs d NV_PAPU_VPVADDR ->
  voice_get_mask d' h off mask = voice_get_mask d h off mask.
Proof.
  intros Hm Hv. unfold voice_get_mask, voice_addr. now rewrite Hm, Hv.
Qed.

Lemma land_handle_range (a : Z) : 0 <= Z.land a 0xFFFF <= 0xFFFF.
Proof.
  change 0xFFFF with (Z.ones 16) at 1 2. rewrite Z.land_ones by lia.
  pose proof (Z.mod_pos_bound a (2 ^ 16) eq_refl). change (2 ^ 16) with 65536 in *. lia.
Qed.

(** Fields of one record sit in words of the record; two fields at distinct
    word offsets never share a byte. *)
Lemma same_voice_words_apart (d : MCPXAPUState) (h off off' : Z) :
  off + 4 <= off' \/ off' + 4 <= off ->
  voice_addr d h + off' + 4 <= voice_addr d h + off
  \/ voice_addr d h + off + 4 <= voice_addr d h + off'.
Proof. lia. Qed.

Lemma other_voice_words_apart (d : MCPXAPUState) (h h' off off' : Z) :
  0 <= h < 0xFFFF -> 0 <= h' < 0xFFFF -> h <> h' ->
  0 <= off <= 0x7C -> 0 <= off' <= 0x7C ->
  voice_addr d h' + off' + 4 <= voice_addr d h + off
  \/ voice_addr d h + off + 4 <= voice_addr d h' + off'.
Proof.
  intros Hh Hh' Hne Ho Ho'.
  destruct (voice_addr_apart d h h' Hh Hh' Hne); lia.
Qed.

(** X9.  [VOICE_OFF] on a handle other than 0xFFFF completes and clears the
    [ACTIVE_VOICE] bit of that voice only: the voice stays linked where it
    was (its [NEXT_VOICE_HANDLE] and its [PAUSED] bit are unchanged), every
    other voice keeps its link and its active bit, and the three TOP
    registers are unchanged. *)
Theorem voice_off_keeps_link (d : MCPXAPUState) (arg : Z) :
  let h := Z.land arg NV1BA0_PIO_VOICE_OFF_HANDLE in
  h <> 0xFFFF ->
  exists d',
    fe_method d NV1BA0_PIO_VOICE_OFF arg = Done d'
    /\ voice_active d' h = Done 0
    /\ next_link d' h = next_link d h
    /\ voice_paused d' h = voice_paused d h
    /\ (forall h', 0 <= h' < 0xFFFF -> h' <> h ->
          next_link d' h' = next_link d h' /\ voice_active d' h' = voice_active d h')
    /\ (forall l, TOP d' l = TOP d l).
Proof.
  intros h Hh.
  pose proof (land_handle_range arg) as Hr. fold h in Hr.
  change NV1BA0_PIO_VOICE_OFF_HANDLE with 0xFFFF in h. fold h in Hr.
  set (d0 := set_reg (set_reg d NV_PAPU_FEDECMETH NV1BA0_PIO_VOICE_OFF)
                     NV_PAPU_FEDECPARAM arg).
  change (fe_method d NV1BA0_PIO_VOICE_OFF arg)
    with (voice_set_mask d0 h NV_PAVS_VOICE_PAR_STATE
            NV_PAVS_VOICE_PAR_STATE_ACTIVE_VOICE 0).
  assert (G0 : forall x off mask, voice_get_mask d0 x off mask = voice_get_mask d x off mask).
  { intros. apply voice_get_mask_regs_only; [reflexivity|].
    unfold d0. cbn [regs set_reg]. now rewrite !upd_other by discriminate. }
  assert (V0 : forall x, voice_addr d0 x = voice_addr d x).
  { intros x. unfold voice_addr, d0. cbn [regs set_reg].
    now rewrite !upd_other by discriminate. }
  destruct (voice_set_mask_effect d0 h NV_PAVS_VOICE_PAR_STATE
              NV_PAVS_VOICE_PAR_STATE_ACTIVE_VOICE 0)
    as (d' & E & G & O & F & R & _); [lia | vm_compute; split; congruence |].
  exists d'. split; [exact E|].
  split; [unfold voice_active; rewrite G; reflexivity|].
  split.
  { unfold next_link. rewrite F, G0; [reflexivity|].
    apply same_voice_words_apart.
    unfold NV_PAVS_VOICE_PAR_STATE, NV_PAVS_VOICE_TAR_PITCH_LINK. lia. }
  split.
  { unfold voice_paused. rewrite O, G0; reflexivity. }
  split.
  { intros h' Hh' Hne. unfold next_link, voice_active.
    rewrite !F, !G0; [split; reflexivity | |]; rewrite !V0;
      apply other_voice_words_apart;
      unfold NV_PAVS_VOICE_PAR_STATE, NV_PAVS_VOICE_TAR_PITCH_LINK; lia. }
  intros l. unfold TOP. rewrite R. unfold d0. cbn [regs set_reg].
  rewrite !upd_other; [reflexivity | |];
    unfold voice_list_reg_at; destruct (Z.to_nat (l - 1)) as [|[|[|[|k]]]];
    cbn; discriminate.
Qed.

Lemma voice_off_keeps_link_five :
  (Z.land 5 NV1BA0_PIO_VOICE_OFF_HANDLE <> 0xFFFF)
  /\ exists d',
       fe_method voice_inherit_device NV1BA0_PIO_VOICE_OFF 5 = Done d'
       /\ voice_active d' 5 = Done 0
       /\ next_link d' 5 = Done 0xFFFF.
Proof.
  assert (H : Z.land 5 NV1BA0_PIO_VOICE_OFF_HANDLE <> 0xFFFF) by discriminate.
  split; [exact H|].
  destruct (voice_off_keeps_link voice_inherit_device 5 H) as (d' & E & A & N & _).
  change (Z.land 5 NV1BA0_PIO_VOICE_OFF_HANDLE) with 5 in A, N.
  exists d'. split; [exact E|]. split; [exact A|]. rewrite N. reflexivity.
Defined.

(** X10.  [VOICE_PAUSE] on a handle other than 0xFFFF completes and sets
    the [PAUSED] bit of that voice to bit 18 of the argument (the [ACTION]
    bit), leaving its active bit, its link and the three TOP registers
    unchanged. *)
Theorem voice_pause_sets_paused (d : MCPXAPUState) (arg : Z) :
  let h := Z.land arg NV1BA0_PIO_VOICE_PAUSE_HANDLE in
  h <> 0xFFFF ->
  exists d',
    fe_method d NV1BA0_PIO_VOICE_PAUSE arg = Done d'
    /\ voice_paused d' h = Done (if Z.testbit arg 18 then 1 else 0)
    /\ voice_active d' h = voice_active d h
    /\ next_link d' h = next_link d h
    /\ (forall l, TOP d' l = TOP d l).
Proof.
  intros h Hh.
  pose proof (land_handle_range arg) as Hr. fold h in Hr.
  change NV1BA0_PIO_VOICE_PAUSE_HANDLE with 0xFFFF in h. fold h in Hr.
  set (d0 := set_reg (set_reg d NV_PAPU_FEDECMETH NV1BA0_PIO_VOICE_PAUSE)
                     NV_PAPU_FEDECPARAM arg).
  set (v := if negb (Z.land arg NV1BA0_PIO_VOICE_PAUSE_ACTION =? 0) then 1 else 0).
  change (fe_method d NV1BA0_PIO_VOICE_PAUSE arg)
    with (voice_set_mask d0 h NV_PAVS_VOICE_PAR_STATE
            NV_PAVS_VOICE_PAR_STATE_PAUSED v).
  assert (Ev : v = if Z.testbit arg 18 then 1 else 0).
  { unfold v. change NV1BA0_PIO_VOICE_PAUSE_ACTION with (2 ^ 18).
    rewrite land_pow2_eqb by lia. now rewrite negb_involutive. }
  assert (G0 : forall x off mask, voice_get_mask d0 x off mask = voice_get_mask d x off mask).
  { intros. apply voice_get_mask_regs_only; [reflexivity|].
    unfold d0. cbn [regs set_reg]. now rewrite !upd_other by discriminate. }
  destruct (voice_set_mask_effect d0 h NV_PAVS_VOICE_PAR_STATE
              NV_PAVS_VOICE_PAR_STATE_PAUSED v)
    as (d' & E & G & O & F & R & _); [lia | vm_compute; split; congruence |].
  exists d'. split; [exact E|].
  split.
  { unfold voice_paused. rewrite G, Ev. destruct (Z.testbit arg 18); reflexivity. }
  split; [unfold voice_active; rewrite O, G0; reflexivity|].
  split.
  { unfold next_link. rewrite F, G0; [reflexivity|].
    apply same_voice_words_apart.
    unfold NV_PAVS_VOICE_PAR_STATE, NV_PAVS_VOICE_TAR_PITCH_LINK. lia. }
  intros l. unfold TOP. rewrite R. unfold d0. cbn [regs set_reg].
  rewrite !upd_other; [reflexivity | |];
    unfold voice_list_reg_at; destruct (Z.to_nat (l - 1)) as [|[|[|[|k]]]];
    cbn; discriminate.
Qed.

Lemma voice_pause_sets_paused_five :
  (Z.land 0x40005 NV1BA0_PIO_VOICE_PAUSE_HANDLE <> 0xFFFF)
  /\ exists d',
       fe_method blank_device NV1BA0_PIO_VOICE_PAUSE 0x40005 = Done d'
       /\ voice_paused d' 5 = Done 1.
Proof.
  assert (H : Z.land 0x40005 NV1BA0_PIO_VOICE_PAUSE_HANDLE <> 0xFFFF) by discriminate.
  split; [exact H|].
  destruct (voice_pause_sets_paused blank_device 0x40005 H) as (d' & E & A & _).
  change (Z.land 0x40005 NV1BA0_PIO_VOICE_PAUSE_HANDLE) with 5 in A.
  exists d'. split; [exact E|exact A].
Defined.

(** X11.  The end-of-list marker is no voice: with 0xFFFF in the handle
    field of the argument, [VOICE_OFF] and [VOICE_PAUSE] stop on the
    handle assertion of [voice_set_mask], and so does [VOICE_ON], both when
    a list is selected and when the voice is to be linked after an
    antecedent other than 0xFFFF. *)
Theorem fe_method_end_marker_handle (d : MCPXAPUState) (arg : Z) :
  Z.land arg 0xFFFF = 0xFFFF ->
  fe_method d NV1BA0_PIO_VOICE_OFF arg = Abort A_voice_handle
  /\ fe_method d NV1BA0_PIO_VOICE_PAUSE arg = Abort A_voice_handle
  /\ (GET_MASK (regs d NV_PAPU_FEAV) NV_PAPU_FEAV_LST
      <> NV1BA0_PIO_SET_ANTECEDENT_VOICE_LIST_INHERIT ->
      fe_method d NV1BA0_PIO_VOICE_ON arg = Abort A_voice_handle)
  /\ (GET_MASK (regs d NV_PAPU_FEAV) NV_PAPU_FEAV_LST
      = NV1BA0_PIO_SET_ANTECEDENT_VOICE_LIST_INHERIT ->
      GET_MASK (regs d NV_PAPU_FEAV) NV_PAPU_FEAV_VALUE <> 0xFFFF ->
      fe_method d NV1BA0_PIO_VOICE_ON arg = Abort A_voice_handle).
Proof.
  intros H.
  assert (Hs : forall d0 off mask val,
             voice_set_mask d0 (Z.land arg 0xFFFF) off mask val = Abort A_voice_handle).
  { intros. rewrite H. reflexivity. }
  split; [apply Hs|]. split; [apply Hs|].
  set (d0 := set_reg (set_reg d NV_PAPU_FEDECMETH NV1BA0_PIO_VOICE_ON)
                     NV_PAPU_FEDECPARAM arg).
  assert (R : regs d0 NV_PAPU_FEAV = regs d NV_PAPU_FEAV)
    by (unfold d0; cbn [regs set_reg]; now rewrite !upd_other by discriminate).
  change (fe_method d NV1BA0_PIO_VOICE_ON arg) with (fe_voice_on d0 arg).
  unfold fe_voice_on. rewrite R. change NV1BA0_PIO_VOICE_ON_HANDLE with 0xFFFF.
  split.
  - intros Hl. replace (_ =? NV1BA0_PIO_SET_ANTECEDENT_VOICE_LIST_INHERIT) with false
      by (symmetry; now apply Z.eqb_neq).
    cbn [negb]. rewrite Hs. reflexivity.
  - intros Hl Ha. rewrite Hl, Z.eqb_refl. cbn [negb]. unfold assert.
    replace (_ =? 65535) with false by (symmetry; now apply Z.eqb_neq).
    cbn [negb bind].
    pose proof (feav_value_range (regs d NV_PAPU_FEAV)) as Hr.
    rewrite voice_get_mask_done by lia. cbn [bind]. rewrite Hs. reflexivity.
Qed.

Lemma fe_method_end_marker_handle_off :
  Z.land 0xFFFF 0xFFFF = 0xFFFF
  /\ fe_method blank_device NV1BA0_PIO_VOICE_OFF 0xFFFF = Abort A_voice_handle.
Proof.
  split; [reflexivity|].
  exact (proj1 (fe_method_end_marker_handle blank_device 0xFFFF eq_refl)).
Defined.

(** X12.  [VOICE_ON] stops on [assert(antecedent_voice != 0xFFFF)] exactly
    when [FEAV] selects inheritance ([LST] = 0) and its [VALUE] field is
    0xFFFF; no other state of [FEAV] and no argument trips that
    assertion. *)
Theorem voice_on_antecedent_abort (d : MCPXAPUState) (arg : Z) :
  fe_method d NV1BA0_PIO_VOICE_ON arg = Abort A_antecedent
  <-> (GET_MASK (regs d NV_PAPU_FEAV) NV_PAPU_FEAV_LST
       = NV1BA0_PIO_SET_ANTECEDENT_VOICE_LIST_INHERIT
       /\ GET_MASK (regs d NV_PAPU_FEAV) NV_PAPU_FEAV_VALUE = 0xFFFF).
Proof.
  set (d0 := set_reg (set_reg d NV_PAPU_FEDECMETH NV1BA0_PIO_VOICE_ON)
                     NV_PAPU_FEDECPARAM arg).
  assert (R : regs d0 NV_PAPU_FEAV = regs d NV_PAPU_FEAV)
    by (unfold d0; cbn [regs set_reg]; now rewrite !upd_other by discriminate).
  change (fe_method d NV1BA0_PIO_VOICE_ON arg) with (fe_voice_on d0 arg).
  unfold fe_voice_on. rewrite R.
  set (h := Z.land arg NV1BA0_PIO_VOICE_ON_HANDLE).
  assert (S1 : forall d1 off mask val,
             voice_set_mask d1 h off mask val <> Abort A_antecedent).
  { intros d1 off mask val.
    destruct (voice_set_mask_cases d1 h off mask val) as [[m ->]| ->]; discriminate. }
  assert (S2 : forall (r : outcome MCPXAPUState) off mask val,
             r <> Abort A_antecedent ->
             (d1 <- r ;; voice_set_mask d1 h off mask val) <> Abort A_antecedent).
  { intros [d1|w|] off mask val Hr; cbn [bind]; [apply S1|exact Hr|discriminate]. }
  destruct (GET_MASK (regs d NV_PAPU_FEAV) NV_PAPU_FEAV_LST
            =? NV1BA0_PIO_SET_ANTECEDENT_VOICE_LIST_INHERIT) eqn:El; cbn [negb].
  - apply Z.eqb_eq in El.
    destruct (GET_MASK (regs d NV_PAPU_FEAV) NV_PAPU_FEAV_VALUE =? 0xFFFF) eqn:Ea.
    + apply Z.eqb_eq in Ea. split; [intros _; now split|intros _].
      reflexivity.
    + split; [|intros [_ Ha]; rewrite Ha in Ea; discriminate].
      intros Habs. exfalso. revert Habs. apply S2.
      unfold assert. cbn [negb bind].
      apply Z.eqb_neq in Ea.
      pose proof (feav_value_range (regs d NV_PAPU_FEAV)) as Hr.
      rewrite voice_get_mask_done by lia. cbn [bind].
      match goal with |- (d' <- ?r ;; @?k d') <> _ =>
        destruct r as [d1|w|] eqn:E1 end; cbn [bind].
      * match goal with |- voice_set_mask ?x ?y ?o ?k ?v <> _ =>
          destruct (voice_set_mask_cases x y o k v) as [[m ->]| ->]; discriminate end.
      * intros [= ->]. now apply S1 in E1.
      * discriminate.
  - apply Z.eqb_neq in El. split; [|intros [Hl _]; contradiction].
    intros Habs. exfalso. revert Habs. apply S2.
    match goal with |- (d' <- ?r ;; @?k d') <> _ =>
      destruct r as [d1|w|] eqn:E1 end; cbn [bind]; try discriminate.
    intros [= ->]. now apply S1 in E1.
Qed.

(** What a top insertion does, in full. *)
Lemma fe_voice_on_top_effect (d : MCPXAPUState) (arg l : Z) :
  let h := Z.land arg NV1BA0_PIO_VOICE_ON_HANDLE in
  let top := vl_top (voice_list_reg_at (l - 1)) in
  h <> 0xFFFF ->
  1 <= l <= 3 ->
  GET_MASK (regs d NV_PAPU_FEAV) NV_PAPU_FEAV_LST = l ->
  exists d',
    fe_method d NV1BA0_PIO_VOICE_ON arg = Done d'
    /\ next_link d' h = Done (Z.land (TOP d l) 0xFFFF)
    /\ TOP d' l = h
    /\ voice_active d' h = Done 1
    /\ (forall h' off' mask', 0 <= h' < 0xFFFF -> h' <> h -> 0 <= off' <= 0x7C ->
          voice_get_mask d' h' off' mask' = voice_get_mask d h' off' mask')
    /\ (forall a, a <> top -> a <> NV_PAPU_FEDECMETH -> a <> NV_PAPU_FEDECPARAM ->
          regs d' a = regs d a)
    /\ irq d' = irq d.
Proof.
  intros h top Hh Hl HL.
  pose proof (land_handle_range arg) as Hr.
  change NV1BA0_PIO_VOICE_ON_HANDLE with 0xFFFF in h. fold h in Hr.
  pose proof (top_reg_cases l Hl) as Htop. cbv zeta in Htop. fold top in Htop.
  set (d0 := set_reg (set_reg d NV_PAPU_FEDECMETH NV1BA0_PIO_VOICE_ON)
                     NV_PAPU_FEDECPARAM arg).
  change (fe_method d NV1BA0_PIO_VOICE_ON arg) with (fe_voice_on d0 arg).
  assert (R : forall a, a <> NV_PAPU_FEDECMETH -> a <> NV_PAPU_FEDECPARAM ->
                        regs d0 a = regs d a).
  { intros a Ha Hb. unfold d0. cbn [regs set_reg]. now rewrite !upd_other by congruence. }
  assert (G0 : forall x off mask, voice_get_mask d0 x off mask = voice_get_mask d x off mask).
  { intros. apply voice_get_mask_regs_only; [reflexivity|]. apply R; discriminate. }
  assert (V0 : forall x, voice_addr d0 x = voice_addr d x).
  { intros x. unfold voice_addr. now rewrite R by discriminate. }
  unfold fe_voice_on. change NV1BA0_PIO_VOICE_ON_HANDLE with 0xFFFF. fold h.
  rewrite R by discriminate. rewrite HL.
  replace (l =? NV1BA0_PIO_SET_ANTECEDENT_VOICE_LIST_INHERIT) with false
    by (symmetry; apply Z.eqb_neq; unfold NV1BA0_PIO_SET_ANTECEDENT_VOICE_LIST_INHERIT; lia).
  cbn [negb]. fold top.
  assert (Rtop : regs d0 top = TOP d l).
  { unfold TOP. fold top. apply R; destruct Htop as [->|[->| ->]]; discriminate. }
  rewrite Rtop.
  destruct (voice_set_mask_effect d0 h NV_PAVS_VOICE_TAR_PITCH_LINK
              NV_PAVS_VOICE_TAR_PITCH_LINK_NEXT_VOICE_HANDLE (TOP d l))
    as (d1 & E1 & G1 & _ & F1 & R1 & I1); [lia | vm_compute; split; congruence |].
  rewrite E1. cbn [bind].
  set (d2 := set_reg d1 top h).
  assert (G2 : forall x off mask, voice_get_mask d2 x off mask = voice_get_mask d1 x off mask).
  { intros. apply voice_get_mask_regs_only; [reflexivity|].
    unfold d2. cbn [regs set_reg]. apply upd_other.
    destruct Htop as [->|[->| ->]]; discriminate. }
  assert (V2 : forall x, voice_addr d2 x = voice_addr d x).
  { intros x. unfold voice_addr, d2. cbn [regs set_reg].
    rewrite upd_other by (destruct Htop as [->|[->| ->]]; discriminate).
    rewrite R1. now rewrite R by discriminate. }
  destruct (voice_set_mask_effect d2 h NV_PAVS_VOICE_PAR_STATE
              NV_PAVS_VOICE_PAR_STATE_ACTIVE_VOICE 1)
    as (d3 & E3 & G3 & _ & F3 & R3 & I3); [lia | vm_compute; split; congruence |].
  rewrite E3. exists d3. split; [reflexivity|].
  split.
  { unfold next_link. rewrite F3, G2, G1.
    - unfold GET_MASK. now rewrite link_field.
    - apply same_voice_words_apart.
      unfold NV_PAVS_VOICE_PAR_STATE, NV_PAVS_VOICE_TAR_PITCH_LINK. lia. }
  split.
  { unfold TOP. fold top. rewrite R3. unfold d2. cbn [regs set_reg]. apply upd_same. }
  split; [unfold voice_active; rewrite G3; reflexivity|].
  split.
  { intros h' off' mask' Hh' Hne Ho.
    rewrite F3, G2, F1, G0; [reflexivity | |].
    - rewrite !V0. apply other_voice_words_apart;
        unfold NV_PAVS_VOICE_TAR_PITCH_LINK; lia.
    - rewrite !V2. apply other_voice_words_apart;
        unfold NV_PAVS_VOICE_PAR_STATE; lia. }
  split.
  { intros a Ha Hb Hc. rewrite R3. unfold d2. cbn [regs set_reg].
    rewrite upd_other by congruence. rewrite R1. now apply R. }
  rewrite I3. unfold d2. cbn [irq set_reg]. rewrite I1. reflexivity.
Qed.

(** X13.  What [VOICE_ON] at the top of list [l] leaves alone: the link,
    the active bit and the paused bit of every other voice, the TOP
    registers of the other two lists, [FEAV], [ISTS], [FECTL] and the
    interrupt line. *)
Theorem voice_on_top_frame (d : MCPXAPUState) (arg l : Z) :
  let h := Z.land arg NV1BA0_PIO_VOICE_ON_HANDLE in
  h <> 0xFFFF ->
  1 <= l <= 3 ->
  GET_MASK (regs d NV_PAPU_FEAV) NV_PAPU_FEAV_LST = l ->
  exists d',
    fe_method d NV1BA0_PIO_VOICE_ON arg = Done d'
    /\ (forall h', 0 <= h' < 0xFFFF -> h' <> h ->
          next_link d' h' = next_link d h'
          /\ voice_active d' h' = voice_active d h'
          /\ voice_paused d' h' = voice_paused d h')
    /\ (forall l', 1 <= l' <= 3 -> l' <> l -> TOP d' l' = TOP d l')
    /\ regs d' NV_PAPU_FEAV = regs d NV_PAPU_FEAV
    /\ regs d' NV_PAPU_ISTS = regs d NV_PAPU_ISTS
    /\ regs d' NV_PAPU_FECTL = regs d NV_PAPU_FECTL
    /\ irq d' = irq d.
Proof.
  intros h Hh Hl HL.
  destruct (fe_voice_on_top_effect d arg l Hh Hl HL) as (d' & E & _ & _ & _ & F & R & I).
  pose proof (top_reg_cases l Hl) as Htop. cbv zeta in Htop.
  exists d'. split; [exact E|]. split.
  { intros h' Hh' Hne. unfold next_link, voice_active, voice_paused.
    rewrite !F by (try assumption;
                   unfold NV_PAVS_VOICE_PAR_STATE, NV_PAVS_VOICE_TAR_PITCH_LINK; lia).
    auto. }
  split.
  { intros l' Hl' Hne. unfold TOP. apply R.
    - assert (l = 1 \/ l = 2 \/ l = 3) as [->|[->| ->]] by lia;
        assert (l' = 1 \/ l' = 2 \/ l' = 3) as [->|[->| ->]] by lia;
        try congruence; cbn; discriminate.
    - assert (l' = 1 \/ l' = 2 \/ l' = 3) as [->|[->| ->]] by lia; cbn; discriminate.
    - assert (l' = 1 \/ l' = 2 \/ l' = 3) as [->|[->| ->]] by lia; cbn; discriminate. }
  repeat split; try exact I;
    apply R; try discriminate; destruct Htop as [->|[->| ->]]; discriminate.
Qed.

Lemma voice_on_top_frame_empty :
  (Z.land 9 NV1BA0_PIO_VOICE_ON_HANDLE <> 0xFFFF) /\ (1 <= 2 <= 3)
  /\ exists d',
       fe_method voice_top_empty_device NV1BA0_PIO_VOICE_ON 9 = Done d'
       /\ next_link d' 5 = next_link voice_top_empty_device 5
       /\ TOP d' 1 = TOP voice_top_empty_device 1.
Proof.
  assert (H1 : Z.land 9 NV1BA0_PIO_VOICE_ON_HANDLE <> 0xFFFF) by discriminate.
  assert (H2 : 1 <= 2 <= 3) by lia.
  split; [exact H1|]. split; [exact H2|].
  destruct (voice_on_top_frame voice_top_empty_device 9 2 H1 H2 eq_refl)
    as (d' & E & F & T & _).
  exists d'. split; [exact E|]. split.
  - apply (F 5); [lia | discriminate].
  - apply T; lia.
Defined.

(** X14.  Two [VOICE_ON] calls for distinct handles [h1] then [h2] at the
    top of the same list both complete and stack the voices: TOP is [h2],
    [h2] links to [h1], [h1] links to the low 16 bits of the former TOP, and
    both voices are active.  The second insertion does not disturb the
    first. *)
Theorem voice_on_top_twice (d : MCPXAPUState) (h1 h2 l : Z) :
  0 <= h1 < 0xFFFF -> 0 <= h2 < 0xFFFF -> h1 <> h2 ->
  1 <= l <= 3 ->
  GET_MASK (regs d NV_PAPU_FEAV) NV_PAPU_FEAV_LST = l ->
  exists d1 d2,
    fe_method d NV1BA0_PIO_VOICE_ON h1 = Done d1
    /\ fe_method d1 NV1BA0_PIO_VOICE_ON h2 = Done d2
    /\ TOP d2 l = h2
    /\ next_link d2 h2 = Done h1
    /\ next_link d2 h1 = Done (Z.land (TOP d l) 0xFFFF)
    /\ voice_active d2 h1 = Done 1
    /\ voice_active d2 h2 = Done 1.
Proof.
  intros Hh1 Hh2 Hne Hl HL.
  assert (E1 : Z.land h1 NV1BA0_PIO_VOICE_ON_HANDLE = h1) by now apply land_handle.
  assert (E2 : Z.land h2 NV1BA0_PIO_VOICE_ON_HANDLE = h2) by now apply land_handle.
  pose proof (top_reg_cases l Hl) as Htop. cbv zeta in Htop.
  destruct (fe_voice_on_top_effect d h1 l) as (d1 & F1 & N1 & T1 & A1 & _ & R1 & _);
    [rewrite E1; lia | exact Hl | exact HL |].
  rewrite E1 in *.
  assert (HL1 : GET_MASK (regs d1 NV_PAPU_FEAV) NV_PAPU_FEAV_LST = l).
  { rewrite R1; [exact HL | | discriminate | discriminate].
    destruct Htop as [->|[->| ->]]; discriminate. }
  destruct (fe_voice_on_top_effect d1 h2 l) as (d2 & F2 & N2 & T2 & A2 & K2 & _);
    [rewrite E2; lia | exact Hl | exact HL1 |].
  rewrite E2 in *.
  exists d1, d2. split; [exact F1|]. split; [exact F2|]. split; [exact T2|].
  split; [rewrite N2, T1; now rewrite land_handle|].
  split.
  { unfold next_link in *. rewrite K2; [exact N1 | lia | congruence |].
    unfold NV_PAVS_VOICE_TAR_PITCH_LINK. lia. }
  split; [|exact A2].
  unfold voice_active in *. rewrite K2; [exact A1 | lia | congruence |].
  unfold NV_PAVS_VOICE_PAR_STATE. lia.
Qed.

Lemma voice_on_top_twice_empty :
  (0 <= 5 < 0xFFFF) /\ (0 <= 9 < 0xFFFF) /\ 5 <> 9 /\ (1 <= 2 <= 3)
  /\ exists d1 d2,
       fe_method voice_top_empty_device NV1BA0_PIO_VOICE_ON 5 = Done d1
       /\ fe_method d1 NV1BA0_PIO_VOICE_ON 9 = Done d2
       /\ TOP d2 2 = 9
       /\ next_link d2 9 = Done 5
       /\ next_link d2 5 = Done 0xFFFF.
Proof.
  assert (H1 : 0 <= 5 < 0xFFFF) by lia.
  assert (H2 : 0 <= 9 < 0xFFFF) by lia.
  assert (H3 : 5 <> 9) by lia.
  assert (H4 : 1 <= 2 <= 3) by lia.
  split; [exact H1|]. split; [exact H2|]. split; [exact H3|]. split; [exact H4|].
  destruct (voice_on_top_twice voice_top_empty_device 5 9 2 H1 H2 H3 H4 eq_refl)
    as (d1 & d2 & F1 & F2 & T & N2 & N1 & _).
  exists d1, d2. split; [exact F1|]. split; [exact F2|]. split; [exact T|].
  split; [exact N2|exact N1].
Defined.

(** ** Well-formed lists under insertion, and the next tick *)

Lemma next_link_range (d : MCPXAPUState) (h n : Z) :
  next_link d h = Done n -> h < 0xFFFF /\ 0 <= n <= 0xFFFF.
Proof.
  intros E. pose proof (voice_get_mask_handle _ _ _ _ _ E) as Hh.
  split; [exact Hh|]. unfold next_link in E.
  rewrite voice_get_mask_done in E by assumption. injection E as <-.
  change (ctz32 NV_PAVS_VOICE_TAR_PITCH_LINK_NEXT_VOICE_HANDLE) with 0.
  rewrite Z.shiftr_0_r. apply land_handle_range.
Qed.

(** A list is still well-formed in a device that shows the same records for
    every voice but [h], as long as [h] is not on the list. *)
Lemma voice_chain_agree (n : nat) :
  forall d d' start h,
    (forall h' off mask, 0 <= h' < 0xFFFF -> h' <> h -> 0 <= off <= 0x7C ->
       voice_get_mask d' h' off mask = voice_get_mask d h' off mask) ->
    regs d' NV_PAPU_FETFORCE1 = regs d NV_PAPU_FETFORCE1 ->
    0 <= start ->
    chain_avoids d n start h -> voice_chain d n start -> voice_chain d' n start.
Proof.
  induction n as [|n IH]; intros d d' start h F T Hs Ha Hc;
    cbn [voice_chain chain_avoids] in *; [exact Hc|].
  destruct Ha as [Hne Ha].
  destruct (next_link d start) as [nxt| |] eqn:En; try contradiction.
  destruct (voice_active d start) as [act| |] eqn:Ea; try contradiction.
  destruct (next_link_range d start nxt En) as [Hlt Hn].
  unfold next_link, voice_active in *.
  rewrite !F by (try assumption; try lia;
                 unfold NV_PAVS_VOICE_PAR_STATE, NV_PAVS_VOICE_TAR_PITCH_LINK; lia).
  rewrite En, Ea, T. destruct Hc as [Hact Hrest]. split; [exact Hact|].
  apply (IH d d' nxt h); try assumption. lia.
Qed.

(** X15.  [VOICE_ON] at the top of a list the scheduler can walk in [n]
    steps, for a handle that is not already on that list, completes and
    leaves a list the scheduler can walk in [n + 1] steps, starting at the
    new voice. *)
Theorem voice_on_top_keeps_chain (d : MCPXAPUState) (arg l : Z) (n : nat) :
  let h := Z.land arg NV1BA0_PIO_VOICE_ON_HANDLE in
  h <> 0xFFFF ->
  1 <= l <= 3 ->
  GET_MASK (regs d NV_PAPU_FEAV) NV_PAPU_FEAV_LST = l ->
  0 <= TOP d l ->
  voice_chain d n (TOP d l) ->
  chain_avoids d n (TOP d l) h ->
  exists d',
    fe_method d NV1BA0_PIO_VOICE_ON arg = Done d'
    /\ voice_chain d' (S n) (TOP d' l).
Proof.
  intros h Hh Hl HL Ht Hc Ha.
  destruct (fe_voice_on_top_effect d arg l Hh Hl HL) as (d' & E & N & T & A & F & R & _).
  fold h in N, T, A, F.
  pose proof (top_reg_cases l Hl) as Htop. cbv zeta in Htop.
  exists d'. split; [exact E|].
  assert (Htop16 : TOP d l <= 0xFFFF).
  { destruct n; cbn [voice_chain] in Hc; [lia|].
    destruct (next_link d (TOP d l)) as [nxt| |] eqn:En; try contradiction.
    destruct (next_link_range _ _ _ En). lia. }
  rewrite T. cbn [voice_chain]. rewrite N, A.
  split; [left; discriminate|].
  replace (Z.land (TOP d l) 65535) with (TOP d l).
  2:{ symmetry. change 65535 with (Z.ones 16). rewrite Z.land_ones by lia.
      apply Z.mod_small. change (2 ^ 16) with 65536. lia. }
  apply (voice_chain_agree n d d' (TOP d l) h); try assumption.
  apply R; try discriminate. destruct Htop as [->|[->| ->]]; discriminate.
Qed.

Lemma voice_on_top_keeps_chain_busy :
  (Z.land 9 NV1BA0_PIO_VOICE_ON_HANDLE <> 0xFFFF) /\ (1 <= 1 <= 3)
  /\ GET_MASK (regs voice_top_busy_device NV_PAPU_FEAV) NV_PAPU_FEAV_LST = 1
  /\ (0 <= TOP voice_top_busy_device 1)
  /\ voice_chain voice_top_busy_device 2 (TOP voice_top_busy_device 1)
  /\ chain_avoids voice_top_busy_device 2 (TOP voice_top_busy_device 1)
                  (Z.land 9 NV1BA0_PIO_VOICE_ON_HANDLE)
  /\ TOP voice_top_busy_device 1 = 5
  /\ next_link voice_top_busy_device 5 = Done 7
  /\ next_link voice_top_busy_device 7 = Done 0xFFFF
  /\ exists d',
       fe_method voice_top_busy_device NV1BA0_PIO_VOICE_ON 9 = Done d'
       /\ voice_chain d' 3 (TOP d' 1).
Proof.
  assert (H1 : Z.land 9 NV1BA0_PIO_VOICE_ON_HANDLE <> 0xFFFF) by discriminate.
  assert (H2 : 1 <= 1 <= 3) by lia.
  assert (H3 : GET_MASK (regs voice_top_busy_device NV_PAPU_FEAV) NV_PAPU_FEAV_LST = 1)
    by reflexivity.
  assert (H4 : 0 <= TOP voice_top_busy_device 1) by discriminate.
  assert (H5 : voice_chain voice_top_busy_device 2 (TOP voice_top_busy_device 1))
    by (vm_compute; split; [left; discriminate
                           | split; [left; discriminate | reflexivity]]).
  assert (H6 : chain_avoids voice_top_busy_device 2 (TOP voice_top_busy_device 1)
                            (Z.land 9 NV1BA0_PIO_VOICE_ON_HANDLE))
    by (vm_compute; split; [discriminate | split; [discriminate | exact I]]).
  split; [exact H1|]. split; [exact H2|]. split; [exact H3|]. split; [exact H4|].
  split; [exact H5|]. split; [exact H6|].
  split; [reflexivity|]. split; [vm_compute; reflexivity|].
  split; [vm_compute; reflexivity|].
  exact (voice_on_top_keeps_chain voice_top_busy_device 9 1 2 H1 H2 H3 H4 H5 H6).
Defined.

(** ** The frame tick as a whole *)
Lemma fe_idle_voice_rest (d d' : MCPXAPUState) :
  fe_idle_voice d = Done d' ->
  frame_timer d' = frame_timer d /\ dirty d' = dirty d /\ ram_size d' = ram_size d.
Proof.
  unfold fe_idle_voice. destruct (negb _); [|discriminate]. intros [= <-].
  unfold update_irq. destruct (_ && _); repeat split.
Qed.

(** What a completed traversal of one list leaves behind. *)
Lemma voice_list_loop_frame (fuel : nat) :
  forall d mixbins current next r,
    voice_list_loop fuel d mixbins current next = Done r ->
    snd r = mixbins
    /\ regs (fst r) current = 0xFFFF
    /\ mem (fst r) = mem d
    /\ frame_timer (fst r) = frame_timer d
    /\ dirty (fst r) = dirty d
    /\ forall a, a <> current -> a <> next -> ~ trap_reg a ->
                 regs (fst r) a = regs d a.
Proof.
  induction fuel as [|fuel IH]; intros d mixbins current next r; cbn [voice_list_loop].
  - discriminate.
  - destruct (regs d current =? 0xFFFF) eqn:Ec; cbn [negb].
    { intros [= <-]. cbn [fst snd]. apply Z.eqb_eq in Ec. auto 10. }
    destruct (voice_get_mask d (regs d current) NV_PAVS_VOICE_TAR_PITCH_LINK
                NV_PAVS_VOICE_TAR_PITCH_LINK_NEXT_VOICE_HANDLE) as [n| |];
      cbn [bind]; try discriminate.
    set (d1 := set_reg d next n).
    destruct (voice_get_mask d1 (regs d1 current) NV_PAVS_VOICE_PAR_STATE
                NV_PAVS_VOICE_PAR_STATE_ACTIVE_VOICE) as [a| |];
      cbn [bind]; try discriminate.
    assert (Hstep : forall r1,
               (if a =? 0
                then d' <- fe_method d1 SE2FE_IDLE_VOICE (regs d1 current) ;;
                     Done (d', mixbins)
                else Done (d1, process_voice d1 mixbins (regs d1 current)))
               = Done r1 ->
               snd r1 = mixbins /\ mem (fst r1) = mem d
               /\ frame_timer (fst r1) = frame_timer d
               /\ dirty (fst r1) = dirty d
               /\ forall x, x <> next -> ~ trap_reg x -> regs (fst r1) x = regs d x).
    { intros r1. destruct (a =? 0).
      - rewrite fe_method_idle.
        destruct (fe_idle_voice _) as [d'| |] eqn:E; cbn [bind]; try discriminate.
        intros [= <-]. cbn [fst snd].
        destruct (fe_idle_voice_frame _ _ E) as [Hm Hr].
        destruct (fe_idle_voice_rest _ _ E) as (Ht & Hd & _).
        split; [reflexivity|]. split; [exact Hm|]. split; [exact Ht|].
        split; [exact Hd|].
        intros x Hx Hnt. rewrite Hr by (intros ->; apply Hnt; cbn; tauto).
        unfold d1. cbn [regs set_reg].
        rewrite !upd_other; [reflexivity|congruence| |];
          intros Ex; apply Hnt; rewrite <- Ex; cbn; tauto.
      - intros [= <-]. cbn [fst snd]. repeat split.
        intros x Hx _. unfold d1. cbn [regs set_reg]. apply upd_other. congruence. }
    match goal with |- (r0 <- ?s ;; _) = _ -> _ => destruct s as [r1| |] eqn:E1 end;
      cbn [bind]; try discriminate.
    destruct (Hstep r1 eq_refl) as (Hb & Hm & Ht & Hd & Hr).
    intros H. apply IH in H. destruct H as (Hb' & Hc' & Hm' & Ht' & Hd' & Hr').
    cbn [mem frame_timer dirty set_reg] in *.
    split; [congruence|]. split; [exact Hc'|]. split; [congruence|].
    split; [congruence|]. split; [congruence|].
    intros x Hx1 Hx2 Hx3. rewrite Hr' by assumption.
    cbn [regs set_reg]. rewrite upd_other by congruence. now apply Hr.
Qed.

Lemma voice_lists_frame (fuel : nat) (d : MCPXAPUState) (mixbins : mixbins_t)
    (r : MCPXAPUState * mixbins_t) :
  voice_lists fuel voice_list_regs d mixbins = Done r ->
  snd r = mixbins
  /\ mem (fst r) = mem d
  /\ frame_timer (fst r) = frame_timer d
  /\ dirty (fst r) = dirty d
  /\ regs (fst r) NV_PAPU_CVL2D = 0xFFFF
  /\ regs (fst r) NV_PAPU_CVL3D = 0xFFFF
  /\ regs (fst r) NV_PAPU_CVLMP = 0xFFFF
  /\ forall a, ~ In a tick_regs -> regs (fst r) a = regs d a.
Proof.
  unfold voice_list_regs. cbn [voice_lists vl_top vl_current vl_next].
  destruct (voice_list_loop fuel _ mixbins NV_PAPU_CVL2D NV_PAPU_NVL2D)
    as [r1| |] eqn:E1; cbn [bind]; try discriminate.
  destruct (voice_list_loop fuel _ (snd r1) NV_PAPU_CVL3D NV_PAPU_NVL3D)
    as [r2| |] eqn:E2; cbn [bind]; try discriminate.
  destruct (voice_list_loop fuel _ (snd r2) NV_PAPU_CVLMP NV_PAPU_NVLMP)
    as [r3| |] eqn:E3; cbn [bind]; try discriminate.
  intros [= <-]. cbn [fst snd].
  apply voice_list_loop_frame in E1, E2, E3.
  destruct E1 as (B1 & C1 & M1 & T1 & D1 & R1).
  destruct E2 as (B2 & C2 & M2 & T2 & D2 & R2).
  destruct E3 as (B3 & C3 & M3 & T3 & D3 & R3).
  cbn [mem frame_timer dirty set_reg] in *.
  assert (NT : forall a, ~ In a tick_regs -> ~ trap_reg a).
  { intros a Ha Ht. apply Ha. unfold trap_reg, tick_regs in *. cbn in *. tauto. }
  split; [congruence|]. split; [congruence|]. split; [congruence|].
  split; [congruence|].
  split.
  { rewrite R3 by (first [discriminate | unfold trap_reg; cbn; intuition discriminate]).
    cbn [regs set_reg]. rewrite upd_other by discriminate.
    rewrite R2 by (first [discriminate | unfold trap_reg; cbn; intuition discriminate]).
    cbn [regs set_reg]. rewrite upd_other by discriminate. exact C1. }
  split.
  { rewrite R3 by (first [discriminate | unfold trap_reg; cbn; intuition discriminate]).
    cbn [regs set_reg]. rewrite upd_other by discriminate. exact C2. }
  split; [exact C3|].
  intros a Ha. pose proof (NT a Ha) as Hnt.
  assert (Hne : a <> NV_PAPU_CVL2D /\ a <> NV_PAPU_NVL2D /\ a <> NV_PAPU_CVL3D
                /\ a <> NV_PAPU_NVL3D /\ a <> NV_PAPU_CVLMP /\ a <> NV_PAPU_NVLMP).
  { repeat split; intros ->; apply Ha; unfold tick_regs; cbn; tauto. }
  destruct Hne as (N1 & N2 & N3 & N4 & N5 & N6).
  rewrite R3 by assumption. cbn [regs set_reg]. rewrite upd_other by congruence.
  rewrite R2 by assumption. cbn [regs set_reg]. rewrite upd_other by congruence.
  rewrite R1 by assumption. cbn [regs set_reg]. rewrite upd_other by congruence.
  reflexivity.
Qed.



(** X17.  Since [process_voice] mixes nothing, every completed frame tick
    publishes silence: the GP call log grows by 1024 writes of 0 to X memory
    at the consecutive addresses 0x1400 to 0x17FF, in increasing order,
    whatever voices are on the lists, followed by [start_frame] and
    [run(1000)] exactly when both GP reset bits are set. *)
Theorem se_frame_silence (fuel : nat) (now_ms : Z) (d d' : MCPXAPUState) :
  se_frame fuel now_ms d = Done d' ->
  gp_dsp d'
  = gp_dsp d
    ++ map (fun k => dsp_write_memory bank_X (GP_DSP_MIXBUF_BASE + Z.of_nat k) 0)
           (seq 0 (NUM_MIXBINS * NUM_SAMPLES_PER_FRAME))
    ++ (if both_reset_bits (gp_regs d NV_PAPU_GPRST)
        then [dsp_start_frame; dsp_run 1000] else []).
Proof.
  unfold se_frame.
  destruct (voice_lists fuel voice_list_regs _ zero_mixbins) as [r| |] eqn:E;
    cbn [bind]; try discriminate.
  intros [= <-].
  pose proof (voice_lists_processors _ _ _ _ _ E) as (Hg & He & Hgd & Hed).
  apply voice_lists_frame in E. destruct E as (B & _).
  rewrite B.
  replace (map _ (seq 0 (NUM_MIXBINS * NUM_SAMPLES_PER_FRAME)))
    with (mixbuf_writes zero_mixbins) by (vm_compute; reflexivity).
  cbn [gp_regs gp_dsp set_timer] in Hg, Hgd.
  unfold se_kickoff. cbn [gp_regs ep_regs gp_call].
  change NV_PAPU_GPRST_GPRST with (2 ^ 0). change NV_PAPU_GPRST_GPDSPRST with (2 ^ 1).
  rewrite !land_pow2_eqb by lia. rewrite !negb_involutive.
  rewrite Hg. fold (both_reset_bits (gp_regs d NV_PAPU_GPRST)).
  destruct (both_reset_bits (gp_regs d NV_PAPU_GPRST));
    cbn [ep_regs gp_call]; destruct (_ && _);
    cbn [gp_dsp gp_call ep_call]; rewrite Hgd, <- ?app_assoc, ?app_nil_r; reflexivity.
Qed.

Lemma se_frame_silence_busy :
  exists d',
    se_frame 2 0 frame_busy_device = Done d'
    /\ nth_error (gp_dsp d') 33 = Some (dsp_write_memory bank_X 0x1421 0)
    /\ length (gp_dsp d') = 1026%nat.
Proof.
  destruct (se_frame 2 0 frame_busy_device) as [d'| |] eqn:E;
    [|exfalso; revert E; vm_compute; discriminate..].
  exists d'. split; [reflexivity|].
  rewrite (se_frame_silence 2 0 frame_busy_device d' E).
  split; vm_compute; reflexivity.
Defined.

(** With a current handle that fits 16 bits, the only assertion a list
    traversal can trip is the one on the idle-voice trap. *)
Lemma voice_list_loop_assertions (fuel : nat) :
  forall d mixbins current next w,
    current <> next -> ~ trap_reg next ->
    regs d current <= 0xFFFF ->
    voice_list_loop fuel d mixbins current next = Abort w ->
    w = A_idle_voice_disabled.
Proof.
  induction fuel as [|fuel IH]; intros d mixbins current next w Hcn Hnt Hc;
    cbn [voice_list_loop]; [discriminate|].
  destruct (regs d current =? 0xFFFF) eqn:Ec; cbn [negb]; [discriminate|].
  apply Z.eqb_neq in Ec.
  rewrite voice_get_mask_done by lia. cbn [bind].
  match goal with |- context [set_reg d next ?n] => set (nx := n) end.
  assert (Hnx : 0 <= nx <= 0xFFFF).
  { unfold nx.
    change (ctz32 NV_PAVS_VOICE_TAR_PITCH_LINK_NEXT_VOICE_HANDLE) with 0.
    rewrite Z.shiftr_0_r. apply land_handle_range. }
  set (d1 := set_reg d next nx).
  assert (Hc1 : regs d1 current = regs d current)
    by (unfold d1; cbn [regs set_reg]; apply upd_other; congruence).
  rewrite Hc1. rewrite voice_get_mask_done by lia. cbn [bind].
  match goal with |- context [if ?a =? 0 then _ else _] => destruct (a =? 0) end.
  - rewrite fe_method_idle.
    destruct (fe_idle_voice_cases
                (set_reg (set_reg d1 NV_PAPU_FEDECMETH SE2FE_IDLE_VOICE)
                         NV_PAPU_FEDECPARAM (regs d current)))
      as [(d2 & -> & R)| ->]; cbn [bind fst snd].
    + apply IH; try assumption.
      cbn [regs set_reg]. rewrite upd_same.
      rewrite R by (intros Ex; apply Hnt; rewrite Ex; cbn; tauto).
      cbn [regs set_reg].
      rewrite !upd_other by (intros Ex; apply Hnt; rewrite <- Ex; cbn; tauto).
      unfold d1. cbn [regs set_reg]. rewrite upd_same. lia.
    + now intros [= <-].
  - cbn [bind fst snd]. apply IH; try assumption.
    cbn [regs set_reg]. rewrite upd_same.
    unfold d1. cbn [regs set_reg]. rewrite upd_same. lia.
Qed.

(** X18.  Before its first call on a signal processor a frame tick can stop
    on one assertion only: when the three TOP registers hold values no
    greater than 0xFFFF, a walk of the voice lists that stops on an
    assertion stops on the one of the idle-voice trap.  The handle assertion
    of [voice_get_mask] is never reached, since every handle the walk
    follows after the first was read from a 16-bit link field and the loop
    stops at 0xFFFF. *)
Theorem se_frame_traversal_assertions (fuel : nat) (now_ms : Z) (d : MCPXAPUState)
    (w : assertion) :
  let d0 := set_timer d (Some (now_ms + 10)) in
  TOP d 1 <= 0xFFFF -> TOP d 2 <= 0xFFFF -> TOP d 3 <= 0xFFFF ->
  voice_lists fuel voice_list_regs d0 zero_mixbins = Abort w ->
  w = A_idle_voice_disabled.
Proof.
  change (TOP d 1) with (regs d NV_PAPU_TVL2D).
  change (TOP d 2) with (regs d NV_PAPU_TVL3D).
  change (TOP d 3) with (regs d NV_PAPU_TVLMP).
  intros d0 H1 H2 H3.
  unfold voice_list_regs. cbn [voice_lists vl_top vl_current vl_next].
  change (regs d0) with (regs d).
  destruct (voice_list_loop fuel _ zero_mixbins NV_PAPU_CVL2D NV_PAPU_NVL2D)
    as [r1|w1|] eqn:E1; cbn [bind]; try discriminate.
  2:{ intros [= <-]. revert E1. apply voice_list_loop_assertions;
        [discriminate | unfold trap_reg; cbn; intuition discriminate |].
      cbn [regs set_reg]. now rewrite upd_same. }
  apply voice_list_loop_frame in E1. destruct E1 as (_ & _ & _ & _ & _ & R1).
  destruct (voice_list_loop fuel _ (snd r1) NV_PAPU_CVL3D NV_PAPU_NVL3D)
    as [r2|w2|] eqn:E2; cbn [bind]; try discriminate.
  2:{ intros [= <-]. revert E2. apply voice_list_loop_assertions;
        [discriminate | unfold trap_reg; cbn; intuition discriminate |].
      cbn [regs set_reg]. rewrite upd_same.
      rewrite R1 by (first [discriminate | unfold trap_reg; cbn; intuition discriminate]).
      cbn [regs set_reg]. now rewrite upd_other by discriminate. }
  apply voice_list_loop_frame in E2. destruct E2 as (_ & _ & _ & _ & _ & R2).
  destruct (voice_list_loop fuel _ (snd r2) NV_PAPU_CVLMP NV_PAPU_NVLMP)
    as [r3|w3|] eqn:E3; cbn [bind]; try discriminate.
  intros [= <-]. revert E3. apply voice_list_loop_assertions;
    [discriminate | unfold trap_reg; cbn; intuition discriminate |].
  cbn [regs set_reg]. rewrite upd_same.
  rewrite R2 by (first [discriminate | unfold trap_reg; cbn; intuition discriminate]).
  cbn [regs set_reg]. rewrite upd_other by discriminate.
  rewrite R1 by (first [discriminate | unfold trap_reg; cbn; intuition discriminate]).
  cbn [regs set_reg]. now rewrite upd_other by discriminate.
Qed.

Lemma se_frame_traversal_assertions_blank :
  TOP blank_device 1 <= 0xFFFF /\ TOP blank_device 2 <= 0xFFFF
  /\ TOP blank_device 3 <= 0xFFFF
  /\ voice_lists 1 voice_list_regs (set_timer blank_device (Some (0 + 10)))
                 zero_mixbins
     = Abort A_idle_voice_disabled.
Proof.
  assert (H1 : TOP blank_device 1 <= 0xFFFF) by discriminate.
  assert (H2 : TOP blank_device 2 <= 0xFFFF) by discriminate.
  assert (H3 : TOP blank_device 3 <= 0xFFFF) by discriminate.
  split; [exact H1|]. split; [exact H2|]. split; [exact H3|].
  destruct (voice_lists 1 voice_list_regs (set_timer blank_device (Some (0 + 10)))
              zero_mixbins) as [r|w|] eqn:E;
    [exfalso; revert E; vm_compute; discriminate | |
     exfalso; revert E; vm_compute; discriminate].
  now rewrite (se_frame_traversal_assertions 1 0 blank_device w H1 H2 H3 E).
Defined.

(** X19.  A frame tick stops on the assertion of the idle-voice trap, after
    any positive number of loop iterations allowed, when the first voice of
    the 2D list is inactive and bit 15 of [FETFORCE1] is clear. *)
Theorem se_frame_idle_voice_abort (fuel : nat) (now_ms : Z) (d : MCPXAPUState) :
  TOP d 1 < 0xFFFF ->
  voice_active d (TOP d 1) = Done 0 ->
  Z.testbit (regs d NV_PAPU_FETFORCE1) 15 = false ->
  se_frame (S fuel) now_ms d = Abort A_idle_voice_disabled.
Proof.
  change (TOP d 1) with (regs d NV_PAPU_TVL2D).
  intros Ht Ha Hf.
  unfold se_frame, voice_list_regs. cbn [voice_lists vl_top vl_current vl_next].
  set (d0 := set_timer d (Some (now_ms + 10))).
  change (regs d0) with (regs d).
  cbn [voice_list_loop]. cbn [regs set_reg]. rewrite !upd_same.
  replace (regs d NV_PAPU_TVL2D =? 0xFFFF) with false
    by (symmetry; apply Z.eqb_neq; lia).
  cbn [negb]. rewrite voice_get_mask_done by lia. cbn [bind].
  rewrite upd_other by discriminate. rewrite upd_same.
  match goal with |- context [voice_get_mask ?x (regs d NV_PAPU_TVL2D) ?o ?m] =>
    replace (voice_get_mask x (regs d NV_PAPU_TVL2D) o m) with (Done (A:=Z) 0)
      by (symmetry; exact Ha) end.
  cbn [bind]. rewrite Z.eqb_refl.
  rewrite fe_method_idle. unfold fe_idle_voice.
  cbn [regs set_reg]. rewrite !(upd_other _ _ NV_PAPU_FETFORCE1) by discriminate.
  change (regs d0) with (regs d).
  change NV_PAPU_FETFORCE1_SE2FE_IDLE_VOICE with (2 ^ 15).
  rewrite land_pow2_eqb by lia. rewrite Hf. reflexivity.
Qed.

Lemma se_frame_idle_voice_abort_blank :
  TOP blank_device 1 < 0xFFFF
  /\ voice_active blank_device (TOP blank_device 1) = Done 0
  /\ Z.testbit (regs blank_device NV_PAPU_FETFORCE1) 15 = false
  /\ se_frame 1 0 blank_device = Abort A_idle_voice_disabled.
Proof.
  assert (H1 : TOP blank_device 1 < 0xFFFF) by reflexivity.
  assert (H2 : voice_active blank_device (TOP blank_device 1) = Done 0)
    by (vm_compute; reflexivity).
  assert (H3 : Z.testbit (regs blank_device NV_PAPU_FETFORCE1) 15 = false)
    by reflexivity.
  split; [exact H1|]. split; [exact H2|]. split; [exact H3|].
  exact (se_frame_idle_voice_abort 0 0 blank_device H1 H2 H3).
Defined.

(** ** What a transfer touches *)

Lemma same_but_ram_refl d : same_but_ram d d.
Proof. repeat split. Qed.

Lemma same_but_ram_trans d1 d2 d3 :
  same_but_ram d1 d2 -> same_but_ram d2 d3 -> same_but_ram d1 d3.
Proof. unfold same_but_ram. intuition congruence. Qed.

Lemma dirty_covers_nil d : dirty_covers d d [].
Proof.
  split; [symmetry; apply app_nil_r|]. split; [constructor|].
  intros x H. now contradiction H.
Qed.

Lemma dirty_covers_trans d1 d2 d3 n1 n2 :
  ram_size d2 = ram_size d1 ->
  dirty_covers d1 d2 n1 -> dirty_covers d2 d3 n2 -> dirty_covers d1 d3 (n1 ++ n2).
Proof.
  intros Hr (D1 & F1 & M1) (D2 & F2 & M2).
  split; [rewrite D2, D1; symmetry; apply app_assoc|].
  split; [apply Forall_app; split; [exact F1|now rewrite <- Hr]|].
  intros x Hx. apply Exists_app.
  destruct (Z.eq_dec (mem d2 x) (mem d1 x)) as [E|E].
  - right. apply M2. congruence.
  - left. now apply M1.
Qed.

Lemma dirty_total_app n1 n2 : dirty_total (n1 ++ n2) = dirty_total n1 + dirty_total n2.
Proof.
  unfold dirty_total. induction n1 as [|p n1 IH]; cbn [app map fold_right]; lia.
Qed.

Section DMA_footprint.

Variable P : Z.

Lemma sg_loop_footprint (fuel : nat) :
  forall d sge_base max_sge buf page_entry offset_in_page bytes_to_copy len dir r,
    sg_loop P fuel d sge_base max_sge buf page_entry offset_in_page
            bytes_to_copy len dir = Done r ->
    same_but_ram d (fst r)
    /\ (dir = false -> fst r = d)
    /\ (dir = true -> snd r = buf).
Proof.
  induction fuel as [|fuel IH]; intros d sb mx buf pe off btc len dir r;
    cbn [sg_loop]; [discriminate|].
  destruct (len >? 0).
  2:{ intros [= <-]. cbn [fst snd]. split; [apply same_but_ram_refl|]. auto. }
  unfold assert. destruct (pe <=? mx); cbn [bind]; [|discriminate].
  destruct (_ <? ram_size d); cbn [bind]; [|discriminate].
  match goal with |- (r0 <- ?s ;; _) = _ -> _ => destruct s as [r1| |] eqn:E1 end;
    cbn [bind]; try discriminate.
  intros [= <-]. cbn [fst snd]. apply IH in E1. destruct E1 as (S1 & R1 & W1).
  split; [|split].
  - eapply same_but_ram_trans; [|exact S1]. destruct dir; repeat split.
  - intros ->. now apply R1.
  - intros ->. rewrite (W1 eq_refl). apply firstn_skipn.
Qed.

Lemma sg_loop_dirty (fuel : nat) :
  forall d sge_base max_sge buf page_entry offset_in_page bytes_to_copy len r,
    sg_loop P fuel d sge_base max_sge buf page_entry offset_in_page
            bytes_to_copy len true = Done r ->
    exists new, dirty_covers d (fst r) new /\ dirty_total new = Z.max 0 len.
Proof.
  induction fuel as [|fuel IH]; intros d sb mx buf pe off btc len r;
    cbn [sg_loop]; [discriminate|].
  destruct (Z.gtb_spec len 0) as [Hl|Hl].
  2:{ intros [= <-]. exists []. split; [apply dirty_covers_nil|]. cbn. lia. }
  unfold assert. destruct (pe <=? mx); cbn [bind]; [|discriminate].
  set (paddr := wrap32 (ldl_le_phys (mem d) (sb + wrap32 (pe * 8) + 0) + off)).
  set (n := if btc >? len then len else btc).
  destruct (Z.ltb_spec (paddr + n) (ram_size d)) as [Hr|Hr]; cbn [bind]; [|discriminate].
  set (d1 := set_dirty (set_mem d (ram_store (mem d) paddr (firstn (Z.to_nat n) buf)))
                       paddr n).
  match goal with |- (r0 <- ?s ;; _) = _ -> _ => destruct s as [r1| |] eqn:E1 end;
    cbn [bind]; try discriminate.
  intros [= <-]. cbn [fst snd].
  pose proof (sg_loop_footprint _ _ _ _ _ _ _ _ _ _ _ E1) as (S1 & _).
  apply IH in E1. destruct E1 as (new & C1 & T1).
  exists ((paddr, n) :: new). split.
  - change ((paddr, n) :: new) with ([(paddr, n)] ++ new).
    apply (dirty_covers_trans d d1 (fst r1)); [reflexivity| |exact C1].
    split; [reflexivity|]. split; [constructor; [exact Hr|constructor]|].
    intros x Hx. constructor. cbn [fst snd mem d1 set_dirty set_mem] in *.
    unfold ram_store in Hx.
    destruct (Z.leb_spec paddr x) as [H1|H1]; cbn [andb] in Hx; [|congruence].
    destruct (Z.ltb_spec x (paddr + Z.of_nat (length (firstn (Z.to_nat n) buf))))
      as [H2|H2]; [|congruence].
    pose proof (firstn_le_length (Z.to_nat n) buf). lia.
  - unfold dirty_total in *. cbn [map fold_right snd]. rewrite T1.
    unfold n. destruct (Z.gtb_spec btc len); lia.
Qed.

Lemma scatter_gather_rw_effect (d : MCPXAPUState) (sge_base max_sge : Z)
    (buf : list Z) (addr len : Z) (dir : bool) (r : MCPXAPUState * list Z) :
  scatter_gather_rw P d sge_base max_sge buf addr len dir = Done r ->
  same_but_ram d (fst r)
  /\ (dir = false -> fst r = d)
  /\ (dir = true ->
      snd r = buf
      /\ exists new, dirty_covers d (fst r) new /\ dirty_total new = Z.max 0 len).
Proof.
  unfold scatter_gather_rw. intros E.
  destruct (sg_loop_footprint _ _ _ _ _ _ _ _ _ _ _ E) as (S1 & R1 & W1).
  split; [exact S1|]. split; [exact R1|].
  intros ->. split; [now apply W1|]. now apply sg_loop_dirty in E.
Qed.

(** X20.  What a completed linear scatter/gather transfer touches: never a
    register, a processor, the interrupt line, the frame timer or the size
    of RAM.  A read from the guest leaves the whole device unchanged.  A
    write to the guest leaves the caller's buffer unchanged and extends the
    dirty log by ranges that each end below the end of RAM, that contain
    every byte of guest memory whose value changed, and whose lengths add
    up to the length of the transfer (to nothing when it is not
    positive). *)
Theorem scatter_gather_rw_footprint (d : MCPXAPUState) (sge_base max_sge : Z)
    (buf : list Z) (addr len : Z) (dir : bool) (r : MCPXAPUState * list Z) :
  scatter_gather_rw P d sge_base max_sge buf addr len dir = Done r ->
  same_but_ram d (fst r)
  /\ (dir = false -> fst r = d)
  /\ (dir = true ->
      snd r = buf
      /\ exists new, dirty_covers d (fst r) new /\ dirty_total new = Z.max 0 len).
Proof. exact (scatter_gather_rw_effect d sge_base max_sge buf addr len dir r). Qed.

Lemma csg_loop_footprint (fuel : nat) :
  forall d sge_base max_sge buf base end_ cur len dir r,
    csg_loop P fuel d sge_base max_sge buf base end_ cur len dir = Done r ->
    same_but_ram d (fst (fst r))
    /\ (dir = false -> fst (fst r) = d)
    /\ (dir = true ->
        snd (fst r) = buf
        /\ exists new, dirty_covers d (fst (fst r)) new
                       /\ dirty_total new = Z.max 0 len).
Proof.
  induction fuel as [|fuel IH]; intros d sb mx buf base end_ cur len dir r;
    cbn [csg_loop]; [discriminate|].
  destruct (Z.gtb_spec len 0) as [Hl|Hl].
  2:{ intros [= <-]. cbn [fst snd]. split; [apply same_but_ram_refl|].
      split; [reflexivity|]. intros _. split; [reflexivity|].
      exists []. split; [apply dirty_covers_nil|]. cbn. lia. }
  set (n := if wrap32 (end_ - cur) >? len then len else wrap32 (end_ - cur)).
  unfold assert. destruct (_ && _); cbn [bind]; [|discriminate].
  destruct (scatter_gather_rw P d sb mx buf cur n dir) as [r1| |] eqn:E1;
    cbn [bind]; try discriminate.
  match goal with |- (c <- ?s ;; _) = _ -> _ => destruct s as [c| |] end;
    cbn [bind]; try discriminate.
  match goal with |- (r0 <- ?s ;; _) = _ -> _ => destruct s as [r2| |] eqn:E2 end;
    cbn [bind]; try discriminate.
  intros [= <-]. cbn [fst snd].
  apply scatter_gather_rw_effect in E1.
  apply IH in E2.
  destruct E1 as (S1 & R1 & W1). destruct E2 as (S2 & R2 & W2).
  split; [eapply same_but_ram_trans; eassumption|].
  split.
  - intros ->. rewrite (R2 eq_refl). now apply R1.
  - intros ->. destruct (W1 eq_refl) as (B1 & n1 & C1 & T1).
    destruct (W2 eq_refl) as (B2 & n2 & C2 & T2).
    split; [rewrite B2, B1; apply firstn_skipn|].
    exists (n1 ++ n2). split.
    + apply (dirty_covers_trans d (fst r1) (fst (fst r2))); try assumption.
      now destruct S1 as (_ & _ & _ & _ & _ & _ & _ & Hrs).
    + rewrite dirty_total_app, T1, T2.
      pose proof (wrap32_range (end_ - cur)).
      unfold n in *. destruct (Z.gtb_spec (wrap32 (end_ - cur)) len); lia.
Qed.

End DMA_footprint.

Lemma scatter_gather_rw_footprint_S6 :
  exists r,
    scatter_gather_rw 4096 blank_device 0x8000 0 pattern8 0x130 8 true = Done r
    /\ snd r = pattern8
    /\ regs (fst r) = regs blank_device
    /\ exists new, dirty_covers blank_device (fst r) new /\ dirty_total new = 8.
Proof.
  destruct (scatter_gather_rw 4096 blank_device 0x8000 0 pattern8 0x130 8 true)
    as [r| |] eqn:E; [|exfalso; revert E; vm_compute; discriminate..].
  exists r. split; [reflexivity|].
  destruct (scatter_gather_rw_footprint 4096 blank_device 0x8000 0 pattern8 0x130 8
              true r E) as (S & _ & W).
  destruct (W eq_refl) as (B & new & C & T).
  split; [exact B|]. split; [apply S|]. exists new. split; [exact C|exact T].
Defined.

(** ** FIFO callbacks *)

Lemma fifo_bound_field (v : Z) : 0 <= GET_MASK v NV_PAPU_GPOFBASE0_VALUE <= 0xFFFF.
Proof.
  unfold GET_MASK. change (ctz32 NV_PAPU_GPOFBASE0_VALUE) with 8.
  replace (Z.shiftr (Z.land v NV_PAPU_GPOFBASE0_VALUE) 8)
    with (Z.land (Z.shiftr v 8) (Z.ones 16)).
  - rewrite Z.land_ones by lia. pose proof (Z.mod_pos_bound (Z.shiftr v 8) (2 ^ 16)).
    change (2 ^ 16) with 65536 in *. lia.
  - change NV_PAPU_GPOFBASE0_VALUE with (Z.shiftl (Z.ones 16) 8). Z.bitblast.
Qed.

Lemma fifo_cursor_field (old c : Z) :
  0 <= c < 2 ^ 22 ->
  GET_MASK (SET_MASK old NV_PAPU_GPOFCUR0_VALUE c) NV_PAPU_GPOFCUR0_VALUE = c.
Proof.
  intros Hc. unfold GET_MASK, SET_MASK, wrap32.
  change (ctz32 NV_PAPU_GPOFCUR0_VALUE) with 2.
  change NV_PAPU_GPOFCUR0_VALUE with (Z.shiftl (Z.ones 22) 2).
  rewrite <- (Z.mod_small c (2 ^ 22)) at 2 by assumption.
  rewrite <- !Z.land_ones by lia. Z.bitblast.
Qed.

Lemma max_as_if (base cur : Z) : (if cur <? base then base else cur) = Z.max base cur.
Proof. destruct (Z.ltb_spec cur base); lia. Qed.

(** What a completed circular transfer returns and touches. *)
Lemma circular_effect (P : Z) (d : MCPXAPUState) (sge_base max_sge : Z)
    (buf : list Z) (base end_ cur len : Z) (dir : bool)
    (r : MCPXAPUState * list Z * Z) :
  0 < P -> 0 <= base -> base <= cur < end_ -> end_ < 2 ^ 32 -> 0 <= len ->
  circular_scatter_gather_rw P d sge_base max_sge buf base end_ cur len dir = Done r ->
  snd r = ring_advance base end_ cur len
  /\ same_but_ram d (fst (fst r))
  /\ (dir = false -> fst (fst r) = d)
  /\ (dir = true ->
      snd (fst r) = buf
      /\ exists new, dirty_covers d (fst (fst r)) new /\ dirty_total new = len).
Proof.
  intros HP Hb Hc He Hl E. unfold circular_scatter_gather_rw in E.
  destruct (csg_loop_result P HP (S (S (Z.to_nat len))) d sge_base max_sge buf
              base end_ cur len dir) as [_ Hcur]; [assumption..|lia|].
  destruct r as [[d' buf'] c]. rewrite (Hcur d' buf' c E).
  apply csg_loop_footprint in E. cbn [fst snd] in *.
  destruct E as (S1 & R1 & W1).
  split; [reflexivity|]. split; [exact S1|]. split; [exact R1|].
  intros Hd. destruct (W1 Hd) as (B & new & C & T).
  split; [exact B|]. exists new. split; [exact C|]. lia.
Qed.

(** X29.  A completed circular transfer from a cursor inside its window
    returns the position [len] bytes further around the window and touches no
    register, processor, interrupt line or timer.  Reading from the guest
    leaves the whole device unchanged; writing to the guest leaves the
    caller's buffer unchanged and extends the dirty log by ranges that each
    end below the end of RAM, contain every byte of guest memory whose
    value changed, and add up to [len], also when the transfer wraps. *)
Theorem circular_scatter_gather_rw_footprint (P : Z) (d : MCPXAPUState)
    (sge_base max_sge : Z) (buf : list Z) (base end_ cur len : Z) (dir : bool)
    (r : MCPXAPUState * list Z * Z) :
  0 < P -> 0 <= base -> base <= cur < end_ -> end_ < 2 ^ 32 -> 0 <= len ->
  circular_scatter_gather_rw P d sge_base max_sge buf base end_ cur len dir = Done r ->
  snd r = ring_advance base end_ cur len
  /\ same_but_ram d (fst (fst r))
  /\ (dir = false -> fst (fst r) = d)
  /\ (dir = true ->
      snd (fst r) = buf
      /\ exists new, dirty_covers d (fst (fst r)) new /\ dirty_total new = len).
Proof. exact (circular_effect P d sge_base max_sge buf base end_ cur len dir r). Qed.

Lemma circular_scatter_gather_rw_footprint_S6 :
  (0 < 4096) /\ (0 <= 0x100) /\ (0x100 <= 0x130 < 0x140) /\ (0x140 < 2 ^ 32)
  /\ (0 <= 0x20)
  /\ exists r,
       circular_scatter_gather_rw 4096 blank_device 0x8000 0 pattern
         0x100 0x140 0x130 0x20 true = Done r
       /\ snd r = 0x110
       /\ snd (fst r) = pattern
       /\ exists new, dirty_covers blank_device (fst (fst r)) new
                      /\ dirty_total new = 0x20.
Proof.
  assert (H0 : 0 < 4096) by lia.
  assert (H1 : 0 <= 0x100) by lia.
  assert (H2 : 0x100 <= 0x130 < 0x140) by lia.
  assert (H3 : 0x140 < 2 ^ 32) by (change (2 ^ 32) with 4294967296; lia).
  assert (H4 : 0 <= 0x20) by lia.
  repeat (split; [assumption|]).
  destruct (circular_scatter_gather_rw 4096 blank_device 0x8000 0 pattern
              0x100 0x140 0x130 0x20 true) as [r| |] eqn:E;
    [|exfalso; revert E; vm_compute; discriminate..].
  exists r. split; [reflexivity|].
  destruct (circular_scatter_gather_rw_footprint 4096 blank_device 0x8000 0 pattern
              0x100 0x140 0x130 0x20 true r H0 H1 H2 H3 H4 E) as (C & _ & _ & W).
  split; [exact C|]. exact (W eq_refl).
Defined.

(** X21.  A completed [gp_fifo_rw] on a FIFO whose window is not empty
    ([BASE] field below [END] field) found the cursor below the end, and
    leaves in the [CUR] field of that FIFO the position [len] bytes after
    the cursor, raised to the base if it was below it, around the window.
    Every other top-level register is unchanged; an input transfer changes
    neither guest memory nor the dirty log; an output transfer leaves the
    caller's buffer unchanged. *)
Theorem gp_fifo_rw_cursor (P : Z) (d : MCPXAPUState) (buf : list Z)
    (index len : Z) (dir : bool) (r : MCPXAPUState * list Z) :
  let base :=
    GET_MASK (regs d ((if dir then NV_PAPU_GPOFBASE0 else NV_PAPU_GPIFBASE0)
                      + 0x10 * index)) NV_PAPU_GPOFBASE0_VALUE in
  let end_ :=
    GET_MASK (regs d ((if dir then NV_PAPU_GPOFEND0 else NV_PAPU_GPIFEND0)
                      + 0x10 * index)) NV_PAPU_GPOFEND0_VALUE in
  let cur_reg := (if dir then NV_PAPU_GPOFCUR0 else NV_PAPU_GPIFCUR0) + 0x10 * index in
  let cur := GET_MASK (regs d cur_reg) NV_PAPU_GPOFCUR0_VALUE in
  0 < P -> 0 <= len -> base < end_ ->
  gp_fifo_rw P d buf index len dir = Done r ->
  cur < end_
  /\ GET_MASK (regs (fst r) cur_reg) NV_PAPU_GPOFCUR0_VALUE
     = ring_advance base end_ (Z.max base cur) len
  /\ (forall a, a <> cur_reg -> regs (fst r) a = regs d a)
  /\ (dir = false -> mem (fst r) = mem d /\ dirty (fst r) = dirty d)
  /\ (dir = true -> snd r = buf).
Proof.
  intros base end_ cur_reg cur HP Hl Hw E.
  pose proof (fifo_bound_field
                (regs d ((if dir then NV_PAPU_GPOFBASE0 else NV_PAPU_GPIFBASE0)
                         + 0x10 * index))) as Hbase.
  pose proof (fifo_bound_field
                (regs d ((if dir then NV_PAPU_GPOFEND0 else NV_PAPU_GPIFEND0)
                         + 0x10 * index))) as Hend.
  change NV_PAPU_GPOFEND0_VALUE with NV_PAPU_GPOFBASE0_VALUE in end_.
  fold base in Hbase. fold end_ in Hend.
  unfold gp_fifo_rw, assert in E.
  assert (E' : cur < end_
               /\ exists r1,
                    circular_scatter_gather_rw P d (regs d NV_PAPU_GPFADDR)
                      (regs d NV_PAPU_GPFMAXSGE) buf base end_ (Z.max base cur) len dir
                    = Done r1
                    /\ r = (set_reg (fst (fst r1)) cur_reg
                              (SET_MASK (regs (fst (fst r1)) cur_reg)
                                        NV_PAPU_GPOFCUR0_VALUE (snd r1)),
                            snd (fst r1))).
  { destruct dir;
      (match type of E with context [index <? ?c] => destruct (index <? c) end;
       cbn [bind fst snd] in E; [|discriminate E]);
      fold base end_ cur_reg cur in E;
      change (GET_MASK (regs d _) NV_PAPU_GPOFEND0_VALUE) with end_ in E;
      (destruct (Z.ltb_spec cur end_) as [Hce|Hce]; cbn [bind] in E; [|discriminate E]);
      (split; [exact Hce|]);
      rewrite max_as_if in E;
      (destruct (circular_scatter_gather_rw P d _ _ buf base end_ (Z.max base cur) len _)
        as [r1| |] eqn:E1; cbn [bind] in E; try discriminate E);
      exists r1; (split; [reflexivity|]); now injection E as <-. }
  clear E. destruct E' as (Hce & r1 & E1 & ->).
  split; [exact Hce|].
  apply circular_effect in E1; try assumption; try lia.
  destruct E1 as (Ec & S1 & R1 & W1).
  assert (Hr : regs (fst (fst r1)) = regs d) by apply S1.
  cbn [fst snd regs set_reg]. rewrite Hr.
  split.
  { rewrite upd_same, Ec. apply fifo_cursor_field.
    pose proof (ring_advance_range base end_ (Z.max base cur) len ltac:(lia)).
    change (2 ^ 22) with 4194304. lia. }
  split; [intros a Ha; now apply upd_other|].
  split; [intros Hd; now rewrite (R1 Hd)|].
  intros Hd. now destruct (W1 Hd).
Qed.

Lemma gp_fifo_rw_cursor_S6 :
  (0 < 4096) /\ (0 <= 0x20)
  /\ GET_MASK (regs fifo_device NV_PAPU_GPOFBASE0) NV_PAPU_GPOFBASE0_VALUE
     < GET_MASK (regs fifo_device NV_PAPU_GPOFEND0) NV_PAPU_GPOFEND0_VALUE
  /\ exists r,
       gp_fifo_rw 4096 fifo_device pattern 0 0x20 true = Done r
       /\ GET_MASK (regs (fst r) NV_PAPU_GPOFCUR0) NV_PAPU_GPOFCUR0_VALUE = 0x110
       /\ regs (fst r) NV_PAPU_GPOFEND0 = 0x14000.
Proof.
  assert (H0 : 0 < 4096) by lia.
  assert (H1 : 0 <= 0x20) by lia.
  assert (H2 : GET_MASK (regs fifo_device NV_PAPU_GPOFBASE0) NV_PAPU_GPOFBASE0_VALUE
               < GET_MASK (regs fifo_device NV_PAPU_GPOFEND0) NV_PAPU_GPOFEND0_VALUE)
    by reflexivity.
  split; [exact H0|]. split; [exact H1|]. split; [exact H2|].
  destruct (gp_fifo_rw 4096 fifo_device pattern 0 0x20 true) as [r| |] eqn:E;
    [|exfalso; revert E; vm_compute; discriminate..].
  exists r. split; [reflexivity|].
  destruct (gp_fifo_rw_cursor 4096 fifo_device pattern 0 0x20 true r H0 H1 H2 E)
    as (_ & C & R & _).
  split; [exact C|]. now rewrite R by discriminate.
Defined.

(** X22.  The same for [ep_fifo_rw] on the EP FIFO registers: the [CUR]
    field ends [len] bytes further around the window, every other top-level
    register is unchanged, an input transfer changes neither guest memory
    nor the dirty log, an output transfer leaves the caller's buffer
    unchanged. *)
Theorem ep_fifo_rw_cursor (P : Z) (d : MCPXAPUState) (buf : list Z)
    (index len : Z) (dir : bool) (r : MCPXAPUState * list Z) :
  let base :=
    GET_MASK (regs d ((if dir then NV_PAPU_EPOFBASE0 else NV_PAPU_EPIFBASE0)
                      + 0x10 * index)) NV_PAPU_GPOFBASE0_VALUE in
  let end_ :=
    GET_MASK (regs d ((if dir then NV_PAPU_EPOFEND0 else NV_PAPU_EPIFEND0)
                      + 0x10 * index)) NV_PAPU_GPOFEND0_VALUE in
  let cur_reg := (if dir then NV_PAPU_EPOFCUR0 else NV_PAPU_EPIFCUR0) + 0x10 * index in
  let cur := GET_MASK (regs d cur_reg) NV_PAPU_GPOFCUR0_VALUE in
  0 < P -> 0 <= len -> base < end_ ->
  ep_fifo_rw P d buf index len dir = Done r ->
  cur < end_
  /\ GET_MASK (regs (fst r) cur_reg) NV_PAPU_GPOFCUR0_VALUE
     = ring_advance base end_ (Z.max base cur) len
  /\ (forall a, a <> cur_reg -> regs (fst r) a = regs d a)
  /\ (dir = false -> mem (fst r) = mem d /\ dirty (fst r) = dirty d)
  /\ (dir = true -> snd r = buf).
Proof.
  intros base end_ cur_reg cur HP Hl Hw E.
  pose proof (fifo_bound_field
                (regs d ((if dir then NV_PAPU_EPOFBASE0 else NV_PAPU_EPIFBASE0)
                         + 0x10 * index))) as Hbase.
  pose proof (fifo_bound_field
                (regs d ((if dir then NV_PAPU_EPOFEND0 else NV_PAPU_EPIFEND0)
                         + 0x10 * index))) as Hend.
  change NV_PAPU_GPOFEND0_VALUE with NV_PAPU_GPOFBASE0_VALUE in end_.
  fold base in Hbase. fold end_ in Hend.
  unfold ep_fifo_rw, assert in E.
  assert (E' : cur < end_
               /\ exists r1,
                    circular_scatter_gather_rw P d (regs d NV_PAPU_EPFADDR)
                      (regs d NV_PAPU_EPFMAXSGE) buf base end_ (Z.max base cur) len dir
                    = Done r1
                    /\ r = (set_reg (fst (fst r1)) cur_reg
                              (SET_MASK (regs (fst (fst r1)) cur_reg)
                                        NV_PAPU_GPOFCUR0_VALUE (snd r1)),
                            snd (fst r1))).
  { destruct dir;
      (match type of E with context [index <? ?c] => destruct (index <? c) end;
       cbn [bind fst snd] in E; [|discriminate E]);
      fold base end_ cur_reg cur in E;
      change (GET_MASK (regs d _) NV_PAPU_GPOFEND0_VALUE) with end_ in E;
      (destruct (Z.ltb_spec cur end_) as [Hce|Hce]; cbn [bind] in E; [|discriminate E]);
      (split; [exact Hce|]);
      rewrite max_as_if in E;
      (destruct (circular_scatter_gather_rw P d _ _ buf base end_ (Z.max base cur) len _)
        as [r1| |] eqn:E1; cbn [bind] in E; try discriminate E);
      exists r1; (split; [reflexivity|]); now injection E as <-. }
  clear E. destruct E' as (Hce & r1 & E1 & ->).
  split; [exact Hce|].
  apply circular_effect in E1; try assumption; try lia.
  destruct E1 as (Ec & S1 & R1 & W1).
  assert (Hr : regs (fst (fst r1)) = regs d) by apply S1.
  cbn [fst snd regs set_reg]. rewrite Hr.
  split.
  { rewrite upd_same, Ec. apply fifo_cursor_field.
    pose proof (ring_advance_range base end_ (Z.max base cur) len ltac:(lia)).
    change (2 ^ 22) with 4194304. lia. }
  split; [intros a Ha; now apply upd_other|].
  split; [intros Hd; now rewrite (R1 Hd)|].
  intros Hd. now destruct (W1 Hd).
Qed.

Lemma ep_fifo_rw_cursor_input :
  (0 < 4096) /\ (0 <= 8)
  /\ GET_MASK (regs ep_fifo_device (NV_PAPU_EPIFBASE0 + 0x10 * 1))
              NV_PAPU_GPOFBASE0_VALUE
     < GET_MASK (regs ep_fifo_device (NV_PAPU_EPIFEND0 + 0x10 * 1))
                NV_PAPU_GPOFEND0_VALUE
  /\ exists r,
       ep_fifo_rw 4096 ep_fifo_device (repeat 0 8) 1 8 false = Done r
       /\ GET_MASK (regs (fst r) (NV_PAPU_EPIFCUR0 + 0x10 * 1)) NV_PAPU_GPOFCUR0_VALUE
          = 0x204
       /\ mem (fst r) = mem ep_fifo_device.
Proof.
  assert (H0 : 0 < 4096) by lia.
  assert (H1 : 0 <= 8) by lia.
  assert (H2 : GET_MASK (regs ep_fifo_device (NV_PAPU_EPIFBASE0 + 0x10 * 1))
                        NV_PAPU_GPOFBASE0_VALUE
               < GET_MASK (regs ep_fifo_device (NV_PAPU_EPIFEND0 + 0x10 * 1))
                          NV_PAPU_GPOFEND0_VALUE)
    by reflexivity.
  split; [exact H0|]. split; [exact H1|]. split; [exact H2|].
  destruct (ep_fifo_rw 4096 ep_fifo_device (repeat 0 8) 1 8 false) as [r| |] eqn:E;
    [|exfalso; revert E; vm_compute; discriminate..].
  exists r. split; [reflexivity|].
  destruct (ep_fifo_rw_cursor 4096 ep_fifo_device (repeat 0 8) 1 8 false r H0 H1 H2 E)
    as (_ & C & _ & M & _).
  split; [exact C|]. now destruct (M eq_refl).
Defined.

(** ** The empty window *)

Lemma csg_loop_empty_window (P : Z) (fuel : nat) :
  forall d sge_base max_sge buf b len dir,
    0 <= b < 2 ^ 32 -> 0 < len ->
    csg_loop P fuel d sge_base max_sge buf b b b len dir = Diverge.
Proof.
  induction fuel as [|fuel IH]; intros d sb mx buf b len dir Hb Hl; [reflexivity|].
  cbn [csg_loop].
  replace (len >? 0) with true by (symmetry; apply Z.gtb_lt; lia).
  rewrite Z.sub_diag. change (wrap32 0) with 0.
  replace (0 >? len) with false by (symmetry; rewrite Z.gtb_ltb; apply Z.ltb_ge; lia).
  rewrite Z.add_0_r, wrap32_small by assumption.
  unfold assert.
  replace (b >=? b) with true by (symmetry; rewrite Z.geb_leb; apply Z.leb_refl).
  rewrite Z.leb_refl, Z.eqb_refl. cbn [andb bind].
  unfold scatter_gather_rw. cbn [Z.to_nat sg_loop Z.gtb Z.compare bind fst snd skipn].
  rewrite Z.sub_0_r. rewrite IH by assumption. reflexivity.
Qed.

(** X23.  An output transfer of at least one byte through a GP FIFO whose
    [BASE] and [END] fields are equal, with the cursor below them, never
    returns: the cursor is forced to the base, where the circular loop moves
    no byte and wraps to the base again, for ever, without tripping an
    assertion.  The loop runs out of every number of iterations granted to
    it. *)
Theorem gp_fifo_rw_empty_window (P : Z) (d : MCPXAPUState) (buf : list Z)
    (index len : Z) :
  let base := GET_MASK (regs d (NV_PAPU_GPOFBASE0 + 0x10 * index))
                       NV_PAPU_GPOFBASE0_VALUE in
  let end_ := GET_MASK (regs d (NV_PAPU_GPOFEND0 + 0x10 * index))
                       NV_PAPU_GPOFEND0_VALUE in
  let cur := GET_MASK (regs d (NV_PAPU_GPOFCUR0 + 0x10 * index))
                      NV_PAPU_GPOFCUR0_VALUE in
  index < GP_OUTPUT_FIFO_COUNT -> base = end_ -> cur < end_ -> 0 < len ->
  gp_fifo_rw P d buf index len true = Diverge
  /\ forall fuel,
       csg_loop P fuel d (regs d NV_PAPU_GPFADDR) (regs d NV_PAPU_GPFMAXSGE) buf
                base end_ base len true = Diverge.
Proof.
  intros base end_ cur Hi Hbe Hc Hl.
  pose proof (fifo_bound_field (regs d (NV_PAPU_GPOFBASE0 + 0x10 * index))) as Hb.
  fold base in Hb.
  assert (Hloop : forall fuel,
             csg_loop P fuel d (regs d NV_PAPU_GPFADDR) (regs d NV_PAPU_GPFMAXSGE) buf
                      base end_ base len true = Diverge).
  { intros fuel. rewrite <- Hbe. apply csg_loop_empty_window; [|exact Hl].
    change (2 ^ 32) with 4294967296. lia. }
  split; [|exact Hloop].
  unfold gp_fifo_rw, assert.
  replace (index <? GP_OUTPUT_FIFO_COUNT) with true by (symmetry; now apply Z.ltb_lt).
  cbn [bind fst snd]. fold base end_ cur.
  replace (cur <? end_) with true by (symmetry; now apply Z.ltb_lt).
  cbn [bind].
  replace (cur <? base) with true by (symmetry; apply Z.ltb_lt; lia).
  unfold circular_scatter_gather_rw. rewrite Hloop. reflexivity.
Qed.

Lemma gp_fifo_rw_empty_window_hang :
  (0 < GP_OUTPUT_FIFO_COUNT)
  /\ GET_MASK (regs fifo_empty_device (NV_PAPU_GPOFBASE0 + 0x10 * 0))
              NV_PAPU_GPOFBASE0_VALUE
     = GET_MASK (regs fifo_empty_device (NV_PAPU_GPOFEND0 + 0x10 * 0))
                NV_PAPU_GPOFEND0_VALUE
  /\ GET_MASK (regs fifo_empty_device (NV_PAPU_GPOFCUR0 + 0x10 * 0))
              NV_PAPU_GPOFCUR0_VALUE
     < GET_MASK (regs fifo_empty_device (NV_PAPU_GPOFEND0 + 0x10 * 0))
                NV_PAPU_GPOFEND0_VALUE
  /\ (0 < 1)
  /\ gp_fifo_rw 4096 fifo_empty_device [7] 0 1 true = Diverge.
Proof.
  refine (conj eq_refl (conj eq_refl (conj eq_refl (conj eq_refl _)))).
  exact (proj1 (gp_fifo_rw_empty_window 4096 fifo_empty_device [7] 0 1
                  eq_refl eq_refl eq_refl eq_refl)).
Defined.

(** ** Scratch callbacks *)

(** Soundness of a concrete table whose window lies in page 0. *)
Ltac page0_wf :=
  match goal with
  | |- sg_window_wf _ _ _ _ ?b ?e =>
      let Hp := fresh "Hp" in
      assert (Hp : forall p, window_page 4096 b e p -> p = 0)
        by (unfold window_page; intros p [Hlo Hhi]; vm_compute in Hlo, Hhi;
            apply Z.le_antisymm;
            [intros Hc; apply Hhi; destruct p; [discriminate Hc|exact Hc|discriminate Hc]
            |intros Hc; apply Hlo; destruct p; [discriminate Hc|discriminate Hc|exact Hc]]);
      unfold sg_window_wf, sg_table_wf;
      split; [vm_compute; discriminate|];
      split;
      [ intros p Hpg; rewrite (Hp p Hpg); vm_compute; repeat split; congruence
      | split;
        [ intros p q Hp1 Hp2 Hne; rewrite (Hp p Hp1), (Hp q Hp2) in Hne; congruence
        | intros p q Hp1 Hp2; rewrite (Hp p Hp1), (Hp q Hp2); right; vm_compute;
          congruence ] ]
  end.

(** X24.  Through a sound scatter/gather table for the addresses
    [[addr, addr + n)], [n] bytes written with [gp_scratch_rw] are read back
    unchanged by [gp_scratch_rw] at the same address: both transfers
    complete, the read returns the data written and leaves the device as
    the write left it, and the write changed nothing but guest memory and
    its dirty log. *)
Theorem gp_scratch_round_trip (P : Z) (d : MCPXAPUState) (data buf0 : list Z)
    (addr n : Z) :
  0 < P -> 0 <= addr -> addr + n < 2 ^ 32 -> 0 <= n ->
  Z.of_nat (length data) = n -> Z.of_nat (length buf0) = n ->
  sg_window_wf P d (regs d NV_PAPU_GPSADDR) (regs d NV_PAPU_GPSMAXSGE)
               addr (addr + n) ->
  exists d',
    gp_scratch_rw P d data addr n true = Done (d', data)
    /\ gp_scratch_rw P d' buf0 addr n false = Done (d', data)
    /\ same_but_ram d d'.
Proof.
  intros HP Ha He Hn Hd Hb Hwf. unfold gp_scratch_rw.
  set (sb := regs d NV_PAPU_GPSADDR) in *. set (mx := regs d NV_PAPU_GPSMAXSGE) in *.
  destruct (scatter_gather_write P HP (ram_size d) sb mx addr (addr + n)
              (sge_entry (mem d) sb) Ha He (sge_entry_nonneg (mem d) sb)
              (sg_table_wf_ok _ _ _ _ _ _ _ HP Hwf) d data addr n)
    as (d' & Ew & Ht & Hl & _); try lia.
  { split; [reflexivity|]. intros p _. reflexivity. }
  pose proof (scatter_gather_rw_effect P _ _ _ _ _ _ _ _ Ew) as (S & _).
  cbn [fst] in S.
  exists d'. split; [exact Ew|]. split; [|exact S].
  replace (regs d' NV_PAPU_GPSADDR) with sb by (unfold sb; now destruct S as [-> _]).
  replace (regs d' NV_PAPU_GPSMAXSGE) with mx by (unfold mx; now destruct S as [-> _]).
  rewrite (scatter_gather_read P HP (ram_size d) sb mx addr (addr + n)
             (sge_entry (mem d) sb) Ha He (sge_entry_nonneg (mem d) sb)
             (sg_table_wf_ok _ _ _ _ _ _ _ HP Hwf) d' buf0 addr n Ht) by lia.
  rewrite Hl. f_equal. f_equal.
  rewrite firstn_all2, skipn_all2 by lia. apply app_nil_r.
Qed.

Lemma gp_scratch_round_trip_page0 :
  (0 < 4096) /\ (0 <= 0x100) /\ (0x100 + 0x20 < 2 ^ 32) /\ (0 <= 0x20)
  /\ Z.of_nat (length pattern) = 0x20
  /\ Z.of_nat (length (repeat 0 32)) = 0x20
  /\ sg_window_wf 4096 scratch_device (regs scratch_device NV_PAPU_GPSADDR)
                  (regs scratch_device NV_PAPU_GPSMAXSGE) 0x100 (0x100 + 0x20)
  /\ exists d',
       gp_scratch_rw 4096 scratch_device pattern 0x100 0x20 true = Done (d', pattern)
       /\ gp_scratch_rw 4096 d' (repeat 0 32) 0x100 0x20 false = Done (d', pattern).
Proof.
  assert (H0 : 0 < 4096) by lia.
  assert (H1 : 0 <= 0x100) by lia.
  assert (H2 : 0x100 + 0x20 < 2 ^ 32) by (change (2 ^ 32) with 4294967296; lia).
  assert (H3 : 0 <= 0x20) by lia.
  assert (H4 : Z.of_nat (length pattern) = 0x20) by reflexivity.
  assert (H5 : Z.of_nat (length (repeat 0 32)) = 0x20) by reflexivity.
  assert (H6 : sg_window_wf 4096 scratch_device (regs scratch_device NV_PAPU_GPSADDR)
                 (regs scratch_device NV_PAPU_GPSMAXSGE) 0x100 (0x100 + 0x20))
    by page0_wf.
  repeat (split; [assumption|]).
  destruct (gp_scratch_round_trip 4096 scratch_device pattern (repeat 0 32) 0x100 0x20
              H0 H1 H2 H3 H4 H5 H6) as (d' & Ew & Er & _).
  exists d'. split; [exact Ew|exact Er].
Defined.

(** X25.  A read of [n] bytes at [addr] with [ep_scratch_rw], through a
    sound scatter/gather table for [[addr, addr + n)], completes, leaves the
    device unchanged and fills the first [n] bytes of the buffer with the
    guest bytes found, for each logical address [a] of the range, at the
    entry of the EP scratch table for page [a / P] plus the offset
    [a mod P]; the rest of the buffer is untouched. *)
Theorem ep_scratch_read (P : Z) (d : MCPXAPUState) (buf : list Z) (addr n : Z) :
  0 < P -> 0 <= addr -> addr + n < 2 ^ 32 -> 0 <= n ->
  sg_window_wf P d (regs d NV_PAPU_EPSADDR) (regs d NV_PAPU_EPSMAXSGE)
               addr (addr + n) ->
  ep_scratch_rw P d buf addr n false
  = Done (d, map (fun i =>
                    mem d (sge_entry (mem d) (regs d NV_PAPU_EPSADDR)
                                     ((addr + Z.of_nat i) / P)
                           + (addr + Z.of_nat i) mod P))
                 (seq 0 (Z.to_nat n))
             ++ skipn (Z.to_nat n) buf).
Proof.
  intros HP Ha He Hn Hwf. unfold ep_scratch_rw.
  rewrite (scatter_gather_read P HP (ram_size d) (regs d NV_PAPU_EPSADDR)
             (regs d NV_PAPU_EPSMAXSGE) addr (addr + n)
             (sge_entry (mem d) (regs d NV_PAPU_EPSADDR)) Ha He
             (sge_entry_nonneg (mem d) (regs d NV_PAPU_EPSADDR))
             (sg_table_wf_ok _ _ _ _ _ _ _ HP Hwf) d buf addr n);
    try lia; [reflexivity|].
  split; [reflexivity|]. intros p _. reflexivity.
Qed.

Lemma ep_scratch_read_pattern :
  (0 < 4096) /\ (0 <= 0x100) /\ (0x100 + 8 < 2 ^ 32) /\ (0 <= 8)
  /\ sg_window_wf 4096 ep_scratch_device (regs ep_scratch_device NV_PAPU_EPSADDR)
                  (regs ep_scratch_device NV_PAPU_EPSMAXSGE) 0x100 (0x100 + 8)
  /\ ep_scratch_rw 4096 ep_scratch_device (repeat 0 8) 0x100 8 false
     = Done (ep_scratch_device, pattern8).
Proof.
  assert (H0 : 0 < 4096) by lia.
  assert (H1 : 0 <= 0x100) by lia.
  assert (H2 : 0x100 + 8 < 2 ^ 32) by (change (2 ^ 32) with 4294967296; lia).
  assert (H3 : 0 <= 8) by lia.
  assert (H4 : sg_window_wf 4096 ep_scratch_device
                 (regs ep_scratch_device NV_PAPU_EPSADDR)
                 (regs ep_scratch_device NV_PAPU_EPSMAXSGE) 0x100 (0x100 + 8))
    by page0_wf.
  repeat (split; [assumption|]).
  rewrite (ep_scratch_read 4096 ep_scratch_device (repeat 0 8) 0x100 8 H0 H1 H2 H3 H4).
  f_equal.
Defined.

(** ** GP and EP apertures *)

Lemma in_range_cases (addr lo words : Z) :
  in_range addr lo words = true -> lo <= addr <= lo + words * 4 - 1.
Proof. unfold in_range. intros H. apply andb_prop in H. lia. Qed.

Lemma in_range_false (addr lo words : Z) :
  in_range addr lo words = false -> addr < lo \/ lo + words * 4 - 1 < addr.
Proof. unfold in_range. intros H. apply andb_false_iff in H. lia. Qed.

(** X26.  A 4-byte aligned write to the GP aperture, followed by a read at the
    same address.  At an address outside the four memory windows and other
    than [GPRST] the write calls no processor: it completes and changes
    nothing but the GP register of that address, which receives the low 32
    bits of the value.  Whenever a write returns: at an address of a memory
    window no GP register has changed, the GP call log has grown by exactly
    one [dsp_write_memory], and [gp_read] at the same address queries the
    cell (bank and word) that call wrote; at any other address, [GPRST]
    included, [gp_read] returns the low 32 bits of the value written and no
    other GP register has changed. *)
Theorem gp_write_then_read (rd : Z -> Z -> Z) (d : MCPXAPUState) (addr val : Z) :
  addr mod 4 = 0 ->
  (gp_window addr = false -> addr <> NV_PAPU_GPRST ->
   gp_write d addr val 4 = Done (set_gp_reg d addr (wrap32 val)))
  /\ forall d',
       gp_write d addr val 4 = Done d' ->
       if gp_window addr
       then gp_regs d' = gp_regs d
            /\ exists bank word,
                 gp_dsp d' = gp_dsp d ++ [dsp_write_memory bank word (wrap32 val)]
                 /\ gp_read rd d' addr 4 = Done (rd bank word)
       else gp_read rd d' addr 4 = Done (wrap32 val)
            /\ forall a, a <> addr -> gp_regs d' a = gp_regs d a.
Proof.
  intros Hal. unfold gp_write, gp_read, gp_window, assert.
  rewrite Hal. cbn [Z.eqb Pos.eqb bind].
  destruct (in_range addr NV_PAPU_GPXMEM 0x1000); cbn [orb].
  { split; [discriminate|]. intros d' [= <-]. split; [reflexivity|].
    eexists. eexists. split; reflexivity. }
  destruct (in_range addr NV_PAPU_GPMIXBUF 0x400); cbn [orb].
  { split; [discriminate|]. intros d' [= <-]. split; [reflexivity|].
    eexists. eexists. split; reflexivity. }
  destruct (in_range addr NV_PAPU_GPYMEM 0x800); cbn [orb].
  { split; [discriminate|]. intros d' [= <-]. split; [reflexivity|].
    eexists. eexists. split; reflexivity. }
  destruct (in_range addr NV_PAPU_GPPMEM 0x1000); cbn [orb].
  { split; [discriminate|]. intros d' [= <-]. split; [reflexivity|].
    eexists. eexists. split; reflexivity. }
  destruct (Z.eqb_spec addr NV_PAPU_GPRST) as [->|Hne].
  - split; [intros _ H; now contradiction H|]. intros d' [= <-].
    cbn [gp_regs set_gp_reg gp_call].
    split; [now rewrite upd_same|]. intros a Ha. now apply upd_other.
  - split; [reflexivity|]. intros d' [= <-]. cbn [gp_regs set_gp_reg].
    split; [now rewrite upd_same|]. intros a Ha. now apply upd_other.
Qed.

Lemma gp_write_then_read_ymem :
  (0x6004 mod 4 = 0)
  /\ exists d',
       gp_write blank_device 0x6004 0x123456 4 = Done d'
       /\ gp_dsp d' = [dsp_write_memory bank_Y 1 0x123456]
       /\ gp_read (fun bank word => bank * 0x10000 + word) d' 0x6004 4
          = Done (bank_Y * 0x10000 + 1).
Proof.
  split; [reflexivity|].
  destruct (gp_write blank_device 0x6004 0x123456 4) as [d'| |] eqn:E;
    [|exfalso; revert E; vm_compute; discriminate..].
  exists d'. split; [reflexivity|].
  pose proof (proj2 (gp_write_then_read (fun bank word => bank * 0x10000 + word)
                       blank_device 0x6004 0x123456 eq_refl) d' E) as W.
  change (gp_window 0x6004) with true in W. cbv iota in W.
  destruct W as (_ & bank & word & Hlog & Hrd).
  split; [revert E; vm_compute; intros [= <-]; reflexivity|].
  revert E. vm_compute. intros [= <-]. reflexivity.
Defined.

(** X27.  The same for the EP aperture and its three memory windows: a
    write outside the windows and other than [EPRST] calls no processor,
    completes and changes nothing but the EP register of that address;
    whenever a write returns, a window write has logged one
    [dsp_write_memory] to the cell [ep_read] queries at that address and
    changed no EP register, and a register write, [EPRST] included, is read
    back by [ep_read] and has changed no other EP register. *)
Theorem ep_write_then_read (rd : Z -> Z -> Z) (d : MCPXAPUState) (addr val : Z) :
  addr mod 4 = 0 ->
  (ep_window addr = false -> addr <> NV_PAPU_EPRST ->
   ep_write d addr val 4 = Done (set_ep_reg d addr (wrap32 val)))
  /\ forall d',
       ep_write d addr val 4 = Done d' ->
       if ep_window addr
       then ep_regs d' = ep_regs d
            /\ exists bank word,
                 ep_dsp d' = ep_dsp d ++ [dsp_write_memory bank word (wrap32 val)]
                 /\ ep_read rd d' addr 4 = Done (rd bank word)
       else ep_read rd d' addr 4 = Done (wrap32 val)
            /\ forall a, a <> addr -> ep_regs d' a = ep_regs d a.
Proof.
  intros Hal. unfold ep_write, ep_read, ep_window, assert.
  rewrite Hal. cbn [Z.eqb Pos.eqb bind].
  destruct (in_range addr NV_PAPU_EPXMEM 0xC00); cbn [orb].
  { split; [discriminate|]. intros d' [= <-]. split; [reflexivity|].
    eexists. eexists. split; reflexivity. }
  destruct (in_range addr NV_PAPU_EPYMEM 0x100); cbn [orb].
  { split; [discriminate|]. intros d' [= <-]. split; [reflexivity|].
    eexists. eexists. split; reflexivity. }
  destruct (in_range addr NV_PAPU_EPPMEM 0x1000); cbn [orb].
  { split; [discriminate|]. intros d' [= <-]. split; [reflexivity|].
    eexists. eexists. split; reflexivity. }
  destruct (Z.eqb_spec addr NV_PAPU_EPRST) as [->|Hne].
  - split; [intros _ H; now contradiction H|]. intros d' [= <-].
    cbn [ep_regs set_ep_reg ep_call].
    split; [now rewrite upd_same|]. intros a Ha. now apply upd_other.
  - split; [reflexivity|]. intros d' [= <-]. cbn [ep_regs set_ep_reg].
    split; [now rewrite upd_same|]. intros a Ha. now apply upd_other.
Qed.

Lemma ep_write_then_read_register :
  (0xFF00 mod 4 = 0)
  /\ ep_write blank_device 0xFF00 0x1FFFFFFFF 4
     = Done (set_ep_reg blank_device 0xFF00 0xFFFFFFFF)
  /\ ep_read (fun _ _ => 0) (set_ep_reg blank_device 0xFF00 0xFFFFFFFF) 0xFF00 4
     = Done 0xFFFFFFFF.
Proof.
  split; [reflexivity|].
  destruct (ep_write_then_read (fun _ _ => 0) blank_device 0xFF00 0x1FFFFFFFF eq_refl)
    as [Hplain Hany].
  assert (E : ep_write blank_device 0xFF00 0x1FFFFFFFF 4
              = Done (set_ep_reg blank_device 0xFF00 0xFFFFFFFF)).
  { apply Hplain; [reflexivity | discriminate]. }
  split; [exact E|].
  pose proof (Hany _ E) as W.
  change (ep_window 0xFF00) with false in W. cbv iota in W. exact (proj1 W).
Defined.

(** Asked for the aperture address of each cell, [gp_read] answers the
    address it was called with. *)
Lemma gp_read_cell_addr (d : MCPXAPUState) (a : Z) :
  a mod 4 = 0 -> gp_window a = true ->
  gp_read gp_cell_addr d a 4 = Done a.
Proof.
  intros Ha W. unfold gp_read, assert. rewrite Ha. cbn [Z.eqb Pos.eqb bind].
  assert (D : forall lo, lo <= a -> lo mod 4 = 0 -> a = lo + 4 * ((a - lo) / 4)).
  { intros lo Hlo Hl. pose proof (Z.div_mod (a - lo) 4 ltac:(lia)) as E.
    assert ((a - lo) mod 4 = 0) by (rewrite Zminus_mod, Ha, Hl; reflexivity).
    lia. }
  unfold gp_window in W.
  unfold NV_PAPU_GPXMEM, NV_PAPU_GPMIXBUF, NV_PAPU_GPYMEM, NV_PAPU_GPPMEM,
    GP_DSP_MIXBUF_BASE in *.
  destruct (in_range a 0 4096) eqn:X; cbn [orb] in W.
  { apply in_range_cases in X. pose proof (D 0 ltac:(lia) eq_refl) as E.
    set (q := (a - 0) / 4) in *. clearbody q. f_equal.
    rewrite wrap32_small by (change (2 ^ 32) with 4294967296; lia).
    unfold gp_cell_addr, bank_X, bank_Y, bank_P, NV_PAPU_GPXMEM, NV_PAPU_GPMIXBUF,
      NV_PAPU_GPYMEM, NV_PAPU_GPPMEM, GP_DSP_MIXBUF_BASE. cbn [Z.eqb Pos.eqb].
    replace (q <? 4096) with true by (symmetry; apply Z.ltb_lt; lia). lia. }
  destruct (in_range a 20480 1024) eqn:M; cbn [orb] in W.
  { apply in_range_cases in M. pose proof (D 20480 ltac:(lia) eq_refl) as E.
    set (q := (a - 20480) / 4) in *. clearbody q. f_equal.
    rewrite (wrap32_small q) by (change (2 ^ 32) with 4294967296; lia).
    rewrite wrap32_small by (change (2 ^ 32) with 4294967296; lia).
    unfold gp_cell_addr, bank_X, bank_Y, bank_P, NV_PAPU_GPXMEM, NV_PAPU_GPMIXBUF,
      NV_PAPU_GPYMEM, NV_PAPU_GPPMEM, GP_DSP_MIXBUF_BASE. cbn [Z.eqb Pos.eqb].
    replace (5120 + q <? 4096) with false by (symmetry; apply Z.ltb_ge; lia). lia. }
  destruct (in_range a 24576 2048) eqn:Y; cbn [orb] in W.
  { apply in_range_cases in Y. pose proof (D 24576 ltac:(lia) eq_refl) as E.
    set (q := (a - 24576) / 4) in *. clearbody q. f_equal.
    rewrite wrap32_small by (change (2 ^ 32) with 4294967296; lia).
    unfold gp_cell_addr, bank_X, bank_Y, bank_P, NV_PAPU_GPXMEM, NV_PAPU_GPMIXBUF,
      NV_PAPU_GPYMEM, NV_PAPU_GPPMEM, GP_DSP_MIXBUF_BASE. cbn [Z.eqb Pos.eqb]. lia. }
  rewrite W. apply in_range_cases in W.
  pose proof (D 40960 ltac:(lia) eq_refl) as E.
  set (q := (a - 40960) / 4) in *. clearbody q. f_equal.
  rewrite wrap32_small by (change (2 ^ 32) with 4294967296; lia).
  unfold gp_cell_addr, bank_X, bank_Y, bank_P, NV_PAPU_GPXMEM, NV_PAPU_GPMIXBUF,
      NV_PAPU_GPYMEM, NV_PAPU_GPPMEM, GP_DSP_MIXBUF_BASE. cbn [Z.eqb Pos.eqb]. lia.
Qed.

(** X28.  No two aligned addresses of the GP memory windows reach the same
    cell of GP memory: if [gp_read] answers alike at two such addresses
    whatever the processor's memory holds, the addresses are equal.  In
    particular the MIXBUF window (X words from 0x1400) and the XMEM window
    (X words below 0x1000) are disjoint views. *)
Theorem gp_window_injective (d : MCPXAPUState) (a1 a2 : Z) :
  a1 mod 4 = 0 -> a2 mod 4 = 0 ->
  gp_window a1 = true -> gp_window a2 = true ->
  (forall rd, gp_read rd d a1 4 = gp_read rd d a2 4) ->
  a1 = a2.
Proof.
  intros H1 H2 W1 W2 H.
  specialize (H gp_cell_addr).
  rewrite (gp_read_cell_addr d a1 H1 W1), (gp_read_cell_addr d a2 H2 W2) in H.
  now injection H.
Qed.

Lemma gp_window_injective_mixbuf :
  (0x5000 mod 4 = 0) /\ gp_window 0x5000 = true
  /\ (forall a, a mod 4 = 0 -> gp_window a = true ->
        (forall rd, gp_read rd blank_device 0x5000 4 = gp_read rd blank_device a 4) ->
        0x5000 = a).
Proof.
  split; [reflexivity|]. split; [reflexivity|].
  intros a Ha Wa H.
  exact (gp_window_injective blank_device 0x5000 a eq_refl Ha eq_refl Wa H).
Defined.
